(** * Retrieval fusion and pairwise reranking: a shallow embedding

    The development follows [src/query_processing]: [config.py], [models.py],
    [llm_client.py], [reranker.py], [retriever.py], and the parts of
    [pipeline.py] and [scorer.py] that consume their results.

    Modelling conventions.
    - Python [int] is [Z]; [len] yields [Z.of_nat (length _)]; list indices that
      the code keeps non-negative are [nat].
    - Python [str] is [string] over ASCII: the model covers the strings for
      which [str.isascii()] holds, one character per code point.  [lower],
      [upper], [strip] and the regular expression [\b\w+\b] act on the
      ASCII classes; Python's versions are Unicode-aware and agree with them
      on ASCII text only, so a property that depends on the letters of a
      text carries the hypothesis [isascii text = true].
    - Python [float] is idealised as an exact number: [Q] where only field
      operations occur (rank fusion, position scores), [R] where [math.log]
      occurs (BM25).  Rounding is not modelled.
    - A [dict] is an association list in insertion order with unique keys; a
      [set] is the list of its members in insertion order, iterated through a
      parameter [set_iter] that stands for the hash order.
    - Exceptions are values of [exn]; fallible code returns [result].
    - The calls that the reranker makes to the LLM client are recorded, in
      order, in a list that the model threads through its loops.
    - [print] is modelled only where a claim speaks of what is logged. *)

From Stdlib Require Import String Ascii List ZArith QArith Lia Bool Arith.
From Stdlib Require Import Permutation Sorted DecimalString.
From Stdlib Require Import Reals Lra.
From Stdlib Require Lqa.
Import ListNotations.

Set Implicit Arguments.

(* ================================================================== *)
(** * Part I: the program *)
(* ================================================================== *)

(** ** Python values, exceptions and built-ins *)

Module Py.

Inductive exn : Type :=
| IndexError
| KeyError
| ZeroDivisionError
| ValueError
| ConnectionError (msg : string)
| Exception (msg : string).

Inductive result (A : Type) : Type :=
| Ok (a : A)
| Raise (e : exn).

Arguments Ok {A} a.
Arguments Raise {A} e.

Definition bind {A B : Type} (m : result A) (f : A -> result B) : result B :=
  match m with
  | Ok a => f a
  | Raise e => Raise e
  end.

(** [len(l)] *)
Definition len {A : Type} (l : list A) : Z := Z.of_nat (length l).

(** [l[i]] for a non-negative index. *)
Definition getitem {A : Type} (l : list A) (i : nat) : result A :=
  match nth_error l i with
  | Some x => Ok x
  | None => Raise IndexError
  end.

Fixpoint update {A : Type} (l : list A) (i : nat) (v : A) : list A :=
  match l, i with
  | [], _ => []
  | _ :: t, O => v :: t
  | x :: t, S j => x :: update t j v
  end.

(** [l[i] = v] for a non-negative index. *)
Definition setitem {A : Type} (l : list A) (i : nat) (v : A)
  : result (list A) :=
  if (i <? length l)%nat then Ok (update l i v) else Raise IndexError.

(** [l[:stop]]; a negative [stop] counts from the end. *)
Definition slice_to {A : Type} (l : list A) (stop : Z) : list A :=
  if (0 <=? stop)%Z then firstn (Z.to_nat stop) l
  else firstn (length l - Z.to_nat (- stop)) l.

(** [range(n)] as the number of iterations. *)
Definition range_count (n : Z) : nat := Z.to_nat n.

(** [enumerate(l, start)] *)
Fixpoint enumerate {A : Type} (start : Z) (l : list A) : list (Z * A) :=
  match l with
  | [] => []
  | x :: t => (start, x) :: enumerate (start + 1) t
  end.

(** *** Strings *)

Definition in_range (lo hi : nat) (c : ascii) : bool :=
  let n := nat_of_ascii c in ((lo <=? n) && (n <=? hi))%nat.

(** [str.isascii]: every character is below 128. *)
Definition isascii (s : string) : bool :=
  forallb (fun c => (nat_of_ascii c <? 128)%nat) (list_ascii_of_string s).

(** [str.isspace] on ASCII: TAB..CR, FS..US and the blank. *)
Definition isspace (c : ascii) : bool :=
  in_range 9 13 c || in_range 28 32 c.

Definition is_lower (c : ascii) : bool := in_range 97 122 c.
Definition is_upper (c : ascii) : bool := in_range 65 90 c.
Definition is_digit (c : ascii) : bool := in_range 48 57 c.

Definition upper_char (c : ascii) : ascii :=
  if is_lower c then ascii_of_nat (nat_of_ascii c - 32) else c.

Definition lower_char (c : ascii) : ascii :=
  if is_upper c then ascii_of_nat (nat_of_ascii c + 32) else c.

Fixpoint map_string (f : ascii -> ascii) (s : string) : string :=
  match s with
  | EmptyString => EmptyString
  | String c t => String (f c) (map_string f t)
  end.

Definition upper (s : string) : string := map_string upper_char s.
Definition lower (s : string) : string := map_string lower_char s.

Fixpoint lstrip (s : string) : string :=
  match s with
  | EmptyString => EmptyString
  | String c t => if isspace c then lstrip t else s
  end.

Fixpoint rstrip (s : string) : string :=
  match s with
  | EmptyString => EmptyString
  | String c t =>
      match rstrip t with
      | EmptyString => if isspace c then EmptyString else String c EmptyString
      | t' => String c t'
      end
  end.

Definition strip (s : string) : string := rstrip (lstrip s).

(** [sub in s] *)
Fixpoint str_in (sub s : string) : bool :=
  prefix sub s ||
  match s with
  | EmptyString => false
  | String _ t => str_in sub t
  end.

Definition startswith (s p : string) : bool := prefix p s.

(** [sep.join(parts)] *)
Fixpoint join (sep : string) (parts : list string) : string :=
  match parts with
  | [] => EmptyString
  | [p] => p
  | p :: rest => (p ++ sep ++ join sep rest)%string
  end.

(** [str(n)] for a non-negative integer. *)
Definition str_of_nat (n : nat) : string :=
  NilEmpty.string_of_uint (Nat.to_uint n).

(** *** Dictionaries: association lists in insertion order *)

Section Dict.
Context {V : Type}.

Fixpoint dict_get (d : list (string * V)) (k : string) : option V :=
  match d with
  | [] => None
  | (k', v) :: t => if String.eqb k' k then Some v else dict_get t k
  end.

(** [k in d] *)
Definition dict_mem (d : list (string * V)) (k : string) : bool :=
  match dict_get d k with
  | Some _ => true
  | None => false
  end.

(** [d[k] = v]: an existing key keeps its place, a new key goes last. *)
Fixpoint dict_set (d : list (string * V)) (k : string) (v : V)
  : list (string * V) :=
  match d with
  | [] => [(k, v)]
  | (k', v') :: t =>
      if String.eqb k' k then (k', v) :: t else (k', v') :: dict_set t k v
  end.

(** [d[k]] on a plain dict. *)
Definition dict_getitem (d : list (string * V)) (k : string) : result V :=
  match dict_get d k with
  | Some v => Ok v
  | None => Raise KeyError
  end.

(** [d.get(k, default)], and [d[k]] read on a [defaultdict] whose factory
    yields [default] (the read that precedes the write of [d[k] += x]). *)
Definition dict_get_default (d : list (string * V)) (k : string)
    (default : V) : V :=
  match dict_get d k with
  | Some v => v
  | None => default
  end.

End Dict.

(** *** Sets of strings: members in insertion order *)

Definition set_mem (x : string) (s : list string) : bool :=
  existsb (String.eqb x) s.

(** [s.add(x)] *)
Definition set_add (s : list string) (x : string) : list string :=
  if set_mem x s then s else (s ++ [x])%list.

(** [set(l)] *)
Definition set_of_list (l : list string) : list string :=
  fold_left set_add l [].

(** [l.count(x)] *)
Definition count (l : list string) (x : string) : Z :=
  Z.of_nat (length (filter (String.eqb x) l)).

(** *** [sorted(l, key=key, reverse=True)]

    Python's sort is stable, also with [reverse=True]: items with equal keys
    keep their order.  The stable descending sort is written as an insertion
    sort; [ltb] is the strict order of the keys. *)

Section Sorted.
Context {A K : Type}.
Variable key : A -> K.
Variable ltb : K -> K -> bool.

Fixpoint insert_desc (x : A) (l : list A) : list A :=
  match l with
  | [] => [x]
  | y :: t => if ltb (key x) (key y) then y :: insert_desc x t else x :: y :: t
  end.

Definition sorted_reverse (l : list A) : list A :=
  fold_right insert_desc [] l.

End Sorted.

(** *** Numbers *)

Definition Qltb (x y : Q) : bool := negb (Qle_bool y x).

Definition Rltb (x y : R) : bool := if Rlt_dec x y then true else false.

(** [x / y] on floats. *)
Definition fdiv (x y : R) : result R :=
  if Req_dec_T y 0 then Raise ZeroDivisionError else Ok (x / y)%R.

(** [math.log(x)] *)
Definition flog (x : R) : result R :=
  if Rlt_dec 0 x then Ok (ln x) else Raise ValueError.

(** [a / b] on integers (true division). *)
Definition true_div (a b : Z) : result R :=
  if (b =? 0)%Z then Raise ZeroDivisionError else Ok (IZR a / IZR b)%R.

(** [sum(d.values())] *)
Definition sum_values (d : list (string * Z)) : Z :=
  fold_left (fun acc kv => (acc + snd kv)%Z) d 0%Z.

End Py.

Import Py.

Declare Scope py_scope.
Notation "x <- m ;; k" := (bind m (fun x => k))
  (at level 61, m at next level, right associativity) : py_scope.
Notation "' pat <- m ;; k" := (bind m (fun x => match x with pat => k end))
  (at level 61, pat pattern, m at next level, right associativity) : py_scope.
Open Scope py_scope.
Open Scope string_scope.

(** ** config.py *)

Module Config.

Record RetrievalConfig : Type := {
  dense_top_k : Z;
  sparse_top_k : Z;
  fusion_top_k : Z
}.

Record RerankingConfig : Type := {
  batch_size : Z;
  max_candidates : Z
}.

Record PipelineConfig : Type := {
  retrieval : RetrievalConfig;
  reranking : RerankingConfig;
  top_k_results : Z
}.

Definition default_retrieval : RetrievalConfig :=
  {| dense_top_k := 30; sparse_top_k := 30; fusion_top_k := 25 |}.

Definition default_reranking : RerankingConfig :=
  {| batch_size := 5; max_candidates := 20 |}.

Definition DEFAULT_CONFIG : PipelineConfig :=
  {| retrieval := default_retrieval;
     reranking := default_reranking;
     top_k_results := 5 |}.

End Config.

Import Config.

(** ** models.py: the fields the core reads *)

Record UserRequirements : Type := {
  raw_query : string;
  expanded_query : string;
  service_categories : list string;
  preferred_providers : list string
}.

(** [RetrievedCandidate] and its constructor [from_qdrant_payload]. *)

Module RetrievedCandidate.

(** An entry of the [pricing] list of a payload: what
    [p.get('price_per_unit')] and [p.get('unit', '')] return for it. *)
Record PricingTier : Type := {
  tier_price_per_unit : option Q;
  tier_unit : string
}.

(** A stored payload: the keys [from_qdrant_payload] reads, each holding
    what [payload.get] (for the specs, [specs.get]) returns for it. *)
Record Payload : Type := {
  key_service_id : string;
  key_provider : string;
  key_service_name : string;
  key_service_type : string;
  key_category : string;
  key_description : string;
  key_short_description : string;
  key_specs_vcpu : option Q;
  key_specs_memory_gb : option Q;
  key_specs_storage_type : option string;
  key_specs_database_engine : option string;
  key_pricing : list PricingTier;
  key_features : list string;
  key_use_cases : list string;
  key_supports_auto_scaling : bool;
  key_supports_multi_az : bool;
  key_supports_encryption : bool;
  key_region : string;
  key_available_regions : list string
}.

Record t : Type := {
  service_id : string;
  provider : string;
  service_name : string;
  service_type : string;
  category : string;
  description : string;
  short_description : string;
  vcpu : option Q;
  memory_gb : option Q;
  storage_type : option string;
  database_engine : option string;
  price_per_unit : option Q;
  price_unit : option string;
  features : list string;
  use_cases : list string;
  supports_auto_scaling : bool;
  supports_multi_az : bool;
  supports_encryption : bool;
  region : string;
  available_regions : list string;
  dense_score : Q;
  sparse_score : Q;
  fusion_score : Q;
  raw_payload : Payload
}.

(** The order of the keys [p.get('price_per_unit', float('inf'))]: a
    missing price counts as infinite, above every price. *)
Definition price_ltb (x y : option Q) : bool :=
  match x, y with
  | Some a, Some b => Qltb a b
  | Some _, None => true
  | None, _ => false
  end.

(** [min(l, key=key)] on the non-empty list [best :: l]: the first of the
    items with the least key. *)
Fixpoint min_from {A : Type} (key : A -> option Q) (best : A) (l : list A)
  : A :=
  match l with
  | [] => best
  | x :: rest =>
      min_from key (if price_ltb (key x) (key best) then x else best) rest
  end.

(** [RetrievedCandidate.from_qdrant_payload] *)
Definition from_qdrant_payload (payload : Payload) (score : Q) : t :=
  let pricing := key_pricing payload in
  let '(lowest_price, lowest_unit) :=
    match pricing with
    | [] => (None, None)
    | p :: rest =>
        let min_price := min_from tier_price_per_unit p rest in
        (tier_price_per_unit min_price, Some (tier_unit min_price))
    end in
  {| service_id := key_service_id payload;
     provider := key_provider payload;
     service_name := key_service_name payload;
     service_type := key_service_type payload;
     category := key_category payload;
     description := key_description payload;
     short_description := key_short_description payload;
     vcpu := key_specs_vcpu payload;
     memory_gb := key_specs_memory_gb payload;
     storage_type := key_specs_storage_type payload;
     database_engine := key_specs_database_engine payload;
     price_per_unit := lowest_price;
     price_unit := lowest_unit;
     features := key_features payload;
     use_cases := key_use_cases payload;
     supports_auto_scaling := key_supports_auto_scaling payload;
     supports_multi_az := key_supports_multi_az payload;
     supports_encryption := key_supports_encryption payload;
     region := key_region payload;
     available_regions := key_available_regions payload;
     dense_score := score;
     sparse_score := 0;
     fusion_score := 0;
     raw_payload := payload |}.

(** [candidate.fusion_score = fusion_score] *)
Definition set_fusion_score (c : t) (fusion_score : Q) : t :=
  {| service_id := service_id c;
     provider := provider c;
     service_name := service_name c;
     service_type := service_type c;
     category := category c;
     description := description c;
     short_description := short_description c;
     vcpu := vcpu c;
     memory_gb := memory_gb c;
     storage_type := storage_type c;
     database_engine := database_engine c;
     price_per_unit := price_per_unit c;
     price_unit := price_unit c;
     features := features c;
     use_cases := use_cases c;
     supports_auto_scaling := supports_auto_scaling c;
     supports_multi_az := supports_multi_az c;
     supports_encryption := supports_encryption c;
     region := region c;
     available_regions := available_regions c;
     dense_score := dense_score c;
     sparse_score := sparse_score c;
     fusion_score := fusion_score;
     raw_payload := raw_payload c |}.

End RetrievedCandidate.

(** ** llm_client.py *)

(** [LLMClient.generate]: the HTTP exchange either fails or yields the text of
    the [response] field; every failure is caught and turned into the empty
    string, so the method itself never raises. *)
Definition LLMClient_generate (exchange : result string) : string :=
  match exchange with
  | Ok text => strip text
  | Raise _ => ""
  end.

(** ** reranker.py *)

Module Reranker.

Section Defs.

(** A [RetrievedCandidate] is opaque to the reranker: it is only handed to
    the prompt. *)
Context {RetrievedCandidate : Type}.

Record ScoredCandidate : Type := {
  candidate : RetrievedCandidate;
  llm_relevance_score : Q;
  llm_explanation : string
}.

(** The pairwise oracle.  The prompt of [_compare_pair] is a function of the
    query and the two candidates, and the service may answer differently each
    time, so the outcome of the [n]-th call [self.llm.generate(prompt,
    max_tokens=10)] is a function of [n], the query and the two candidates: a
    response text, or an exception.  Candidates are taken as well typed, so
    formatting them into the prompt, which happens before the [try] block,
    raises nothing. *)
Definition Oracle : Type :=
  nat -> string -> RetrievedCandidate -> RetrievedCandidate -> result string.

Record LLMReranker : Type := {
  config : PipelineConfig;
  llm : Oracle;
  num_passes : Z
}.

(** [LLMReranker.__init__], once the [LLMClient] is constructed. *)
Definition LLMReranker_init (cfg : PipelineConfig) (o : Oracle) : LLMReranker :=
  {| config := cfg; llm := o; num_passes := Z.min (top_k_results cfg) 3 |}.

(** The [if]/[elif] chain that extracts the choice from the response. *)
Definition extract_choice (response : string) : string :=
  let result := upper (strip response) in
  if str_in "A" result && negb (str_in "B" result) then "A"
  else if str_in "B" result && negb (str_in "A" result) then "B"
  else if startswith result "A" then "A"
  else if startswith result "B" then "B"
  else "A".

(** What [rerank] does to the outside world is to call the LLM client.  The
    model records these calls: an [Exchange] is one call
    [self.llm.generate(prompt, max_tokens=10)], with the query and the two
    candidates that its prompt is made of and with its outcome, and the
    calls made so far are threaded through the loops as a list, oldest
    first. *)
Record Exchange : Type := {
  asked_query : string;
  asked_a : RetrievedCandidate;
  asked_b : RetrievedCandidate;
  outcome : result string
}.

(** The call [self.llm.generate(prompt, max_tokens=10)] of [_compare_pair],
    after the calls [calls]: the oracle gives the outcome, and the call is
    recorded whether it answers or raises. *)
Definition llm_generate (self : LLMReranker) (calls : list Exchange)
    (query : string) (candidate_a candidate_b : RetrievedCandidate)
  : result string * list Exchange :=
  let response := llm self (length calls) query candidate_a candidate_b in
  (response,
   (calls ++ [{| asked_query := query; asked_a := candidate_a;
                 asked_b := candidate_b; outcome := response |}])%list).

(** [LLMReranker._compare_pair]: the winner, and the calls made once the
    comparison is over. *)
Definition _compare_pair (self : LLMReranker) (calls : list Exchange)
    (query : string) (candidate_a candidate_b : RetrievedCandidate)
  : string * list Exchange :=
  let '(response, calls') :=
    llm_generate self calls query candidate_a candidate_b in
  match response with
  | Ok response => (extract_choice response, calls')
  | Raise _ => ("A", calls')
  end.

(** One comparison of the inner loop, at index [i = S j]:
    [ranked[i - 1]] against [ranked[i]], swapped when the winner is ["B"].
    The loops hand the calls made from one comparison to the next and add
    none themselves. *)
Definition compare_and_swap (self : LLMReranker) (query : string) (j : nat)
    (ranked : list RetrievedCandidate) (calls : list Exchange)
  : result (list RetrievedCandidate * list Exchange) :=
  a <- getitem ranked j ;;
  b <- getitem ranked (S j) ;;
  let '(winner, calls') := _compare_pair self calls query a b in
  if String.eqb winner "B" then
    r1 <- setitem ranked j b ;;
    r2 <- setitem r1 (S j) a ;;
    Ok (r2, calls')
  else Ok (ranked, calls').

(** [for i in range(len(ranked) - 1, 0, -1)], entered at [i]. *)
Fixpoint inner_loop (self : LLMReranker) (query : string) (i : nat)
    (ranked : list RetrievedCandidate) (calls : list Exchange)
  : result (list RetrievedCandidate * list Exchange) :=
  match i with
  | O => Ok (ranked, calls)
  | S j =>
      '(ranked', calls') <- compare_and_swap self query j ranked calls ;;
      inner_loop self query j ranked' calls'
  end.

(** [for pass_num in range(self.num_passes)], with [passes] rounds to go. *)
Fixpoint pass_loop (self : LLMReranker) (query : string) (passes : nat)
    (ranked : list RetrievedCandidate) (calls : list Exchange)
  : result (list RetrievedCandidate * list Exchange) :=
  match passes with
  | O => Ok (ranked, calls)
  | S p =>
      '(ranked', calls') <-
        inner_loop self query (length ranked - 1) ranked calls ;;
      pass_loop self query p ranked' calls'
  end.

(** The position score [10.0 - (i * 9.0 / max(len(ranked) - 1, 1))]. *)
Definition position_score (n : Z) (i : Z) : Q :=
  10 - (inject_Z i * 9 / inject_Z (Z.max (n - 1) 1)).

Definition explanation (i : Z) : string :=
  "Ranked #" ++ str_of_nat (Z.to_nat (i + 1)) ++ " by pairwise comparison".

(** [LLMReranker.rerank]: the scored list, and the calls that the
    comparisons have made to the LLM client, in order.  The early return
    makes none. *)
Definition rerank (self : LLMReranker) (requirements : UserRequirements)
    (candidates : list RetrievedCandidate)
  : result (list ScoredCandidate * list Exchange) :=
  if (len candidates <=? 1)%Z then
    Ok (map (fun ic => {| candidate := snd ic;
                          llm_relevance_score := 10 - inject_Z (fst ic);
                          llm_explanation := "" |})
            (enumerate 0 candidates), [])
  else
    let candidates_to_rank :=
      slice_to candidates (max_candidates (reranking (config self))) in
    let query := raw_query requirements in
    '(ranked, calls) <-
      pass_loop self query (range_count (num_passes self))
                candidates_to_rank [] ;;
    Ok (map (fun ic => {| candidate := snd ic;
                          llm_relevance_score :=
                            position_score (len ranked) (fst ic);
                          llm_explanation := explanation (fst ic) |})
            (enumerate 0 ranked), calls).

End Defs.

Arguments ScoredCandidate : clear implicits.
Arguments Exchange : clear implicits.
Arguments Oracle : clear implicits.
Arguments LLMReranker : clear implicits.

End Reranker.

Import Reranker.

(** ** retriever.py: [BM25Index] *)

Module BM25Index.

Record t : Type := {
  k1 : R;
  b : R;
  documents : list (string * list string);
  doc_lengths : list (string * Z);
  avg_doc_length : R;
  doc_freqs : list (string * Z);
  inverted_index : list (string * list string);
  N : Z
}.

(** [BM25Index.__init__] *)
Definition init (k1 b : R) : t :=
  {| k1 := k1; b := b; documents := []; doc_lengths := [];
     avg_doc_length := 0%R; doc_freqs := []; inverted_index := []; N := 0%Z |}.

Definition default_k1 : R := (15 / 10)%R.
Definition default_b : R := (75 / 100)%R.

(** [\w] on ASCII. *)
Definition is_word_char (c : ascii) : bool :=
  is_lower c || is_upper c || is_digit c || Ascii.eqb c "_"%char.

Definition flush (cur : string) : list string :=
  match cur with
  | EmptyString => []
  | _ => [cur]
  end.

(** [re.findall(r'\b\w+\b', text)]: the maximal runs of word characters;
    [cur] is the run being read. *)
Fixpoint findall_words (text cur : string) : list string :=
  match text with
  | EmptyString => flush cur
  | String c rest =>
      if is_word_char c then findall_words rest (cur ++ String c EmptyString)
      else (flush cur ++ findall_words rest EmptyString)%list
  end.

(** [BM25Index._tokenize], on ASCII text.  Beyond ASCII, Python lowers and
    keeps accented and other letters, which this model treats as
    separators. *)
Definition _tokenize (text : string) : list string :=
  findall_words (lower text) EmptyString.

Section Methods.

(** The order in which a [set] of strings with the given insertion history
    is iterated. *)
Variable set_iter : list string -> list string.

(** The body of [for token in unique_tokens]. *)
Definition index_token (doc_id : string)
    (st : list (string * Z) * list (string * list string)) (token : string)
  : list (string * Z) * list (string * list string) :=
  let '(df, inv) := st in
  (dict_set df token (dict_get_default df token 0 + 1)%Z,
   dict_set inv token (set_add (dict_get_default inv token []) doc_id)).

(** [BM25Index.add_document]: the index as the call leaves it, and whether
    the call raised (the containers are updated before the division). *)
Definition add_document (self : t) (doc_id text : string) : t * result unit :=
  let tokens := _tokenize text in
  let documents' := dict_set (documents self) doc_id tokens in
  let doc_lengths' := dict_set (doc_lengths self) doc_id (len tokens) in
  let unique_tokens := set_of_list tokens in
  let '(doc_freqs', inverted_index') :=
    fold_left (index_token doc_id) (set_iter unique_tokens)
              (doc_freqs self, inverted_index self) in
  let N' := (N self + 1)%Z in
  let updated avg :=
    {| k1 := k1 self; b := b self; documents := documents';
       doc_lengths := doc_lengths'; avg_doc_length := avg;
       doc_freqs := doc_freqs'; inverted_index := inverted_index';
       N := N' |} in
  match true_div (sum_values doc_lengths') N' with
  | Ok avg => (updated avg, Ok tt)
  | Raise e => (updated (avg_doc_length self), Raise e)
  end.

(** [BM25Index._idf] *)
Definition _idf (self : t) (term : string) : result R :=
  let df := dict_get_default (doc_freqs self) term 0%Z in
  if (df =? 0)%Z then Ok 0%R
  else
    q <- fdiv (IZR (N self) - IZR df + 5 / 10)%R (IZR df + 5 / 10)%R ;;
    flog (q + 1)%R.

(** The body of [for doc_id in self.inverted_index[token]]. *)
Definition score_doc (self : t) (token : string) (idf : R)
    (scores : list (string * R)) (doc_id : string)
  : result (list (string * R)) :=
  doc_tokens <- dict_getitem (documents self) doc_id ;;
  let tf := count doc_tokens token in
  doc_len <- dict_getitem (doc_lengths self) doc_id ;;
  let numerator := (IZR tf * (k1 self + 1))%R in
  q <- fdiv (b self * IZR doc_len)%R (avg_doc_length self) ;;
  let denominator := (IZR tf + k1 self * (1 - b self + q))%R in
  contribution <- fdiv (idf * numerator)%R denominator ;;
  Ok (dict_set scores doc_id
        (dict_get_default scores doc_id 0%R + contribution)%R).

Fixpoint score_docs (self : t) (token : string) (idf : R)
    (doc_ids : list string) (scores : list (string * R))
  : result (list (string * R)) :=
  match doc_ids with
  | [] => Ok scores
  | doc_id :: rest =>
      scores' <- score_doc self token idf scores doc_id ;;
      score_docs self token idf rest scores'
  end.

(** [for token in query_tokens] *)
Fixpoint score_tokens (self : t) (query_tokens : list string)
    (scores : list (string * R)) : result (list (string * R)) :=
  match query_tokens with
  | [] => Ok scores
  | token :: rest =>
      if negb (dict_mem (inverted_index self) token) then
        score_tokens self rest scores
      else
        idf <- _idf self token ;;
        scores' <-
          score_docs self token idf
            (set_iter (dict_get_default (inverted_index self) token []))
            scores ;;
        score_tokens self rest scores'
  end.

(** [BM25Index.search] *)
Definition search (self : t) (query : string) (top_k : Z)
  : result (list (string * R)) :=
  let query_tokens := _tokenize query in
  scores <- score_tokens self query_tokens [] ;;
  let sorted_results := sorted_reverse snd Rltb scores in
  Ok (slice_to sorted_results top_k).

End Methods.

End BM25Index.

(** ** retriever.py: [HybridRetriever] *)

Module HybridRetriever.

(** The payload of a stored point: the keys [_create_search_text] reads,
    each holding what [payload.get] returns for it. *)
Record Payload : Type := {
  service_name : string;
  description : string;
  short_description : string;
  provider : string;
  category : string;
  service_type : string;
  features : list string;
  use_cases : list string;
  tags : list string;
  specs_database_engine : option string
}.

(** A scrolled point, its id already through [str]. *)
Record Point : Type := {
  point_id : string;
  payload : Payload
}.

(** A search result, the dict [{'id': ..., 'score': ...}]. *)
Record Hit (S : Type) : Type := {
  hit_id : string;
  hit_score : S
}.

(** The vector store: [scroll] from an offset yields a page and the next
    offset, or raises. *)
Record VectorStore : Type := {
  scroll : option string -> result (list Point * option string)
}.

Record t : Type := {
  config : PipelineConfig;
  qdrant : VectorStore;
  bm25_index : BM25Index.t
}.

Definition nonempty (s : string) : bool :=
  match s with
  | EmptyString => false
  | _ => true
  end.

(** [HybridRetriever._create_search_text] *)
Definition _create_search_text (payload : Payload) : string :=
  let parts :=
    ([service_name payload; description payload; short_description payload;
      provider payload; category payload; service_type payload]
     ++ features payload ++ use_cases payload ++ tags payload
     ++ match specs_database_engine payload with
        | Some engine => if nonempty engine then [engine] else []
        | None => []
        end)%list in
  join " " (filter nonempty parts).

Definition str_of_exn (e : exn) : string :=
  match e with
  | IndexError => "list index out of range"
  | KeyError => "key"
  | ZeroDivisionError => "division by zero"
  | ValueError => "math domain error"
  | ConnectionError msg => msg
  | Exception msg => msg
  end.

Section Methods.

Variable set_iter : list string -> list string.

(** [for point in results] *)
Fixpoint index_points (index : BM25Index.t) (results : list Point)
    (total_indexed : Z) : BM25Index.t * result Z :=
  match results with
  | [] => (index, Ok total_indexed)
  | point :: rest =>
      let search_text := _create_search_text (payload point) in
      match BM25Index.add_document set_iter index (point_id point)
              search_text with
      | (index', Ok _) => index_points index' rest (total_indexed + 1)%Z
      | (index', Raise e) => (index', Raise e)
      end
  end.

(** [while True] of [_build_bm25_index]; [None] when the fuel runs out. *)
Fixpoint scroll_loop (fuel : nat) (store : VectorStore)
    (offset : option string) (index : BM25Index.t) (total_indexed : Z)
  : option (BM25Index.t * result Z) :=
  match fuel with
  | O => None
  | S fuel' =>
      match scroll store offset with
      | Raise e => Some (index, Raise e)
      | Ok (results, offset') =>
          match results with
          | [] => Some (index, Ok total_indexed)
          | _ =>
              match index_points index results total_indexed with
              | (index', Raise e) => Some (index', Raise e)
              | (index', Ok total') =>
                  match offset' with
                  | None => Some (index', Ok total')
                  | Some _ => scroll_loop fuel' store offset' index' total'
                  end
              end
          end
      end
  end.

(** [HybridRetriever._build_bm25_index]: the retriever with the index as the
    call leaves it, and the lines printed.  The [except Exception] clause
    ends the call normally. *)
Definition _build_bm25_index (fuel : nat) (self : t)
  : option (t * list string) :=
  let started := "   Building BM25 index from Qdrant collection..." in
  match scroll_loop fuel (qdrant self) None (bm25_index self) 0%Z with
  | None => None
  | Some (index', outcome) =>
      let self' := {| config := config self; qdrant := qdrant self;
                      bm25_index := index' |} in
      match outcome with
      | Ok total_indexed =>
          Some (self',
                [started;
                 "    BM25 index built with "
                 ++ str_of_nat (Z.to_nat total_indexed) ++ " documents"])
      | Raise e =>
          Some (self',
                [started;
                 "     Failed to build BM25 index: " ++ str_of_exn e])
      end
  end.

(** [HybridRetriever.__init__].  [embedder] is the outcome of constructing
    the [EmbeddingClient], which raises [ConnectionError] when its service
    cannot be reached; constructing the [QdrantClient] opens no
    connection. *)
Definition init (fuel : nat) (cfg : PipelineConfig) (embedder : result unit)
    (store : VectorStore) : option (result (t * list string)) :=
  match embedder with
  | Raise e => Some (Raise e)
  | Ok _ =>
      let self := {| config := cfg; qdrant := store;
                     bm25_index :=
                       BM25Index.init BM25Index.default_k1
                                      BM25Index.default_b |} in
      match _build_bm25_index fuel self with
      | None => None
      | Some (self', printed) =>
          Some (Ok (self',
                    (printed ++ [" HybridRetriever initialized"])%list))
      end
  end.

(** [HybridRetriever._sparse_search] *)
Definition _sparse_search (self : t) (query : string) : list (Hit R) :=
  match BM25Index.search set_iter (bm25_index self) query
          (sparse_top_k (retrieval (config self))) with
  | Ok results =>
      map (fun r => {| hit_id := fst r; hit_score := snd r |}) results
  | Raise _ => []
  end.

End Methods.

(** The body of both [for rank, result in enumerate(results, 1)] loops. *)
Definition fuse_rank (k : Z) (fused_scores : list (string * Q))
    (rank : Z) (doc_id : string) : result (list (string * Q)) :=
  if (k + rank =? 0)%Z then Raise ZeroDivisionError
  else
    Ok (dict_set fused_scores doc_id
          (dict_get_default fused_scores doc_id 0 + 1 / inject_Z (k + rank))).

Fixpoint fuse_ranks (k : Z) (ranked : list (Z * string))
    (fused_scores : list (string * Q)) : result (list (string * Q)) :=
  match ranked with
  | [] => Ok fused_scores
  | (rank, doc_id) :: rest =>
      fused_scores' <- fuse_rank k fused_scores rank doc_id ;;
      fuse_ranks k rest fused_scores'
  end.

(** [HybridRetriever._reciprocal_rank_fusion]; the scores of the two
    result lists are not read. *)
Definition _reciprocal_rank_fusion {S1 S2 : Type} (self : t)
    (dense_results : list (Hit S1)) (sparse_results : list (Hit S2))
    (k : Z) : result (list (string * Q)) :=
  fused1 <-
    fuse_ranks k (enumerate 1 (map (@hit_id S1) dense_results)) [] ;;
  fused_scores <-
    fuse_ranks k (enumerate 1 (map (@hit_id S2) sparse_results)) fused1 ;;
  let sorted_results := sorted_reverse snd Qltb fused_scores in
  Ok (slice_to sorted_results (fusion_top_k (retrieval (config self)))).

Definition default_k : Z := 60.

(** *** Retrieval *)

(** The filter handed to the vector search. *)
Record FieldCondition : Type := {
  key : string;
  match_any : list string
}.

Record Filter : Type := {
  must : list FieldCondition
}.

Definition nonempty_list {A : Type} (l : list A) : bool :=
  match l with
  | [] => false
  | _ => true
  end.

(** [HybridRetriever._build_filters] *)
Definition _build_filters (requirements : UserRequirements)
  : option Filter :=
  let conditions := [] in
  let conditions :=
    if nonempty_list (preferred_providers requirements)
    then (conditions
          ++ [{| key := "provider";
                 match_any := preferred_providers requirements |}])%list
    else conditions in
  let conditions :=
    if nonempty_list (service_categories requirements)
    then (conditions
          ++ [{| key := "category";
                 match_any := service_categories requirements |}])%list
    else conditions in
  if nonempty_list conditions then Some {| must := conditions |} else None.

(** A result of the dense search, the dict
    [{'id': ..., 'score': ..., 'payload': ...}]. *)
Record DenseResult : Type := {
  result_id : string;
  result_score : Q;
  result_payload : RetrievedCandidate.Payload
}.

(** The services behind the retriever at query time: the embedding client
    and the two calls to the vector store, each of which may raise.
    [query_points] receives the embedding, the limit and the filter (the
    collection name and the score threshold are constants of the
    configuration); [retrieve_points] is [retrieve(ids=[doc_id])] and
    yields the payloads of the points found. *)
Record SearchServices (Embedding : Type) : Type := {
  embed : string -> result Embedding;
  query_points :
    Embedding -> Z -> option Filter -> result (list DenseResult);
  retrieve_points : string -> result (list RetrievedCandidate.Payload)
}.

(** The [id] and [score] of a dense result, the part that rank fusion
    sees. *)
Definition dense_hit (r : DenseResult) : Hit Q :=
  {| hit_id := result_id r; hit_score := result_score r |}.

Section Retrieval.

Variable set_iter : list string -> list string.
Context {Embedding : Type}.
Variable services : SearchServices Embedding.

(** [HybridRetriever._dense_search]: every exception is caught and gives
    the empty list. *)
Definition _dense_search (self : t) (query : string)
    (filters : option Filter) : list DenseResult :=
  match
    (query_embedding <- embed services query ;;
     query_points services query_embedding
       (dense_top_k (retrieval (config self))) filters)
  with
  | Ok points => points
  | Raise _ => []
  end.

(** The body of the loop of [_fetch_candidates]: an id whose fetch raises,
    or finds no point, is skipped. *)
Definition fetch_candidate (entry : string * Q)
  : list RetrievedCandidate.t :=
  let '(doc_id, fusion_score) := entry in
  match retrieve_points services doc_id with
  | Ok (point_payload :: _) =>
      [RetrievedCandidate.set_fusion_score
         (RetrievedCandidate.from_qdrant_payload point_payload fusion_score)
         fusion_score]
  | Ok [] => []
  | Raise _ => []
  end.

(** [HybridRetriever._fetch_candidates] *)
Definition _fetch_candidates (fused_results : list (string * Q))
  : list RetrievedCandidate.t :=
  flat_map fetch_candidate fused_results.

(** [HybridRetriever.retrieve] *)
Definition retrieve (self : t) (requirements : UserRequirements)
  : result (list RetrievedCandidate.t) :=
  let query :=
    if nonempty (expanded_query requirements)
    then expanded_query requirements
    else raw_query requirements in
  let filters := _build_filters requirements in
  let dense_results := _dense_search self query filters in
  let sparse_results := _sparse_search set_iter self query in
  fused_results <-
    _reciprocal_rank_fusion self (map dense_hit dense_results)
      sparse_results default_k ;;
  Ok (_fetch_candidates fused_results).

(** [HybridRetriever.dense_only_retrieve] *)
Definition dense_only_retrieve (self : t) (query : string) (top_k : Z)
    (filters : option Filter) : list RetrievedCandidate.t :=
  let results := slice_to (_dense_search self query filters) top_k in
  map (fun r =>
         RetrievedCandidate.from_qdrant_payload
           (result_payload r) (result_score r))
      results.

End Retrieval.

End HybridRetriever.

(** ** pipeline.py: retrieval followed by reranking *)

Module RecommendationPipeline.

Section Stages.

Variable set_iter : list string -> list string.
Context {Embedding : Type}.
Variable services : HybridRetriever.SearchServices Embedding.

(** Stages 2 and 3 of [RecommendationPipeline.recommend]: the candidates
    retrieved are handed to the reranker; when nothing is retrieved the
    empty result is returned and the reranker is not called.  The outcome
    is the scored candidates and the calls made to the LLM client. *)
Definition retrieve_and_rerank (retriever : HybridRetriever.t)
    (reranker : LLMReranker RetrievedCandidate.t)
    (requirements : UserRequirements)
  : result (list (ScoredCandidate RetrievedCandidate.t)
            * list (Exchange RetrievedCandidate.t)) :=
  candidates <-
    HybridRetriever.retrieve set_iter services retriever requirements ;;
  if HybridRetriever.nonempty_list candidates
  then rerank reranker requirements candidates
  else Ok ([], []).

End Stages.

End RecommendationPipeline.

(** ** scorer.py *)

Module Scorer.

(** [ScoringConfig] of config.py. *)
Record ScoringConfig : Type := {
  llm_relevance_weight : Q;
  cost_efficiency_weight : Q;
  capacity_match_weight : Q;
  provider_diversity_weight : Q;
  budget_tolerance : Q
}.

Definition default_scoring : ScoringConfig :=
  {| llm_relevance_weight := 5 # 10;
     cost_efficiency_weight := 2 # 10;
     capacity_match_weight := 2 # 10;
     provider_diversity_weight := 1 # 10;
     budget_tolerance := 12 # 10 |}.

(** The scorer: the pipeline configuration and its [scoring] part. *)
Record t : Type := {
  config : PipelineConfig;
  scoring : ScoringConfig
}.

(** The fields of [UserRequirements] that the scorer reads. *)
Record Requirements : Type := {
  budget_monthly_usd : option Q;
  budget_hourly_usd : option Q;
  min_vcpu : option Q;
  min_memory_gb : option Q;
  database_engine : option string;
  requires_high_availability : bool;
  requires_auto_scaling : bool;
  requires_encryption : bool
}.

(** A [ScoredCandidate] with the fields that the scorer writes. *)
Record Scored : Type := {
  base : ScoredCandidate RetrievedCandidate.t;
  cost_efficiency_score : Q;
  capacity_match_score : Q;
  feature_match_score : Q;
  final_score : Q
}.

(** The truth value of an optional number: [None] and zero are false. *)
Definition is_true_number (x : option Q) : bool :=
  match x with
  | Some q => negb (Qeq_bool q 0)
  | None => false
  end.

(** The truth value of an optional string: [None] and [''] are false. *)
Definition is_true_string (x : option string) : bool :=
  match x with
  | Some (String _ _) => true
  | _ => false
  end.

(** [x or y] on optional numbers. *)
Definition number_or (x y : option Q) : option Q :=
  if is_true_number x then x else y.

(** [s or default] on an optional string. *)
Definition string_or (s : option string) (default : string) : string :=
  match s with
  | Some (String c rest) => String c rest
  | _ => default
  end.

(** [x / y] on floats. *)
Definition qdiv (x y : Q) : result Q :=
  if Qeq_bool y 0 then Raise ZeroDivisionError else Ok (x / y).

(** [max(x, y)] *)
Definition max2 (x y : Q) : Q := if Qltb x y then y else x.

(** The score for the budget fit, the last [if]/[elif]/[else] of
    [_compute_cost_score]. *)
Definition budget_fit (monthly_cost budget tolerance : Q) : result Q :=
  if Qle_bool monthly_cost budget then
    ratio <- qdiv monthly_cost budget ;;
    Ok ((7 # 10) + ratio * (3 # 10))
  else if Qle_bool monthly_cost (budget * tolerance) then
    overage <- qdiv (monthly_cost - budget) (budget * (tolerance - 1)) ;;
    Ok ((5 # 10) - overage * (2 # 10))
  else
    overage_ratio <- qdiv monthly_cost budget ;;
    Ok (max2 (1 # 10) ((3 # 10) - (overage_ratio - tolerance) * (1 # 10))).

(** The monthly estimate of a price per unit. *)
Definition monthly_estimate (price : Q) (unit : string) : Q :=
  if str_in "hour" (lower unit) then price * 730
  else if str_in "month" (lower unit) then price
  else if str_in "day" (lower unit) then price * 30
  else price * 730.

(** [MultiDimensionalScorer._compute_cost_score] *)
Definition _compute_cost_score (self : t) (requirements : Requirements)
    (candidate : RetrievedCandidate.t) : result Q :=
  match number_or (budget_monthly_usd requirements)
                  (budget_hourly_usd requirements) with
  | None => Ok (5 # 10)
  | Some budget =>
      if Qeq_bool budget 0 then Ok (5 # 10)
      else
        match RetrievedCandidate.price_per_unit candidate with
        | None => Ok (3 # 10)
        | Some price =>
            if Qeq_bool price 0 then Ok (3 # 10)
            else
              let unit :=
                string_or (RetrievedCandidate.price_unit candidate) "" in
              let monthly_cost := monthly_estimate price unit in
              let budget :=
                if is_true_number (budget_hourly_usd requirements)
                   && negb (is_true_number (budget_monthly_usd requirements))
                then
                  match budget_hourly_usd requirements with
                  | Some hourly => hourly * 730
                  | None => budget
                  end
                else budget in
              let tolerance := budget_tolerance (scoring self) in
              budget_fit monthly_cost budget tolerance
        end
  end.

(** One of the two blocks of [_compute_capacity_score]: the scores it
    appends for a required and an available amount. *)
Definition capacity_part (required available : option Q)
  : result (list Q) :=
  match required, available with
  | Some required, Some available =>
      if negb (Qeq_bool required 0) && negb (Qeq_bool available 0) then
        if Qle_bool required available then
          ratio <- qdiv required available ;;
          Ok [(7 # 10) + ratio * (3 # 10)]
        else
          ratio <- qdiv available required ;;
          Ok [ratio * (6 # 10)]
      else Ok []
  | _, _ => Ok []
  end.

(** [sum(scores)] *)
Definition sum_list (scores : list Q) : Q := fold_left Qplus scores 0.

(** [MultiDimensionalScorer._compute_capacity_score] *)
Definition _compute_capacity_score (requirements : Requirements)
    (candidate : RetrievedCandidate.t) : result Q :=
  vcpu_scores <-
    capacity_part (min_vcpu requirements)
                  (RetrievedCandidate.vcpu candidate) ;;
  memory_scores <-
    capacity_part (min_memory_gb requirements)
                  (RetrievedCandidate.memory_gb candidate) ;;
  let scores := (vcpu_scores ++ memory_scores)%list in
  match scores with
  | [] => Ok (5 # 10)
  | _ => qdiv (sum_list scores) (inject_Z (len scores))
  end.

(** One requirement of [_compute_feature_match_score]: the counters
    [(matches, requirements_count)] after it. *)
Definition count_requirement (required matched : bool) (counters : Z * Z)
  : Z * Z :=
  let '(matches, requirements_count) := counters in
  if required
  then ((if matched then matches + 1 else matches)%Z,
        (requirements_count + 1)%Z)
  else counters.

(** [MultiDimensionalScorer._compute_feature_match_score] *)
Definition _compute_feature_match_score (requirements : Requirements)
    (candidate : RetrievedCandidate.t) : result Q :=
  let counters := (0%Z, 0%Z) in
  let counters :=
    count_requirement
      (is_true_string (database_engine requirements))
      (is_true_string (RetrievedCandidate.database_engine candidate)
       && str_in (lower (string_or (database_engine requirements) ""))
                 (lower (string_or
                           (RetrievedCandidate.database_engine candidate)
                           "")))
      counters in
  let counters :=
    count_requirement (requires_high_availability requirements)
      (RetrievedCandidate.supports_multi_az candidate) counters in
  let counters :=
    count_requirement (requires_auto_scaling requirements)
      (RetrievedCandidate.supports_auto_scaling candidate) counters in
  let counters :=
    count_requirement (requires_encryption requirements)
      (RetrievedCandidate.supports_encryption candidate) counters in
  let '(matches, requirements_count) := counters in
  if (0 <? requirements_count)%Z
  then qdiv (inject_Z matches) (inject_Z requirements_count)
  else Ok (5 # 10).




Definition provider_of (scored : Scored) : string :=
  RetrievedCandidate.provider (Reranker.candidate (base scored)).

(** The first pass of [_apply_diversity_boost]: the providers seen, the
    best candidate of each provider, and the remaining candidates. *)
Definition take_best (st : list string * list Scored * list Scored)
    (candidate : Scored) : list string * list Scored * list Scored :=
  let '(seen_providers, diverse_results, remaining) := st in
  if negb (set_mem (provider_of candidate) seen_providers)
  then (set_add seen_providers (provider_of candidate),
        (diverse_results ++ [candidate])%list, remaining)
  else (seen_providers, diverse_results,
        (remaining ++ [candidate])%list).

(** [candidate.final_score *= 1.05] *)
Definition boost (scored : Scored) : Scored :=
  {| base := base scored;
     cost_efficiency_score := cost_efficiency_score scored;
     capacity_match_score := capacity_match_score scored;
     feature_match_score := feature_match_score scored;
     final_score := final_score scored * (105 # 100) |}.

(** The second pass: the top result of each provider gets the boost. *)
Fixpoint boost_tops (provider_top : list string)
    (diverse_results : list Scored) : list Scored :=
  match diverse_results with
  | [] => []
  | candidate :: rest =>
      if negb (set_mem (provider_of candidate) provider_top)
      then boost candidate
           :: boost_tops (set_add provider_top (provider_of candidate)) rest
      else candidate :: boost_tops provider_top rest
  end.

(** [MultiDimensionalScorer._apply_diversity_boost] *)
Definition _apply_diversity_boost (scored_candidates : list Scored)
  : list Scored :=
  if (len scored_candidates <=? 2)%Z then scored_candidates
  else
    let '(_, diverse_results, remaining) :=
      fold_left take_best scored_candidates ([], [], []) in
    let diverse_results := (diverse_results ++ remaining)%list in
    let diverse_results := boost_tops [] diverse_results in
    sorted_reverse final_score Qltb diverse_results.

(** A candidate as it enters the scorer. *)
Definition unscored (s : ScoredCandidate RetrievedCandidate.t) : Scored :=
  {| base := s;
     cost_efficiency_score := 0;
     capacity_match_score := 0;
     feature_match_score := 0;
     final_score := 0 |}.



End Scorer.

(* ================================================================== *)
(** * Part II: vocabulary of the properties *)
(* ================================================================== *)

(** ** Sorting *)

(** In a descending sort [x] may stand before [y]: its key is not below the
    key of [y]. *)
Definition key_not_below {A K : Type} (key : A -> K) (ltb : K -> K -> bool)
    (x y : A) : Prop :=
  ltb (key x) (key y) = false.

(** ** The reranker *)

Module RerankSpec.

Section Defs.
Context {C : Type}.

(** One back-to-first pass written by recursion on the list: the pass over
    the tail comes first, then the comparison at index 1. *)
Fixpoint bubble (self : LLMReranker C) (query : string) (l : list C)
    (calls : list (Exchange C)) : list C * list (Exchange C) :=
  match l with
  | [] => ([], calls)
  | x :: t =>
      match bubble self query t calls with
      | ([], c) => ([x], c)
      | (y :: t', c) =>
          let '(winner, c') := _compare_pair self c query x y in
          if String.eqb winner "B"
          then (y :: x :: t', c')
          else (x :: y :: t', c')
      end
  end.

Fixpoint bubble_passes (self : LLMReranker C) (query : string) (p : nat)
    (l : list C) (calls : list (Exchange C))
  : list C * list (Exchange C) :=
  match p with
  | O => (l, calls)
  | S p' =>
      let '(l', c) := bubble self query l calls in
      bubble_passes self query p' l' c
  end.

(** The ground truth is a rank per candidate, smaller is more relevant. The
    true order of a list is its stable sort by that rank. *)
Fixpoint insert_by (true_rank : C -> nat) (x : C) (l : list C) : list C :=
  match l with
  | [] => [x]
  | y :: t =>
      if (true_rank x <=? true_rank y)%nat then x :: y :: t
      else y :: insert_by true_rank x t
  end.

Definition true_order (true_rank : C -> nat) (l : list C) : list C :=
  fold_right (insert_by true_rank) [] l.

(** [a] is at least as relevant as [b]. *)
Definition at_least_as_relevant (true_rank : C -> nat) (a b : C) : Prop :=
  (true_rank a <= true_rank b)%nat.

(** The oracle, as read by [_compare_pair], tells the truth: it prefers the
    second candidate exactly when that one is strictly more relevant. *)
Definition truthful (self : LLMReranker C) (query : string)
    (true_rank : C -> nat) : Prop :=
  forall calls a b,
    fst (_compare_pair self calls query a b) = "B"
    <-> (true_rank b < true_rank a)%nat.

(** Every call of a log is the oracle's: call number [i], counted from 0,
    carries the outcome that the oracle gives to request [i] for the query
    and the candidates asked. *)
Definition answered_by (self : LLMReranker C) (calls : list (Exchange C))
  : Prop :=
  forall i e,
    nth_error calls i = Some e ->
    outcome e = llm self i (asked_query e) (asked_a e) (asked_b e).

(** Every call of a log asks the query about two candidates of the list. *)
Definition asks_about (query : string) (l : list C)
    (calls : list (Exchange C)) : Prop :=
  forall e,
    In e calls ->
    asked_query e = query /\ In (asked_a e) l /\ In (asked_b e) l.

(** A pass and [p] passes under a truthful oracle, free of the log of
    calls. *)
Fixpoint truth_pass (true_rank : C -> nat) (l : list C) : list C :=
  match l with
  | [] => []
  | x :: t =>
      match truth_pass true_rank t with
      | [] => [x]
      | y :: t' =>
          if (true_rank y <? true_rank x)%nat then y :: x :: t'
          else x :: y :: t'
      end
  end.

Fixpoint truth_passes (true_rank : C -> nat) (p : nat) (l : list C) : list C :=
  match p with
  | O => l
  | S p' => truth_passes true_rank p' (truth_pass true_rank l)
  end.

(** The candidates that [rerank] keeps: all of them on the early return,
    the slice [candidates[:max_candidates]] otherwise. *)
Definition retained (self : LLMReranker C) (candidates : list C) : list C :=
  if (len candidates <=? 1)%Z then candidates
  else slice_to candidates (max_candidates (reranking (config self))).

End Defs.

(** A response that none of the four tests of [extract_choice] recognises:
    stripped and upper-cased, it mentions both letters or neither, and starts
    with neither. *)
Definition malformed (response : string) : bool :=
  let r := upper (strip response) in
  Bool.eqb (str_in "A" r) (str_in "B" r)
  && negb (startswith r "A") && negb (startswith r "B").

(** Sample oracles over candidates named by numbers. *)
Definition unreachable_oracle : Oracle nat :=
  fun _ _ _ _ => Raise (ConnectionError "unreachable").

(** The smaller number is the more relevant candidate. *)
Definition number_oracle : Oracle nat :=
  fun _ _ a b => Ok (if (b <? a)%nat then "B" else "A").

Definition sample_requirements : UserRequirements :=
  {| raw_query := "managed PostgreSQL database";
     expanded_query := "";
     service_categories := [];
     preferred_providers := [] |}.

End RerankSpec.

Import RerankSpec.

(** ** Rank fusion *)

Module FusionSpec.

Import HybridRetriever.

(** The 1-based rank of an id in a list of ids, counting from [start]. *)
Fixpoint rank_from (start : Z) (ids : list string) (doc_id : string)
  : option Z :=
  match ids with
  | [] => None
  | x :: t =>
      if String.eqb x doc_id then Some start
      else rank_from (start + 1) t doc_id
  end.

Definition rank_of (ids : list string) (doc_id : string) : option Z :=
  rank_from 1 ids doc_id.

(** What a list contributes to the fused score of an id: [1 / (k + rank)]
    when the id has a rank in it, nothing otherwise. *)
Definition contribution (k : Z) (rank : option Z) : Q :=
  match rank with
  | Some r => 1 / inject_Z (k + r)
  | None => 0
  end.

(** Descending by score. *)
Definition descending (l : list (string * Q)) : Prop :=
  StronglySorted (fun x y => snd y <= snd x) l.

Definition hit (doc_id : string) : Hit unit :=
  {| hit_id := doc_id; hit_score := tt |}.

(** A retriever whose store cannot be reached, for the configuration
    alone. *)
Definition offline_store : VectorStore :=
  {| scroll := fun _ => Raise (ConnectionError "connection refused") |}.

Definition default_retriever : HybridRetriever.t :=
  {| config := DEFAULT_CONFIG;
     qdrant := offline_store;
     bm25_index := BM25Index.init BM25Index.default_k1 BM25Index.default_b |}.

(** The same retriever under a configuration that keeps only two fused
    results. *)
Definition narrow_config : PipelineConfig :=
  {| retrieval :=
       {| dense_top_k := 30; sparse_top_k := 30; fusion_top_k := 2 |};
     reranking := default_reranking;
     top_k_results := 5 |}.

Definition narrow_retriever : HybridRetriever.t :=
  {| config := narrow_config;
     qdrant := offline_store;
     bm25_index := BM25Index.init BM25Index.default_k1 BM25Index.default_b |}.

(** In a list of ids, [a] is listed and [b] is listed later or not at
    all. *)
Definition ranks_above (ids : list string) (a b : string) : Prop :=
  exists ra,
    rank_of ids a = Some ra
    /\ (rank_of ids b = None
        \/ exists rb, rank_of ids b = Some rb /\ (ra < rb)%Z).

(** In a list of ids, [b] does not stand before [a]: [b] is not listed, or
    [a] is listed before it. *)
Definition not_below (ids : list string) (a b : string) : Prop :=
  rank_of ids b = None \/ ranks_above ids a b.

End FusionSpec.

Import FusionSpec.

(** ** The sparse index *)

Module IndexSpec.

(** Sets that iterate in insertion order: one possible hash order. *)
Definition insertion_order (members : list string) : list string := members.

(** Whatever the hash order, iterating a set visits each member once. *)
Definition is_set_order (set_iter : list string -> list string) : Prop :=
  forall members, Permutation (set_iter members) members.

(** The index after [add_document] was called for each [(doc_id, text)] in
    turn. *)
Definition add_all (set_iter : list string -> list string)
    (index : BM25Index.t) (docs : list (string * string)) : BM25Index.t :=
  fold_left
    (fun i d => fst (BM25Index.add_document set_iter i (fst d) (snd d)))
    docs index.

Definition build (set_iter : list string -> list string) (k1 b : R)
    (docs : list (string * string)) : BM25Index.t :=
  add_all set_iter (BM25Index.init k1 b) docs.

(** The ids of the documents that contain a token, in the order the
    documents were added. *)
Definition docs_with (token : string) (docs : list (string * string))
  : list string :=
  map fst
      (filter (fun d => set_mem token (BM25Index._tokenize (snd d))) docs).

(** The documents that [search] visits, in the order it visits them: for
    each query token in turn that the index knows, the token's posting set
    in its iteration order. *)
Definition visited (set_iter : list string -> list string)
    (index : BM25Index.t) (query_tokens : list string) : list string :=
  flat_map
    (fun token =>
       if dict_mem (BM25Index.inverted_index index) token
       then set_iter
              (dict_get_default (BM25Index.inverted_index index) token [])
       else [])
    query_tokens.

(** The order in which documents first receive a score: the key order of
    the [scores] dict. *)
Definition first_scored (set_iter : list string -> list string)
    (index : BM25Index.t) (query_tokens : list string) : list string :=
  set_of_list (visited set_iter index query_tokens).

Definition has_score (c : R) (entry : string * R) : bool :=
  if Req_dec_T (snd entry) c then true else false.

(** The IDF of a token with document frequency [df] among [n] documents. *)
Definition idf_value (n df : Z) : R :=
  ln ((IZR n - IZR df + 5 / 10) / (IZR df + 5 / 10) + 1)%R.

(** The BM25 contribution of a token of frequency [tf] in a document of
    length [doc_len]. *)
Definition term_value (k1 b avg idf : R) (tf doc_len : Z) : R :=
  (idf * (IZR tf * (k1 + 1))
   / (IZR tf + k1 * (1 - b + b * IZR doc_len / avg)))%R.

(** What a correctly built index over [docs] holds. *)
Record indexed (k1 b : R) (docs : list (string * string))
    (index : BM25Index.t) : Prop := {
  ix_k1 : BM25Index.k1 index = k1;
  ix_b : BM25Index.b index = b;
  ix_N : BM25Index.N index = len docs;
  ix_documents :
    BM25Index.documents index
    = map (fun d => (fst d, BM25Index._tokenize (snd d))) docs;
  ix_lengths :
    BM25Index.doc_lengths index
    = map (fun d => (fst d, len (BM25Index._tokenize (snd d)))) docs;
  ix_postings :
    forall token,
      dict_get (BM25Index.inverted_index index) token
      = match docs_with token docs with
        | [] => None
        | ids => Some ids
        end;
  ix_freqs :
    forall token,
      dict_get_default (BM25Index.doc_freqs index) token 0%Z
      = len (docs_with token docs);
  ix_avg :
    docs <> [] ->
    BM25Index.avg_doc_length index
    = (IZR (sum_values (BM25Index.doc_lengths index))
       / IZR (BM25Index.N index))%R
}.

(** The score a visit adds to a document, read off the index. *)
Definition doc_value (index : BM25Index.t) (token : string) (idf : R)
    (doc_id : string) : R :=
  match dict_get (BM25Index.documents index) doc_id,
        dict_get (BM25Index.doc_lengths index) doc_id with
  | Some doc_tokens, Some doc_len =>
      term_value (BM25Index.k1 index) (BM25Index.b index)
        (BM25Index.avg_doc_length index) idf
        (count doc_tokens token) doc_len
  | _, _ => 0%R
  end.

Definition bump (index : BM25Index.t) (token : string) (idf : R)
    (scores : list (string * R)) (doc_id : string) : list (string * R) :=
  dict_set scores doc_id
    (dict_get_default scores doc_id 0 + doc_value index token idf doc_id)%R.

Definition token_idf (index : BM25Index.t) (token : string) : R :=
  idf_value (BM25Index.N index)
    (dict_get_default (BM25Index.doc_freqs index) token 0%Z).

(** The scores [search] accumulates when nothing raises. *)
Definition accumulate (set_iter : list string -> list string)
    (index : BM25Index.t) (query_tokens : list string)
    (scores : list (string * R)) : list (string * R) :=
  fold_left
    (fun sc token =>
       if dict_mem (BM25Index.inverted_index index) token
       then fold_left (bump index token (token_idf index token))
              (set_iter
                 (dict_get_default (BM25Index.inverted_index index) token []))
              sc
       else sc)
    query_tokens scores.

(** The score a document accumulates over a query: one visit per query
    token whose posting set holds the document. *)
Fixpoint query_score (index : BM25Index.t) (query_tokens : list string)
    (doc_id : string) : R :=
  match query_tokens with
  | [] => 0%R
  | token :: rest =>
      ((if dict_mem (BM25Index.inverted_index index) token
           && set_mem doc_id
                (dict_get_default (BM25Index.inverted_index index) token [])
        then doc_value index token (token_idf index token) doc_id
        else 0)
       + query_score index rest doc_id)%R
  end.

End IndexSpec.

Import IndexSpec.

(** ** Building the index from the store *)

Module RetrieverSpec.

Import HybridRetriever.

(** The store serves the given non-empty pages, each with a next offset,
    and then fails with [e]. *)
Fixpoint scroll_fails_after (store : VectorStore) (offset : option string)
    (pages : list (list Point * string)) (e : exn) : Prop :=
  match pages with
  | [] => scroll store offset = Raise e
  | (results, next) :: rest =>
      results <> []
      /\ scroll store offset = Ok (results, Some next)
      /\ scroll_fails_after store (Some next) rest e
  end.

(** The documents that the points of some pages are indexed as. *)
Definition points_docs (results : list Point) : list (string * string) :=
  map (fun point => (point_id point, _create_search_text (payload point)))
      results.

Definition pages_docs (pages : list (list Point * string))
  : list (string * string) :=
  points_docs (concat (map fst pages)).

(** The store serves the given non-empty pages, each with a next offset,
    and then ends the scroll with the page [last]: an empty page, or a page
    without a next offset. *)
Fixpoint scroll_serves (store : VectorStore) (offset : option string)
    (pages : list (list Point * string)) (last : list Point) : Prop :=
  match pages with
  | [] =>
      exists next,
        scroll store offset = Ok (last, next) /\ (last = [] \/ next = None)
  | (results, next) :: rest =>
      results <> []
      /\ scroll store offset = Ok (results, Some next)
      /\ scroll_serves store (Some next) rest last
  end.

Definition sample_point : Point :=
  {| point_id := "rds";
     payload :=
       {| service_name := "Amazon RDS";
          description := "Managed relational database";
          short_description := "";
          provider := "aws";
          category := "database";
          service_type := "rds";
          features := ["Automated backups"];
          use_cases := [];
          tags := [];
          specs_database_engine := Some "PostgreSQL" |} |}.

(** A store that holds one point: it serves the point in a first page with
    a next offset, and then an empty page. *)
Definition one_point_store : VectorStore :=
  {| scroll := fun offset =>
                 match offset with
                 | None => Ok ([sample_point], Some "1")
                 | Some _ => Ok ([], None)
                 end |}.

End RetrieverSpec.

Import RetrieverSpec.

(** ** Retrieval *)

Module RetrievalSpec.

Import HybridRetriever.

(** The query that [retrieve] searches for: the expanded query when there
    is one, the raw query otherwise. *)
Definition search_query (requirements : UserRequirements) : string :=
  if nonempty (expanded_query requirements)
  then expanded_query requirements
  else raw_query requirements.

(** The payloads that the store yields for a list of ids: the first point
    found for each id, nothing for an id whose fetch raises or finds no
    point. *)
Definition fetched_payloads {Embedding : Type}
    (services : SearchServices Embedding) (ids : list string)
  : list RetrievedCandidate.Payload :=
  flat_map
    (fun doc_id =>
       match retrieve_points services doc_id with
       | Ok (point_payload :: _) => [point_payload]
       | _ => []
       end)
    ids.

(** A payload that holds a service id and nothing else. *)
Definition bare_payload (service_id : string) : RetrievedCandidate.Payload :=
  {| RetrievedCandidate.key_service_id := service_id;
     RetrievedCandidate.key_provider := "";
     RetrievedCandidate.key_service_name := "";
     RetrievedCandidate.key_service_type := "";
     RetrievedCandidate.key_category := "";
     RetrievedCandidate.key_description := "";
     RetrievedCandidate.key_short_description := "";
     RetrievedCandidate.key_specs_vcpu := None;
     RetrievedCandidate.key_specs_memory_gb := None;
     RetrievedCandidate.key_specs_storage_type := None;
     RetrievedCandidate.key_specs_database_engine := None;
     RetrievedCandidate.key_pricing := [];
     RetrievedCandidate.key_features := [];
     RetrievedCandidate.key_use_cases := [];
     RetrievedCandidate.key_supports_auto_scaling := false;
     RetrievedCandidate.key_supports_multi_az := false;
     RetrievedCandidate.key_supports_encryption := false;
     RetrievedCandidate.key_region := "";
     RetrievedCandidate.key_available_regions := [] |}.

(** Services that answer: the vector search returns the twenty-six points
    ["1"] to ["26"], best first, and every fetch finds its point. *)
Definition answering_services : SearchServices unit :=
  {| embed := fun _ => Ok tt;
     query_points :=
       fun _ _ _ =>
         Ok (map (fun n =>
                    {| result_id := str_of_nat n;
                       result_score := (100 - Z.of_nat n) # 100;
                       result_payload := bare_payload (str_of_nat n) |})
                 (seq 1 26));
     retrieve_points := fun doc_id => Ok [bare_payload doc_id] |}.

(** An oracle that always answers ["B"]. *)
Definition second_oracle : Oracle RetrievedCandidate.t :=
  fun _ _ _ _ => Ok "B".

End RetrievalSpec.

Import RetrievalSpec.

(** ** Reading the index *)

(** The posting set and the document frequency that the index holds for a
    token, the empty set and 0 for a token it does not know. *)
Definition postings (index : BM25Index.t) (token : string) : list string :=
  dict_get_default (BM25Index.inverted_index index) token [].

Definition doc_freq (index : BM25Index.t) (token : string) : Z :=
  dict_get_default (BM25Index.doc_freqs index) token 0%Z.

(** The score that a search over the whole index gives a document: its
    score among the results for [top_k = N], 0 when it is not returned. *)
Definition search_score (set_iter : list string -> list string)
    (index : BM25Index.t) (query doc_id : string) : R :=
  match BM25Index.search set_iter index query (BM25Index.N index) with
  | Ok results => dict_get_default results doc_id 0%R
  | Raise _ => 0%R
  end.

(** A small corpus. *)
Definition sample_docs : list (string * string) :=
  [("rds", "Amazon RDS managed PostgreSQL database");
   ("s3", "Amazon S3 object storage");
   ("sql", "Cloud SQL managed database")].

Definition sample_index : BM25Index.t :=
  build insertion_order BM25Index.default_k1 BM25Index.default_b sample_docs.

(** ** The scorer *)

Module ScorerSpec.

Import Scorer.

(** The monthly budget that [_compute_cost_score] compares the monthly
    estimate with: the monthly budget when there is one, 730 times the
    hourly budget otherwise. *)
Definition effective_budget (requirements : Requirements) : option Q :=
  if is_true_number (budget_monthly_usd requirements)
  then budget_monthly_usd requirements
  else if is_true_number (budget_hourly_usd requirements)
       then option_map (fun hourly => hourly * 730)
                       (budget_hourly_usd requirements)
       else None.

(** The candidates in their given order, the first candidate of each
    provider with its final score raised by 5 percent. *)
Fixpoint boost_firsts (seen : list string) (l : list Scored) : list Scored :=
  match l with
  | [] => []
  | c :: rest =>
      if set_mem (provider_of c) seen then c :: boost_firsts seen rest
      else boost c :: boost_firsts (set_add seen (provider_of c)) rest
  end.

(** The first candidate of each provider, and the other candidates. *)
Fixpoint firsts (seen : list string) (l : list Scored) : list Scored :=
  match l with
  | [] => []
  | c :: rest =>
      if set_mem (provider_of c) seen then firsts seen rest
      else c :: firsts (set_add seen (provider_of c)) rest
  end.

Fixpoint others (seen : list string) (l : list Scored) : list Scored :=
  match l with
  | [] => []
  | c :: rest =>
      if set_mem (provider_of c) seen then c :: others seen rest
      else others (set_add seen (provider_of c)) rest
  end.



(** The four weights are not negative and add up to 1. *)
Definition weights_normalized (weights : ScoringConfig) : Prop :=
  0 <= llm_relevance_weight weights
  /\ 0 <= cost_efficiency_weight weights
  /\ 0 <= capacity_match_weight weights
  /\ 0 <= provider_diversity_weight weights
  /\ llm_relevance_weight weights + cost_efficiency_weight weights
     + capacity_match_weight weights + provider_diversity_weight weights
     == 1.


End ScorerSpec.

(** ** Tokens *)

(** A character of a token: a lowercase letter, a digit or the
    underscore. *)
Definition is_token_char (c : ascii) : bool :=
  is_lower c || is_digit c || Ascii.eqb c "_"%char.

(* ================================================================== *)
(** * Part III: properties *)
(* ================================================================== *)

(** Evaluation of an index on concrete documents, the real arithmetic left
    untouched. *)
Ltac eval_index :=
  cbv -[Rplus Rmult Rminus Rdiv Rinv IZR ln Req_dec_T Rlt_dec
        fdiv flog Rltb].

(** A fact about every character, by cases on its eight bits. *)
Ltac each_char c :=
  destruct c as [[] [] [] [] [] [] [] []]; vm_compute; reflexivity.

Example extract_choice_a : extract_choice " a
" = "A".
Proof. reflexivity. Qed.

Example extract_choice_b : extract_choice "Service B" = "B".
Proof. reflexivity. Qed.

Example extract_choice_maybe : extract_choice "maybe" = "A".
Proof. reflexivity. Qed.

Example malformed_empty : malformed "" = true.
Proof. reflexivity. Qed.

(** ** Python built-ins *)

Lemma bind_ok_pair (A B : Type) (m : result (A * B)) :
  bind m (fun x => match x with (a, b) => Ok (a, b) end) = m.
Proof. destruct m as [[a b]|e]; reflexivity. Qed.

Lemma slice_to_prefix (A : Type) (l : list A) (stop : Z) :
  exists n, slice_to l stop = firstn n l.
Proof.
  unfold slice_to. destruct (0 <=? stop)%Z; eauto.
Qed.

Lemma slice_to_nonneg (A : Type) (l : list A) (stop : Z) :
  (0 <= stop)%Z ->
  slice_to l stop = firstn (Nat.min (length l) (Z.to_nat stop)) l.
Proof.
  intros H. unfold slice_to.
  destruct (Z.leb_spec 0 stop) as [_|Hn]; [|lia].
  destruct (Nat.le_ge_cases (length l) (Z.to_nat stop)) as [Hle|Hge].
  - rewrite Nat.min_l by assumption.
    rewrite !firstn_all2; auto.
  - rewrite Nat.min_r by assumption. reflexivity.
Qed.

Lemma slice_to_length_le (A : Type) (l : list A) (stop : Z) :
  (length (slice_to l stop) <= length l)%nat.
Proof.
  destruct (slice_to_prefix l stop) as [n ->].
  rewrite length_firstn. lia.
Qed.

Lemma map_slice_to (A B : Type) (f : A -> B) (l : list A) (stop : Z) :
  map f (slice_to l stop) = slice_to (map f l) stop.
Proof.
  unfold slice_to. rewrite length_map.
  destruct (0 <=? stop)%Z; symmetry; apply firstn_map.
Qed.

(** What the slice [l[:stop]] keeps: the first [stop] items, so never more
    than [stop], for a non-negative [stop]; all but the last [-stop] items
    for a negative one. *)
Lemma slice_to_cut (A : Type) (l : list A) (stop : Z) :
  ((0 <= stop)%Z ->
   slice_to l stop = firstn (Z.to_nat stop) l
   /\ (len (slice_to l stop) <= stop)%Z
   /\ length (slice_to l stop) = Nat.min (Z.to_nat stop) (length l))
  /\ ((stop < 0)%Z ->
      slice_to l stop = firstn (length l - Z.to_nat (- stop)) l).
Proof.
  unfold slice_to, len. split; intros H.
  - destruct (Z.leb_spec 0 stop) as [_|Hn]; [|lia].
    rewrite length_firstn. repeat split; lia.
  - destruct (Z.leb_spec 0 stop) as [Hn|_]; [lia|reflexivity].
Qed.

Lemma slice_to_nth (A : Type) (l : list A) (stop : Z) (i : nat) (x : A) :
  nth_error (slice_to l stop) i = Some x -> nth_error l i = Some x.
Proof.
  destruct (slice_to_prefix l stop) as [n ->]. intros H.
  destruct (Nat.lt_ge_cases i n) as [Hlt|Hge].
  - now rewrite nth_error_firstn, (proj2 (Nat.ltb_lt i n) Hlt) in H.
  - assert (nth_error (firstn n l) i = None) as E.
    { apply nth_error_None. rewrite length_firstn. lia. }
    rewrite E in H. discriminate H.
Qed.

(** An entry of the slice that stands after an entry of the list has that
    entry before it in the slice. *)
Lemma slice_to_keeps_earlier (A : Type) (l : list A) (stop : Z) (i j : nat)
    (x y : A) :
  nth_error l i = Some x -> nth_error (slice_to l stop) j = Some y ->
  (i < j)%nat -> nth_error (slice_to l stop) i = Some x.
Proof.
  destruct (slice_to_prefix l stop) as [n ->]. intros Hi Hj Hlt.
  rewrite nth_error_firstn in Hj. rewrite nth_error_firstn.
  destruct (Nat.ltb_spec j n) as [Hjn|Hjn]; [|discriminate Hj].
  now rewrite (proj2 (Nat.ltb_lt i n)) by lia.
Qed.

Lemma map_snd_enumerate (A : Type) (l : list A) (start : Z) :
  map snd (enumerate start l) = l.
Proof.
  revert start. induction l as [|x t IH]; intros start; simpl.
  - reflexivity.
  - now rewrite IH.
Qed.

Lemma getitem_cons (A : Type) (x : A) (t : list A) (j : nat) :
  getitem (x :: t) (S j) = getitem t j.
Proof. reflexivity. Qed.

Lemma setitem_cons (A : Type) (x : A) (t : list A) (j : nat) (v : A) :
  setitem (x :: t) (S j) v = bind (setitem t j v) (fun r => Ok (x :: r)).
Proof.
  unfold setitem. cbn [length update].
  change (S j <? S (length t))%nat with (j <? length t)%nat.
  destruct (j <? length t)%nat; reflexivity.
Qed.

(** ** The reranker *)

Section RerankFacts.

Context {C : Type}.
Variable self : LLMReranker C.
Variable query : string.

(** *** Every comparison makes one call *)

Lemma compare_pair_calls (calls : list (Exchange C)) (a b : C) :
  snd (_compare_pair self calls query a b)
  = (calls
     ++ [{| asked_query := query; asked_a := a; asked_b := b;
            outcome := llm self (length calls) query a b |}])%list.
Proof.
  unfold _compare_pair, llm_generate.
  destruct (llm self (length calls) query a b); reflexivity.
Qed.

Lemma compare_pair_verdict (calls : list (Exchange C)) (a b : C) :
  fst (_compare_pair self calls query a b)
  = match llm self (length calls) query a b with
    | Ok response => extract_choice response
    | Raise _ => "A"
    end.
Proof.
  unfold _compare_pair, llm_generate.
  destruct (llm self (length calls) query a b); reflexivity.
Qed.

(** *** The index loop is the recursive pass *)

Lemma compare_and_swap_cons (j : nat) (x : C) (t : list C)
    (calls : list (Exchange C)) :
  compare_and_swap self query (S j) (x :: t) calls =
  bind (compare_and_swap self query j t calls)
       (fun r => match r with (t', c) => Ok (x :: t', c) end).
Proof.
  unfold compare_and_swap. rewrite !getitem_cons.
  destruct (getitem t j) as [a|]; [|reflexivity]. cbn [bind].
  destruct (getitem t (S j)) as [b|]; [|reflexivity]. cbn [bind].
  destruct (_compare_pair self calls query a b) as [winner calls'].
  destruct (String.eqb winner "B"); [|reflexivity].
  rewrite setitem_cons.
  destruct (setitem t j b) as [r1|]; [|reflexivity]. cbn [bind].
  rewrite setitem_cons.
  destruct (setitem r1 (S j) a) as [r2|]; reflexivity.
Qed.

Lemma inner_loop_cons (i : nat) (x : C) (t : list C)
    (calls : list (Exchange C)) :
  inner_loop self query (S i) (x :: t) calls =
  bind (inner_loop self query i t calls)
       (fun r => match r with
                 | (t', c) => compare_and_swap self query 0 (x :: t') c
                 end).
Proof.
  revert t calls. induction i as [|i IH]; intros t calls.
  - simpl. apply bind_ok_pair.
  - change (inner_loop self query (S (S i)) (x :: t) calls)
      with (bind (compare_and_swap self query (S i) (x :: t) calls)
                 (fun r => match r with
                           | (r', c) => inner_loop self query (S i) r' c
                           end)).
    rewrite compare_and_swap_cons.
    change (inner_loop self query (S i) t calls)
      with (bind (compare_and_swap self query i t calls)
                 (fun r => match r with
                           | (r', c) => inner_loop self query i r' c
                           end)).
    destruct (compare_and_swap self query i t calls) as [[t' c]|e];
      [|reflexivity].
    simpl bind. apply IH.
Qed.

Lemma bubble_length (l : list C) (calls : list (Exchange C)) :
  length (fst (bubble self query l calls)) = length l.
Proof.
  induction l as [|x t IH]; simpl; [reflexivity|].
  destruct (bubble self query t calls) as [[|y t'] c]; simpl in *.
  - now rewrite <- IH.
  - destruct (_compare_pair self c query x y) as [winner c'].
    destruct (String.eqb winner "B"); simpl; now rewrite <- IH.
Qed.

Lemma inner_loop_bubble (l : list C) (calls : list (Exchange C)) :
  inner_loop self query (length l - 1) l calls =
  Ok (bubble self query l calls).
Proof.
  induction l as [|x t IH]; [reflexivity|].
  destruct t as [|y t]; [reflexivity|].
  replace (length (x :: y :: t) - 1)%nat with (S (length t))
    by (simpl; lia).
  replace (length (y :: t) - 1)%nat with (length t) in IH by (simpl; lia).
  rewrite inner_loop_cons, IH. cbn [bind].
  pose proof (bubble_length (y :: t) calls) as Hlen.
  change (bubble self query (x :: y :: t) calls)
    with (match bubble self query (y :: t) calls with
          | ([], c) => ([x], c)
          | (z :: t', c) =>
              let '(winner, c') := _compare_pair self c query x z in
              if String.eqb winner "B"
              then (z :: x :: t', c') else (x :: z :: t', c')
          end).
  destruct (bubble self query (y :: t) calls) as [[|z t'] c];
    [discriminate Hlen|].
  unfold compare_and_swap, getitem, setitem. simpl.
  destruct (_compare_pair self c query x z) as [winner c'].
  destruct (String.eqb winner "B"); reflexivity.
Qed.

Lemma pass_loop_bubble (p : nat) (l : list C)
    (calls : list (Exchange C)) :
  pass_loop self query p l calls = Ok (bubble_passes self query p l calls).
Proof.
  revert l calls. induction p as [|p IH]; intros l calls; [reflexivity|].
  simpl. rewrite inner_loop_bubble. simpl.
  destruct (bubble self query l calls) as [l' c]. apply IH.
Qed.

(** *** What a pass keeps and what it costs *)

Lemma bubble_perm (l : list C) (calls : list (Exchange C)) :
  Permutation (fst (bubble self query l calls)) l.
Proof.
  induction l as [|x t IH]; simpl; [constructor|].
  destruct (bubble self query t calls) as [[|y t'] c]; simpl in *.
  - now constructor.
  - destruct (_compare_pair self c query x y) as [winner c'].
    destruct (String.eqb winner "B"); simpl.
    + rewrite perm_swap. now constructor.
    + now constructor.
Qed.

(** A pass makes one call per comparison, each answered by the oracle and
    each about two candidates of the list. *)
Lemma bubble_calls (l : list C) (calls : list (Exchange C)) :
  exists new,
    snd (bubble self query l calls) = (calls ++ new)%list
    /\ length new = (length l - 1)%nat
    /\ (answered_by self calls -> answered_by self (calls ++ new))
    /\ asks_about query l new.
Proof.
  induction l as [|x t IH]; cbn [bubble].
  - exists []. rewrite app_nil_r.
    split; [reflexivity|]. split; [reflexivity|]. split; [auto|].
    intros e [].
  - pose proof (bubble_length t calls) as Hlen.
    pose proof (bubble_perm t calls) as Hperm.
    destruct IH as (new & Hnew & Hcount & Hans & Hask).
    destruct (bubble self query t calls) as [[|y t'] c];
      cbn [fst snd] in Hnew, Hlen, Hperm; subst c.
    + exists new. destruct t; [|discriminate Hlen]. cbn [snd length] in *.
      split; [reflexivity|]. split; [exact Hcount|]. split; [exact Hans|].
      intros e He. destruct (Hask e He) as (Hq & _ & []).
    + pose proof (compare_pair_calls (calls ++ new) x y) as Hs.
      destruct (_compare_pair self (calls ++ new) query x y)
        as [winner c'].
      cbn [snd] in Hs. subst c'.
      set (e := {| asked_query := query; asked_a := x; asked_b := y;
                   outcome := llm self (length (calls ++ new)) query x y |}).
      exists (new ++ [e])%list.
      split; [destruct (String.eqb winner "B"); cbn [snd];
              now rewrite app_assoc|].
      split; [rewrite length_app, Hcount; cbn [length] in *; lia|].
      split.
      * intros Hc i e' Hi. rewrite app_assoc in Hi.
        destruct (Nat.lt_ge_cases i (length (calls ++ new))) as [Hlt|Hge].
        -- rewrite nth_error_app1 in Hi by exact Hlt.
           exact (Hans Hc i e' Hi).
        -- rewrite nth_error_app2 in Hi by exact Hge.
           destruct (i - length (calls ++ new))%nat as [|k] eqn:Ek.
           ++ cbn in Hi. injection Hi as <-. cbn.
              replace i with (length (calls ++ new)) by lia. reflexivity.
           ++ destruct k; discriminate Hi.
      * intros e' He. apply in_app_or in He. destruct He as [He|[<-|[]]].
        -- destruct (Hask e' He) as (Hq & Ha & Hb).
           repeat split; [exact Hq|now right|now right].
        -- cbn. repeat split; [now left|].
           right. apply (Permutation_in _ Hperm). now left.
Qed.

Lemma bubble_passes_perm (p : nat) (l : list C)
    (calls : list (Exchange C)) :
  Permutation (fst (bubble_passes self query p l calls)) l.
Proof.
  revert l calls. induction p as [|p IH]; intros l calls; simpl.
  - reflexivity.
  - pose proof (bubble_perm l calls) as Hp.
    destruct (bubble self query l calls) as [l' c]. simpl in Hp.
    now rewrite IH.
Qed.

Lemma bubble_passes_calls (p : nat) (l : list C)
    (calls : list (Exchange C)) :
  exists new,
    snd (bubble_passes self query p l calls) = (calls ++ new)%list
    /\ length new = (p * (length l - 1))%nat
    /\ (answered_by self calls -> answered_by self (calls ++ new))
    /\ asks_about query l new.
Proof.
  revert l calls. induction p as [|p IH]; intros l calls; cbn [bubble_passes].
  - exists []. rewrite app_nil_r.
    split; [reflexivity|]. split; [reflexivity|]. split; [auto|].
    intros e [].
  - destruct (bubble_calls l calls) as (new1 & Hnew1 & Hc1 & Hans1 & Hask1).
    pose proof (bubble_length l calls) as Hl.
    pose proof (bubble_perm l calls) as Hperm.
    destruct (bubble self query l calls) as [l' c].
    cbn [fst snd] in Hnew1, Hl, Hperm. subst c.
    destruct (IH l' (calls ++ new1)%list)
      as (new2 & Hnew2 & Hc2 & Hans2 & Hask2).
    exists (new1 ++ new2)%list. rewrite app_assoc.
    split; [exact Hnew2|].
    split; [rewrite length_app, Hc1, Hc2, Hl; cbn; lia|].
    split; [auto|].
    intros e He. apply in_app_or in He. destruct He as [He|He].
    + exact (Hask1 e He).
    + destruct (Hask2 e He) as (Hq & Ha & Hb).
      repeat split; [exact Hq| |]; apply (Permutation_in _ Hperm);
        assumption.
Qed.

End RerankFacts.

(** *** The whole of [rerank] *)

Section RerankWhole.

Context {C : Type}.
Variable self : LLMReranker C.

Lemma candidate_of_scored (f : Z -> Q) (g : Z -> string) (l : list C) :
  map (@candidate C)
      (map (fun ic => {| candidate := snd ic;
                         llm_relevance_score := f (fst ic);
                         llm_explanation := g (fst ic) |})
           (enumerate 0 l)) = l.
Proof.
  rewrite map_map. cbn [candidate]. apply map_snd_enumerate.
Qed.

Lemma rerank_early (requirements : UserRequirements) (candidates : list C) :
  (length candidates <= 1)%nat ->
  exists out,
    rerank self requirements candidates = Ok (out, [])
    /\ map (@candidate C) out = candidates.
Proof.
  intros Hn. unfold rerank, len.
  destruct (Z.leb_spec (Z.of_nat (length candidates)) 1) as [_|Hlt]; [|lia].
  eexists. split; [reflexivity|].
  apply (candidate_of_scored (fun i => 10 - inject_Z i) (fun _ => "")).
Qed.

Lemma rerank_main (requirements : UserRequirements) (candidates : list C) :
  (2 <= length candidates)%nat ->
  exists out ranked calls,
    bubble_passes self (raw_query requirements)
      (range_count (num_passes self))
      (slice_to candidates (max_candidates (reranking (config self)))) []
    = (ranked, calls)
    /\ rerank self requirements candidates = Ok (out, calls)
    /\ map (@candidate C) out = ranked.
Proof.
  intros Hn. unfold rerank, len.
  destruct (Z.leb_spec (Z.of_nat (length candidates)) 1) as [Hle|_]; [lia|].
  cbv zeta. rewrite pass_loop_bubble. cbn [bind].
  destruct (bubble_passes _ _ _ _ _) as [ranked calls].
  eexists _, ranked, calls. split; [reflexivity|]. split; [reflexivity|].
  apply candidate_of_scored.
Qed.

End RerankWhole.

(** *** The ground-truth order *)

Section TrueOrder.

Context {C : Type}.
Variable true_rank : C -> nat.

Lemma insert_by_perm (x : C) (l : list C) :
  Permutation (insert_by true_rank x l) (x :: l).
Proof.
  induction l as [|y t IH]; simpl; [reflexivity|].
  destruct (true_rank x <=? true_rank y)%nat; [reflexivity|].
  rewrite IH. apply perm_swap.
Qed.

Lemma true_order_perm (l : list C) : Permutation (true_order true_rank l) l.
Proof.
  induction l as [|x t IH]; simpl; [constructor|].
  rewrite insert_by_perm. now constructor.
Qed.

Lemma insert_by_sorted (x : C) (l : list C) :
  StronglySorted (at_least_as_relevant true_rank) l ->
  StronglySorted (at_least_as_relevant true_rank) (insert_by true_rank x l).
Proof.
  induction 1 as [|y t Hs IH Hall]; simpl.
  - repeat constructor.
  - destruct (Nat.leb_spec (true_rank x) (true_rank y)) as [Hle|Hlt].
    + constructor; [now constructor|].
      constructor; [exact Hle|].
      eapply Forall_impl; [|exact Hall].
      unfold at_least_as_relevant. intros z Hz. lia.
    + constructor; [exact IH|].
      rewrite insert_by_perm.
      constructor; [unfold at_least_as_relevant; lia|exact Hall].
Qed.

Lemma true_order_sorted (l : list C) :
  StronglySorted (at_least_as_relevant true_rank) (true_order true_rank l).
Proof.
  induction l as [|x t IH]; simpl; [constructor|].
  now apply insert_by_sorted.
Qed.

Lemma insert_by_comm (x y : C) (s : list C) :
  true_rank x <> true_rank y ->
  insert_by true_rank x (insert_by true_rank y s)
  = insert_by true_rank y (insert_by true_rank x s).
Proof.
  intros Hne. induction s as [|z s IH]; cbn [insert_by];
    repeat match goal with
           | |- context [(?a <=? ?b)%nat] =>
               destruct (Nat.leb_spec a b); cbn [insert_by]
           end;
    try lia; try reflexivity.
  now rewrite IH.
Qed.

Lemma insert_by_min (m : C) (s : list C) :
  Forall (at_least_as_relevant true_rank m) s ->
  insert_by true_rank m s = m :: s.
Proof.
  destruct 1 as [|y t Hy _]; simpl; [reflexivity|].
  unfold at_least_as_relevant in Hy.
  destruct (Nat.leb_spec (true_rank m) (true_rank y)); [reflexivity|lia].
Qed.

Lemma true_order_min (m : C) (r : list C) :
  Forall (at_least_as_relevant true_rank m) r ->
  true_order true_rank (m :: r) = m :: true_order true_rank r.
Proof.
  intros Hall. simpl. apply insert_by_min.
  eapply Permutation_Forall; [|exact Hall].
  symmetry. apply true_order_perm.
Qed.

(** *** A truthful pass brings the best candidate to the front *)

Lemma truth_pass_perm (l : list C) : Permutation (truth_pass true_rank l) l.
Proof.
  induction l as [|x t IH]; simpl; [constructor|].
  destruct (truth_pass true_rank t) as [|y t'].
  - now constructor.
  - destruct (true_rank y <? true_rank x)%nat.
    + rewrite perm_swap. now constructor.
    + now constructor.
Qed.

Lemma truth_pass_order (l : list C) :
  true_order true_rank (truth_pass true_rank l) = true_order true_rank l.
Proof.
  induction l as [|x t IH]; [reflexivity|].
  cbn [truth_pass].
  destruct (truth_pass true_rank t) as [|y t'].
  - simpl in *. now rewrite <- IH.
  - destruct (Nat.ltb_spec (true_rank y) (true_rank x)) as [Hlt|Hge].
    + change (true_order true_rank (y :: x :: t'))
        with (insert_by true_rank y
                (insert_by true_rank x (true_order true_rank t'))).
      rewrite insert_by_comm by lia.
      change (true_order true_rank (x :: t))
        with (insert_by true_rank x (true_order true_rank t)).
      now rewrite <- IH.
    + change (true_order true_rank (x :: y :: t'))
        with (insert_by true_rank x (true_order true_rank (y :: t'))).
      now rewrite IH.
Qed.

Lemma truth_pass_head (l : list C) (m : C) (r : list C) :
  truth_pass true_rank l = m :: r ->
  Forall (at_least_as_relevant true_rank m) r.
Proof.
  revert m r. induction l as [|x t IH]; intros m r; [discriminate|].
  cbn [truth_pass].
  destruct (truth_pass true_rank t) as [|y t'].
  - intros [= <- <-]. constructor.
  - specialize (IH y t' eq_refl).
    destruct (Nat.ltb_spec (true_rank y) (true_rank x)) as [Hlt|Hge];
      intros [= <- <-].
    + constructor; [unfold at_least_as_relevant; lia|exact IH].
    + constructor; [exact Hge|].
      eapply Forall_impl; [|exact IH].
      unfold at_least_as_relevant. intros z Hz. lia.
Qed.

Lemma truth_pass_min (m : C) (r : list C) :
  Forall (at_least_as_relevant true_rank m) r ->
  truth_pass true_rank (m :: r) = m :: truth_pass true_rank r.
Proof.
  intros Hall. cbn [truth_pass].
  assert (Hall' : Forall (at_least_as_relevant true_rank m)
                   (truth_pass true_rank r)).
  { eapply Permutation_Forall; [|exact Hall].
    symmetry. apply truth_pass_perm. }
  destruct (truth_pass true_rank r) as [|y t']; [reflexivity|].
  inversion Hall' as [|? ? Hy _]; subst. unfold at_least_as_relevant in Hy.
  destruct (Nat.ltb_spec (true_rank y) (true_rank m)); [lia|reflexivity].
Qed.

Lemma truth_passes_min (p : nat) (m : C) (r : list C) :
  Forall (at_least_as_relevant true_rank m) r ->
  truth_passes true_rank p (m :: r) = m :: truth_passes true_rank p r.
Proof.
  revert r. induction p as [|p IH]; intros r Hall; [reflexivity|].
  cbn [truth_passes]. rewrite truth_pass_min by exact Hall.
  apply IH.
  eapply Permutation_Forall; [|exact Hall].
  symmetry. apply truth_pass_perm.
Qed.

Lemma truth_passes_nil (p : nat) : truth_passes true_rank p [] = [].
Proof. induction p; simpl; auto. Qed.

(** After [p] truthful passes the first [p] positions hold the [p] best
    candidates, best first. *)
Lemma truth_passes_top (p : nat) (l : list C) :
  firstn p (truth_passes true_rank p l) = firstn p (true_order true_rank l).
Proof.
  revert l. induction p as [|p IH]; intros l; [reflexivity|].
  cbn [truth_passes]. rewrite <- (truth_pass_order l).
  destruct (truth_pass true_rank l) as [|m r] eqn:Hpass.
  - now rewrite truth_passes_nil.
  - pose proof (truth_pass_head l Hpass) as Hall.
    rewrite truth_passes_min, true_order_min by exact Hall.
    cbn [firstn]. now rewrite IH.
Qed.

End TrueOrder.

Section Truthful.

Context {C : Type}.
Variable self : LLMReranker C.
Variable query : string.
Variable true_rank : C -> nat.
Hypothesis oracle_truthful : truthful self query true_rank.

Lemma truthful_eqb (calls : list (Exchange C)) (a b : C) :
  String.eqb (fst (_compare_pair self calls query a b)) "B"
  = (true_rank b <? true_rank a)%nat.
Proof.
  destruct (Nat.ltb_spec (true_rank b) (true_rank a)) as [Hlt|Hge].
  - apply String.eqb_eq. now apply oracle_truthful.
  - apply String.eqb_neq. intros HB. apply oracle_truthful in HB. lia.
Qed.

Lemma bubble_truthful (l : list C) (calls : list (Exchange C)) :
  fst (bubble self query l calls) = truth_pass true_rank l.
Proof.
  induction l as [|x t IH]; [reflexivity|].
  cbn [bubble truth_pass]. rewrite <- IH.
  destruct (bubble self query t calls) as [[|y t'] c]; [reflexivity|].
  cbn [fst]. rewrite <- truthful_eqb with (calls := c).
  destruct (_compare_pair self c query x y) as [winner c']. cbn [fst].
  destruct (String.eqb winner "B"); reflexivity.
Qed.

Lemma bubble_passes_truthful (p : nat) (l : list C)
    (calls : list (Exchange C)) :
  fst (bubble_passes self query p l calls) = truth_passes true_rank p l.
Proof.
  revert l calls. induction p as [|p IH]; intros l calls; [reflexivity|].
  cbn [bubble_passes truth_passes]. rewrite <- (bubble_truthful l calls).
  destruct (bubble self query l calls) as [l' c]. apply IH.
Qed.

End Truthful.

(** *** The claims on [rerank] *)

Lemma retained_main (C : Type) (self : LLMReranker C) (candidates : list C) :
  (2 <= length candidates)%nat ->
  retained self candidates
  = slice_to candidates (max_candidates (reranking (config self))).
Proof.
  intros Hn. unfold retained, len.
  destruct (Z.leb_spec (Z.of_nat (length candidates)) 1); [lia|reflexivity].
Qed.

Lemma rerank_retained (C : Type) (self : LLMReranker C)
    (requirements : UserRequirements) (candidates : list C) :
  exists out calls,
    rerank self requirements candidates = Ok (out, calls)
    /\ Permutation (map (@candidate C) out) (retained self candidates).
Proof.
  destruct (Nat.le_gt_cases (length candidates) 1) as [Hle|Hgt].
  - destruct (rerank_early self requirements candidates Hle) as (out & Hr & Hc).
    exists out, []. split; [exact Hr|].
    unfold retained, len.
    destruct (Z.leb_spec (Z.of_nat (length candidates)) 1); [|lia].
    now rewrite Hc.
  - destruct (rerank_main self requirements candidates)
      as (out & ranked & calls & Hrun & Hr & Hc); [lia|].
    exists out, calls. split; [exact Hr|].
    rewrite retained_main by lia. rewrite Hc.
    pose proof (bubble_passes_perm self (raw_query requirements)
                  (range_count (num_passes self))
                  (slice_to candidates
                     (max_candidates (reranking (config self)))) []) as Hp.
    now rewrite Hrun in Hp.
Qed.

(** C1, as amended.  Bubble-sort partial correctness.  For every candidate
    list whose retained part [candidates[:max_candidates]] has [n >= 2]
    items, and every oracle that [_compare_pair] reads as the ground-truth
    comparator of a rank, [rerank] returns, and after its [p = num_passes]
    back-to-first passes the first [p] positions of the output are the first
    [p] items of the true order of the retained part.  The bound [p <= n]
    of the claim is not needed. *)
Theorem rerank_top_p_true_order (C : Type) (self : LLMReranker C)
    (requirements : UserRequirements) (true_rank : C -> nat)
    (candidates : list C) :
  truthful self (raw_query requirements) true_rank ->
  (2 <= length (slice_to candidates
                  (max_candidates (reranking (config self)))))%nat ->
  exists out calls,
    rerank self requirements candidates = Ok (out, calls)
    /\ firstn (range_count (num_passes self)) (map (@candidate C) out)
       = firstn (range_count (num_passes self))
           (true_order true_rank
              (slice_to candidates
                 (max_candidates (reranking (config self))))).
Proof.
  intros Htruth Hn.
  pose proof (slice_to_length_le candidates
                (max_candidates (reranking (config self)))) as Hle.
  destruct (rerank_main self requirements candidates)
    as (out & ranked & calls & Hrun & Hr & Hc); [lia|].
  exists out, calls. split; [exact Hr|].
  rewrite Hc.
  pose proof (bubble_passes_truthful Htruth
                (range_count (num_passes self))
                (slice_to candidates
                   (max_candidates (reranking (config self)))) []) as Ht.
  rewrite Hrun in Ht. cbn [fst] in Ht. rewrite Ht.
  apply truth_passes_top.
Qed.

Lemma number_oracle_truthful (cfg : PipelineConfig) (query : string) :
  truthful (LLMReranker_init cfg number_oracle) query (fun c : nat => c).
Proof.
  intros n a b.
  unfold _compare_pair, llm_generate, LLMReranker_init, number_oracle.
  cbn [llm fst].
  destruct (Nat.ltb_spec b a) as [Hlt|Hge]; cbn; split; intros H;
    try reflexivity; try lia; try discriminate.
Qed.

Lemma rerank_top_p_true_order_witness :
  exists out calls,
    rerank (LLMReranker_init DEFAULT_CONFIG number_oracle)
      sample_requirements [3; 1; 4; 2]%nat = Ok (out, calls)
    /\ firstn 3 (map (@candidate nat) out)
       = firstn 3 (true_order (fun c : nat => c) [3; 1; 4; 2]%nat).
Proof.
  exact (@rerank_top_p_true_order nat
           (LLMReranker_init DEFAULT_CONFIG number_oracle)
           sample_requirements (fun c : nat => c) [3; 1; 4; 2]%nat
           (number_oracle_truthful DEFAULT_CONFIG _)
           (le_S _ _ (le_S _ _ (le_n 2)))).
Defined.

(** C1, the claim as stated fails: with the default configuration and the
    truthful oracle on numbers, the best of twenty-one candidates stands
    last, is cut off with the truncation to twenty, and the first three
    positions of the output are not the true top three of the list. *)
Lemma rerank_top_misses_candidate_beyond_max :
  truthful (LLMReranker_init DEFAULT_CONFIG number_oracle)
    (raw_query sample_requirements) (fun c : nat => c)
  /\ exists out calls,
      rerank (LLMReranker_init DEFAULT_CONFIG number_oracle)
        sample_requirements (seq 2 20 ++ [1%nat])%list = Ok (out, calls)
      /\ firstn 3 (map (@candidate nat) out) = [2; 3; 4]%nat
      /\ firstn 3 (true_order (fun c : nat => c) (seq 2 20 ++ [1%nat])%list)
         = [1; 2; 3]%nat.
Proof.
  split; [apply number_oracle_truthful|].
  eexists _, _. split; [vm_compute; reflexivity|].
  split; reflexivity.
Qed.

Example rerank_four_numbers :
  match rerank (LLMReranker_init DEFAULT_CONFIG number_oracle)
          sample_requirements [3; 1; 4; 2]%nat with
  | Ok (out, calls) => map (@candidate nat) out = [1; 2; 3; 4]%nat
                       /\ length calls = 9%nat
  | Raise _ => False
  end.
Proof. vm_compute. split; reflexivity. Qed.

Lemma compare_pair_raise (C : Type) (self : LLMReranker C)
    (calls : list (Exchange C)) (q : string) (a b : C) (e : exn) :
  llm self (length calls) q a b = Raise e ->
  fst (_compare_pair self calls q a b) = "A".
Proof. intros H. rewrite compare_pair_verdict. now rewrite H. Qed.

Lemma extract_choice_malformed (r : string) :
  malformed r = true -> extract_choice r = "A".
Proof.
  unfold malformed, extract_choice. cbv zeta.
  destruct (str_in "A" (upper (strip r))), (str_in "B" (upper (strip r)));
    cbn; try discriminate;
    destruct (startswith (upper (strip r)) "A"),
             (startswith (upper (strip r)) "B");
    cbn; try discriminate; reflexivity.
Qed.

Lemma compare_and_swap_keep (C : Type) (self : LLMReranker C) (q : string)
    (j : nat) (ranked : list C) (calls : list (Exchange C))
    (a b : C) :
  getitem ranked j = Ok a -> getitem ranked (S j) = Ok b ->
  fst (_compare_pair self calls q a b) = "A" ->
  compare_and_swap self q j ranked calls
  = Ok (ranked,
        (calls
         ++ [{| asked_query := q; asked_a := a; asked_b := b;
                outcome := llm self (length calls) q a b |}])%list).
Proof.
  intros Ha Hb Hw. unfold compare_and_swap.
  rewrite Ha, Hb. cbn [bind].
  pose proof (compare_pair_calls self q calls a b) as Hs.
  destruct (_compare_pair self calls q a b) as [winner calls'].
  cbn [fst snd] in Hw, Hs. now subst.
Qed.

(** C3, as amended.  Oracle-failure resilience.  Whatever the oracle does:
    a comparison whose call raises, or whose response is malformed, or whose
    client call failed and so yielded the empty string, is read as ["A"]; a
    comparison read as ["A"] leaves the list as it is; and [rerank] returns,
    without an exception, a list whose candidates are a permutation of the
    candidates it retains (all of them for at most one candidate, the slice
    [candidates[:max_candidates]] otherwise).  Its length is that of the
    input whenever the input has at most [max_candidates] items. *)
Theorem rerank_survives_oracle_failure (C : Type) (self : LLMReranker C)
    (requirements : UserRequirements) (candidates : list C) :
  (forall calls q a b e,
      llm self (length calls) q a b = Raise e ->
      fst (_compare_pair self calls q a b) = "A")
  /\ (forall calls q a b r,
      llm self (length calls) q a b = Ok r -> malformed r = true ->
      fst (_compare_pair self calls q a b) = "A")
  /\ (forall calls q a b e,
      llm self (length calls) q a b = Ok (LLMClient_generate (Raise e)) ->
      fst (_compare_pair self calls q a b) = "A")
  /\ (forall q j ranked calls a b,
      getitem ranked j = Ok a -> getitem ranked (S j) = Ok b ->
      fst (_compare_pair self calls q a b) = "A" ->
      compare_and_swap self q j ranked calls
      = Ok (ranked,
            (calls
             ++ [{| asked_query := q; asked_a := a; asked_b := b;
                    outcome := llm self (length calls) q a b |}])%list))
  /\ exists out calls,
      rerank self requirements candidates = Ok (out, calls)
      /\ Permutation (map (@candidate C) out) (retained self candidates)
      /\ length out = length (retained self candidates)
      /\ ((len candidates <= max_candidates (reranking (config self)))%Z ->
          length out = length candidates).
Proof.
  split; [intros; eapply compare_pair_raise; eassumption|].
  split.
  { intros calls q a b r Hr Hm. rewrite compare_pair_verdict, Hr.
    now apply extract_choice_malformed. }
  split.
  { intros calls q a b e Hr. rewrite compare_pair_verdict, Hr.
    reflexivity. }
  split; [intros; eapply compare_and_swap_keep; eassumption|].
  destruct (rerank_retained self requirements candidates)
    as (out & calls & Hr & Hp).
  exists out, calls. split; [exact Hr|]. split; [exact Hp|].
  assert (Hlen : length out = length (retained self candidates)).
  { rewrite <- (length_map (@candidate C) out).
    now apply Permutation_length. }
  split; [exact Hlen|].
  intros Hmax. rewrite Hlen. unfold retained, len in *.
  destruct (Z.leb_spec (Z.of_nat (length candidates)) 1); [reflexivity|].
  rewrite slice_to_nonneg by lia.
  rewrite length_firstn. lia.
Qed.

(** C3, the claim as stated fails: with the default configuration and an
    oracle that raises on every call, twenty-one candidates come back as
    twenty; the last one is dropped. *)
Lemma rerank_drops_candidates_beyond_max :
  exists out calls,
    rerank (LLMReranker_init DEFAULT_CONFIG unreachable_oracle)
      sample_requirements (seq 1 21) = Ok (out, calls)
    /\ map (@candidate nat) out = seq 1 20
    /\ length out <> length (seq 1 21).
Proof.
  eexists _, _. split; [vm_compute; reflexivity|].
  split; [reflexivity|]. cbn. discriminate.
Qed.

Lemma answered_by_nil (C : Type) (self : LLMReranker C) :
  answered_by self [].
Proof. intros [|i] e H; discriminate H. Qed.



(** The calls of the first pass over four numbers, in order: the last pair
    first, each with the oracle's answer. *)
Example rerank_four_numbers_first_calls :
  match rerank (LLMReranker_init DEFAULT_CONFIG number_oracle)
          sample_requirements [3; 1; 4; 2]%nat with
  | Ok (out, calls) =>
      map (fun e => (asked_a e, asked_b e, outcome e)) (firstn 3 calls)
      = [(4, 2, Ok "B"); (1, 2, Ok "A"); (3, 1, Ok "B")]%nat
  | Raise _ => False
  end.
Proof. vm_compute. reflexivity. Qed.

(** C10.  Truncation and permutation.  For a configuration with
    [max_candidates >= 1] (20 by default), every input list and every oracle
    behaviour, [rerank] returns and the candidates of its output are a
    permutation of the first [min(n, max_candidates)] input candidates; for
    [n > max_candidates] the output is strictly shorter than the input. *)
Theorem rerank_permutes_retained_prefix (C : Type) (self : LLMReranker C)
    (requirements : UserRequirements) (candidates : list C) :
  (1 <= max_candidates (reranking (config self)))%Z ->
  exists out calls,
    rerank self requirements candidates = Ok (out, calls)
    /\ Permutation (map (@candidate C) out)
         (firstn (Nat.min (length candidates)
                    (Z.to_nat (max_candidates (reranking (config self)))))
            candidates)
    /\ ((max_candidates (reranking (config self)) < len candidates)%Z ->
        (length out < length candidates)%nat).
Proof.
  intros Hmax.
  destruct (rerank_retained self requirements candidates)
    as (out & calls & Hr & Hp).
  assert (Hret : retained self candidates
                 = firstn (Nat.min (length candidates)
                             (Z.to_nat
                                (max_candidates (reranking (config self)))))
                     candidates).
  { unfold retained, len.
    destruct (Z.leb_spec (Z.of_nat (length candidates)) 1).
    - rewrite Nat.min_l by lia. symmetry. now apply firstn_all2.
    - apply slice_to_nonneg. lia. }
  rewrite Hret in Hp.
  exists out, calls. split; [exact Hr|]. split; [exact Hp|].
  unfold len. intros Hlt.
  rewrite <- (length_map (@candidate C) out), (Permutation_length Hp).
  rewrite length_firstn. lia.
Qed.

Lemma rerank_permutes_retained_prefix_witness :
  exists out calls,
    rerank (LLMReranker_init DEFAULT_CONFIG number_oracle)
      sample_requirements (rev (seq 1 22)) = Ok (out, calls)
    /\ Permutation (map (@candidate nat) out)
         (firstn (Nat.min (length (rev (seq 1 22)))
                    (Z.to_nat (max_candidates (reranking DEFAULT_CONFIG))))
            (rev (seq 1 22)))
    /\ ((max_candidates (reranking DEFAULT_CONFIG) < len (rev (seq 1 22)))%Z ->
        (length out < length (rev (seq 1 22)))%nat).
Proof.
  apply (@rerank_permutes_retained_prefix nat
           (LLMReranker_init DEFAULT_CONFIG number_oracle)
           sample_requirements (rev (seq 1 22))).
  vm_compute. discriminate.
Defined.

(** With [max_candidates = 0] a single candidate is still returned: the
    early return precedes the truncation. *)
Example rerank_single_candidate_max_zero :
  let cfg := {| retrieval := default_retrieval;
                reranking := {| batch_size := 5; max_candidates := 0 |};
                top_k_results := 5 |} in
  match rerank (LLMReranker_init cfg number_oracle)
          sample_requirements [7]%nat with
  | Ok (out, calls) => map (@candidate nat) out = [7]%nat /\ calls = []
  | Raise _ => False
  end.
Proof. vm_compute. split; reflexivity. Qed.

Lemma set_mem_in (x : string) (s : list string) :
  set_mem x s = true <-> In x s.
Proof.
  unfold set_mem. rewrite existsb_exists. split.
  - intros (y & Hin & Heq). apply String.eqb_eq in Heq. now subst.
  - intros Hin. exists x. split; [exact Hin|apply String.eqb_refl].
Qed.

(** ** Dictionaries *)

Section DictFacts.

Context {V : Type}.
Implicit Types (d : list (string * V)) (k : string) (v : V).

Lemma dict_get_set_eq d k v : dict_get (dict_set d k v) k = Some v.
Proof.
  induction d as [|[k' v'] t IH]; simpl.
  - now rewrite String.eqb_refl.
  - destruct (String.eqb k' k) eqn:E; simpl; rewrite E; auto.
Qed.

Lemma dict_get_set_neq d k k' v :
  k <> k' -> dict_get (dict_set d k v) k' = dict_get d k'.
Proof.
  intros Hne. induction d as [|[k0 v0] t IH]; simpl.
  - apply String.eqb_neq in Hne. now rewrite Hne.
  - destruct (String.eqb k0 k) eqn:E; simpl.
    + apply String.eqb_eq in E. subst k0.
      apply String.eqb_neq in Hne. now rewrite Hne.
    + now rewrite IH.
Qed.

Lemma dict_get_none d k : dict_get d k = None <-> ~ In k (map fst d).
Proof.
  induction d as [|[k' v'] t IH]; simpl.
  - tauto.
  - destruct (String.eqb_spec k' k) as [->|Hne].
    + split; [discriminate|]. intros H. exfalso. apply H. now left.
    + rewrite IH. tauto.
Qed.

Lemma dict_get_some_in d k v : dict_get d k = Some v -> In (k, v) d.
Proof.
  induction d as [|[k' v'] t IH]; simpl; [discriminate|].
  destruct (String.eqb_spec k' k) as [->|Hne].
  - intros [= ->]. now left.
  - intros H. right. now apply IH.
Qed.

Lemma dict_in_get d k v :
  NoDup (map fst d) -> In (k, v) d -> dict_get d k = Some v.
Proof.
  induction d as [|[k' v'] t IH]; simpl; [tauto|].
  intros Hnd [Heq|Hin].
  - injection Heq as -> ->. now rewrite String.eqb_refl.
  - inversion Hnd as [|? ? Hnotin Hnd']; subst.
    destruct (String.eqb_spec k' k) as [->|Hne].
    + exfalso. apply Hnotin. apply in_map_iff. now exists (k, v).
    + now apply IH.
Qed.

Lemma dict_set_fresh d k v :
  dict_get d k = None -> dict_set d k v = (d ++ [(k, v)])%list.
Proof.
  induction d as [|[k' v'] t IH]; simpl; [reflexivity|].
  destruct (String.eqb k' k); [discriminate|].
  intros H. now rewrite IH.
Qed.

Lemma dict_set_keys d k v :
  map fst (dict_set d k v)
  = if dict_mem d k then map fst d else (map fst d ++ [k])%list.
Proof.
  unfold dict_mem. induction d as [|[k' v'] t IH]; simpl; [reflexivity|].
  destruct (String.eqb k' k) eqn:E; simpl; [reflexivity|].
  rewrite IH. now destruct (dict_get t k).
Qed.

Lemma dict_mem_in d k : dict_mem d k = true <-> In k (map fst d).
Proof.
  unfold dict_mem. pose proof (dict_get_none d k) as H.
  destruct (dict_get d k).
  - split; [|reflexivity]. intros _.
    destruct (in_dec string_dec k (map fst d)) as [Hin|Hn]; [exact Hin|].
    apply H in Hn. discriminate.
  - split; [discriminate|]. intros Hin. exfalso. now apply H.
Qed.

Lemma dict_set_in_keys d k v k' :
  In k' (map fst (dict_set d k v)) <-> In k' (map fst d) \/ k' = k.
Proof.
  rewrite dict_set_keys. destruct (dict_mem d k) eqn:E.
  - apply dict_mem_in in E. split; [tauto|]. intros [H| ->]; assumption.
  - rewrite in_app_iff. simpl. intuition.
Qed.

Lemma dict_set_nodup d k v :
  NoDup (map fst d) -> NoDup (map fst (dict_set d k v)).
Proof.
  intros Hnd. rewrite dict_set_keys.
  destruct (dict_mem d k) eqn:E; [exact Hnd|].
  apply NoDup_app; [exact Hnd|repeat constructor; simpl; tauto|].
  intros a Ha [<-|[]].
  apply dict_mem_in in Ha. congruence.
Qed.

Lemma dict_get_default_dict_set d k k' v (default : V) :
  dict_get_default (dict_set d k v) k' default
  = if String.eqb k k' then v else dict_get_default d k' default.
Proof.
  unfold dict_get_default. destruct (String.eqb_spec k k') as [->|Hne].
  - now rewrite dict_get_set_eq.
  - now rewrite dict_get_set_neq.
Qed.

Lemma dict_mem_set_mem d k : dict_mem d k = set_mem k (map fst d).
Proof.
  destruct (dict_mem d k) eqn:E1, (set_mem k (map fst d)) eqn:E2;
    try reflexivity.
  - apply dict_mem_in, set_mem_in in E1. congruence.
  - apply set_mem_in, dict_mem_in in E2. congruence.
Qed.

End DictFacts.

(** ** The stable descending sort *)

Section SortedFacts.

Context {A K : Type}.
Variable key : A -> K.
Variable ltb : K -> K -> bool.

Lemma insert_desc_perm (x : A) (l : list A) :
  Permutation (insert_desc key ltb x l) (x :: l).
Proof.
  induction l as [|y t IH]; simpl; [reflexivity|].
  destruct (ltb (key x) (key y)); [|reflexivity].
  rewrite IH. apply perm_swap.
Qed.

Lemma sorted_reverse_perm (l : list A) :
  Permutation (sorted_reverse key ltb l) l.
Proof.
  induction l as [|x t IH]; simpl; [constructor|].
  rewrite insert_desc_perm. now constructor.
Qed.

(** A list already in descending order is left as it is. *)
Lemma sorted_reverse_id (l : list A) :
  Sorted (key_not_below key ltb) l -> sorted_reverse key ltb l = l.
Proof.
  induction 1 as [|x t Hs IH Hhd]; simpl; [reflexivity|].
  rewrite IH. destruct Hhd as [|y t' Hxy]; simpl; [reflexivity|].
  unfold key_not_below in Hxy. now rewrite Hxy.
Qed.

Hypothesis ltb_asym : forall a b, ltb a b = true -> ltb b a = false.
Hypothesis ltb_negtrans :
  forall a b c, ltb a b = false -> ltb b c = false -> ltb a c = false.

Lemma insert_desc_sorted (x : A) (l : list A) :
  StronglySorted (key_not_below key ltb) l ->
  StronglySorted (key_not_below key ltb) (insert_desc key ltb x l).
Proof.
  induction 1 as [|y t Hs IH Hall]; simpl.
  - repeat constructor.
  - destruct (ltb (key x) (key y)) eqn:E.
    + constructor; [exact IH|].
      rewrite insert_desc_perm. constructor; [|exact Hall].
      now apply ltb_asym.
    + constructor; [now constructor|].
      constructor; [exact E|].
      eapply Forall_impl; [|exact Hall].
      intros z Hz. eapply ltb_negtrans; eassumption.
Qed.

Lemma sorted_reverse_sorted (l : list A) :
  StronglySorted (key_not_below key ltb) (sorted_reverse key ltb l).
Proof.
  induction l as [|x t IH]; simpl; [constructor|].
  now apply insert_desc_sorted.
Qed.

(** Stability: the items of a class none of whose members is below
    another keep their order. *)
Lemma insert_desc_filter (p : A -> bool) (x : A) (l : list A) :
  (forall u v, p u = true -> p v = true -> ltb (key u) (key v) = false) ->
  filter p (insert_desc key ltb x l) = filter p (x :: l).
Proof.
  intros Hclass. induction l as [|y t IH]; [reflexivity|].
  cbn [insert_desc].
  destruct (ltb (key x) (key y)) eqn:E; [|reflexivity].
  cbn [filter] in *. rewrite IH.
  destruct (p x) eqn:Hx, (p y) eqn:Hy; try reflexivity.
  rewrite (Hclass x y Hx Hy) in E. discriminate.
Qed.

Lemma sorted_reverse_stable (p : A -> bool) (l : list A) :
  (forall u v, p u = true -> p v = true -> ltb (key u) (key v) = false) ->
  filter p (sorted_reverse key ltb l) = filter p l.
Proof.
  intros Hclass. induction l as [|x t IH]; [reflexivity|].
  cbn [sorted_reverse fold_right].
  fold (sorted_reverse key ltb t).
  rewrite insert_desc_filter by exact Hclass.
  cbn [filter]. now rewrite IH.
Qed.

End SortedFacts.

Lemma Qltb_lt (x y : Q) : Qltb x y = true <-> x < y.
Proof.
  unfold Qltb. rewrite negb_true_iff.
  destruct (Qle_bool y x) eqn:E.
  - apply Qle_bool_iff in E. split; [discriminate|].
    intros H. exfalso. now apply (Qlt_not_le x y).
  - split; [|reflexivity]. intros _.
    apply Qnot_le_lt. intros H. apply Qle_bool_iff in H. congruence.
Qed.

Lemma Qltb_ge (x y : Q) : Qltb x y = false <-> y <= x.
Proof.
  unfold Qltb. rewrite negb_false_iff. apply Qle_bool_iff.
Qed.

Lemma Qltb_asym (a b : Q) : Qltb a b = true -> Qltb b a = false.
Proof.
  rewrite Qltb_lt, Qltb_ge. apply Qlt_le_weak.
Qed.

Lemma Qltb_negtrans (a b c : Q) :
  Qltb a b = false -> Qltb b c = false -> Qltb a c = false.
Proof.
  rewrite !Qltb_ge. intros H1 H2. now apply Qle_trans with b.
Qed.

(** ** Reciprocal rank fusion *)

Section FusionFacts.

Import HybridRetriever.

Variable k : Z.
Hypothesis k_nonneg : (0 <= k)%Z.

Lemma rank_from_notin (start : Z) (ids : list string) (doc_id : string) :
  ~ In doc_id ids -> rank_from start ids doc_id = None.
Proof.
  revert start. induction ids as [|x t IH]; intros start Hn; simpl;
    [reflexivity|].
  destruct (String.eqb_spec x doc_id) as [->|Hne].
  - exfalso. apply Hn. now left.
  - apply IH. intros H. apply Hn. now right.
Qed.

Lemma rank_from_nth (start : Z) (ids : list string) (i : nat)
    (doc_id : string) :
  NoDup ids -> nth_error ids i = Some doc_id ->
  rank_from start ids doc_id = Some (start + Z.of_nat i)%Z.
Proof.
  revert start i. induction ids as [|x t IH]; intros start i Hnd Hi.
  - destruct i; discriminate.
  - inversion Hnd as [|? ? Hnotin Hnd']; subst. destruct i as [|i]; simpl in *.
    + injection Hi as ->. rewrite String.eqb_refl. f_equal. lia.
    + destruct (String.eqb_spec x doc_id) as [->|Hne].
      * exfalso. apply Hnotin. eapply nth_error_In; eassumption.
      * rewrite (IH (start + 1)%Z i Hnd' Hi). f_equal. lia.
Qed.

Lemma fuse_rank_ok (fused : list (string * Q)) (rank : Z) (doc_id : string) :
  (1 <= rank)%Z ->
  fuse_rank k fused rank doc_id
  = Ok (dict_set fused doc_id
          (dict_get_default fused doc_id 0 + 1 / inject_Z (k + rank))).
Proof.
  intros Hr. unfold fuse_rank.
  destruct (Z.eqb_spec (k + rank) 0); [lia|reflexivity].
Qed.

Lemma dict_get_default_set (fused : list (string * Q)) (x id : string)
    (v : Q) :
  dict_get_default (dict_set fused x v) id 0
  = if String.eqb x id then v else dict_get_default fused id 0.
Proof.
  unfold dict_get_default. destruct (String.eqb_spec x id) as [->|Hne].
  - now rewrite dict_get_set_eq.
  - now rewrite dict_get_set_neq.
Qed.

(** One loop of the fusion over a list of distinct ids. *)
Lemma fuse_ranks_spec (ids : list string) (start : Z)
    (fused : list (string * Q)) :
  (1 <= start)%Z -> NoDup ids ->
  exists fused',
    fuse_ranks k (enumerate start ids) fused = Ok fused'
    /\ (forall id, dict_get_default fused' id 0
                   == dict_get_default fused id 0
                      + contribution k (rank_from start ids id))
    /\ (forall id, In id (map fst fused')
                   <-> In id (map fst fused) \/ In id ids)
    /\ (NoDup (map fst fused) -> NoDup (map fst fused')).
Proof.
  revert start fused. induction ids as [|x t IH]; intros start fused Hs Hnd.
  - exists fused. repeat split; simpl; try tauto.
    intros id. unfold contribution. ring.
  - inversion Hnd as [|? ? Hnotin Hnd']; subst.
    cbn [enumerate fuse_ranks]. rewrite fuse_rank_ok by exact Hs.
    cbn [bind].
    destruct (IH (start + 1)%Z
                (dict_set fused x
                   (dict_get_default fused x 0 + 1 / inject_Z (k + start))))
      as (fused' & Hrun & Hval & Hkeys & Hnodup); [lia|exact Hnd'|].
    exists fused'. split; [exact Hrun|]. split; [|split].
    + intros id. rewrite Hval, dict_get_default_set. cbn [rank_from].
      destruct (String.eqb_spec x id) as [->|Hne].
      * rewrite rank_from_notin by exact Hnotin. cbn [contribution].
        ring.
      * reflexivity.
    + intros id. rewrite Hkeys, dict_set_in_keys. simpl.
      intuition congruence.
    + intros H. apply Hnodup. now apply dict_set_nodup.
Qed.

(** On ids none of which has a score yet, the loop appends one entry per
    id, in order. *)
Lemma fuse_ranks_fresh (ids : list string) (start : Z)
    (fused : list (string * Q)) :
  (1 <= start)%Z -> NoDup ids ->
  (forall id, In id ids -> dict_get fused id = None) ->
  fuse_ranks k (enumerate start ids) fused
  = Ok (fused
        ++ map (fun ri => (snd ri, 0 + 1 / inject_Z (k + fst ri)))
               (enumerate start ids))%list.
Proof.
  revert start fused. induction ids as [|x t IH];
    intros start fused Hs Hnd Hfresh.
  - simpl. now rewrite app_nil_r.
  - inversion Hnd as [|? ? Hnotin Hnd']; subst.
    cbn [enumerate fuse_ranks map fst snd].
    rewrite fuse_rank_ok by exact Hs. cbn [bind].
    unfold dict_get_default at 1.
    rewrite (Hfresh x) by now left.
    rewrite dict_set_fresh by (apply Hfresh; now left).
    rewrite IH; [|lia|exact Hnd'|].
    + now rewrite <- app_assoc.
    + intros id Hin.
      rewrite <- (dict_set_fresh fused x
                    (0 + 1 / inject_Z (k + start)))
        by (apply Hfresh; now left).
      rewrite dict_get_set_neq by (intros ->; contradiction).
      apply Hfresh. now right.
Qed.

Lemma reciprocal_decreasing (r : Z) :
  (1 <= r)%Z ->
  0 + 1 / inject_Z (k + (r + 1)) <= 0 + 1 / inject_Z (k + r).
Proof.
  intros Hr. rewrite !Qplus_0_l. unfold Qdiv. rewrite !Qmult_1_l.
  apply Qlt_le_weak. apply -> Qinv_lt_contravar.
  - rewrite <- Zlt_Qlt. lia.
  - replace 0 with (inject_Z 0) by reflexivity. rewrite <- Zlt_Qlt. lia.
  - replace 0 with (inject_Z 0) by reflexivity. rewrite <- Zlt_Qlt. lia.
Qed.

Lemma fresh_scores_sorted (ids : list string) (start : Z) :
  (1 <= start)%Z ->
  Sorted (fun x y : string * Q => Qltb (snd x) (snd y) = false)
    (map (fun ri => (snd ri, 0 + 1 / inject_Z (k + fst ri)))
         (enumerate start ids)).
Proof.
  revert start. induction ids as [|x t IH]; intros start Hs; simpl.
  - constructor.
  - constructor; [apply IH; lia|].
    destruct t as [|y t]; simpl; constructor.
    cbn [snd fst]. apply Qltb_ge. now apply reciprocal_decreasing.
Qed.

Lemma fresh_scores_keys (ids : list string) (start : Z) :
  map fst (map (fun ri : Z * string =>
                  (snd ri, 0 + 1 / inject_Z (k + fst ri)))
               (enumerate start ids)) = ids.
Proof.
  rewrite map_map. cbn [fst]. apply map_snd_enumerate.
Qed.

(** Fusing one list of distinct ids with nothing. *)
Lemma fuse_alone (ids : list string) :
  NoDup ids ->
  exists fused,
    fuse_ranks k (enumerate 1 ids) [] = Ok fused
    /\ sorted_reverse snd Qltb fused = fused
    /\ map fst fused = ids.
Proof.
  intros Hnd. eexists. split; [|split].
  - rewrite fuse_ranks_fresh; [reflexivity|lia|exact Hnd|reflexivity].
  - cbn [app]. apply sorted_reverse_id. apply fresh_scores_sorted. lia.
  - cbn [app]. apply fresh_scores_keys.
Qed.

End FusionFacts.

Lemma StronglySorted_impl (A : Type) (R1 R2 : A -> A -> Prop) (l : list A) :
  (forall x y, R1 x y -> R2 x y) ->
  StronglySorted R1 l -> StronglySorted R2 l.
Proof.
  intros Himp. induction 1 as [|x t Hs IH Hall]; constructor; auto.
  eapply Forall_impl; [|exact Hall]. auto.
Qed.

Lemma fused_sorted_descending (fused : list (string * Q)) :
  descending (sorted_reverse snd Qltb fused).
Proof.
  unfold descending.
  apply StronglySorted_impl
    with (R1 := fun x y : string * Q => Qltb (snd x) (snd y) = false).
  - intros x y. apply Qltb_ge.
  - apply sorted_reverse_sorted; [apply Qltb_asym|apply Qltb_negtrans].
Qed.

(** C4.  Reciprocal Rank Fusion contract.  For [k >= 0] (60 by default) and
    two result lists, each with distinct ids, the fusion returns a list
    [out] that is the sorted fusion [fused] truncated to the limit
    [fusion_top_k]: its first [fusion_top_k] entries, hence at most that
    many, for a non-negative limit (all but the last [-fusion_top_k] for a
    negative one, as a Python slice).  [fused] holds every id of either list
    exactly once, each with the score [1/(k + rank)] summed over the lists
    it appears in ([rank] being its 1-based position), in descending order
    of score.  In particular the first id of the dense list, the sparse list
    being empty, has the score [1/(k + 1)]. *)
Theorem reciprocal_rank_fusion_contract (S1 S2 : Type)
    (self : HybridRetriever.t)
    (dense_results : list (HybridRetriever.Hit S1))
    (sparse_results : list (HybridRetriever.Hit S2)) (k : Z) :
  (0 <= k)%Z ->
  NoDup (map (@HybridRetriever.hit_id S1) dense_results) ->
  NoDup (map (@HybridRetriever.hit_id S2) sparse_results) ->
  exists fused out,
    HybridRetriever._reciprocal_rank_fusion self dense_results
      sparse_results k
    = Ok out
    /\ ((0 <= fusion_top_k (retrieval (HybridRetriever.config self)))%Z ->
        out = firstn
                (Z.to_nat
                   (fusion_top_k (retrieval (HybridRetriever.config self))))
                fused
        /\ (len out
            <= fusion_top_k (retrieval (HybridRetriever.config self)))%Z
        /\ length out
           = Nat.min
               (Z.to_nat
                  (fusion_top_k (retrieval (HybridRetriever.config self))))
               (length fused))
    /\ ((fusion_top_k (retrieval (HybridRetriever.config self)) < 0)%Z ->
        out = firstn
                (length fused
                 - Z.to_nat
                     (- fusion_top_k
                          (retrieval (HybridRetriever.config self))))
                fused)
    /\ NoDup (map fst fused)
    /\ (forall id,
          In id (map fst fused)
          <-> In id (map (@HybridRetriever.hit_id S1) dense_results)
              \/ In id (map (@HybridRetriever.hit_id S2) sparse_results))
    /\ (forall id s,
          In (id, s) fused ->
          s == contribution k
                 (rank_of (map (@HybridRetriever.hit_id S1) dense_results) id)
               + contribution k
                   (rank_of (map (@HybridRetriever.hit_id S2) sparse_results)
                      id))
    /\ (forall i id,
          nth_error (map (@HybridRetriever.hit_id S1) dense_results) i
          = Some id ->
          rank_of (map (@HybridRetriever.hit_id S1) dense_results) id
          = Some (1 + Z.of_nat i)%Z)
    /\ (forall i id,
          nth_error (map (@HybridRetriever.hit_id S2) sparse_results) i
          = Some id ->
          rank_of (map (@HybridRetriever.hit_id S2) sparse_results) id
          = Some (1 + Z.of_nat i)%Z)
    /\ descending fused
    /\ (forall h rest,
          dense_results = h :: rest -> sparse_results = [] ->
          exists s, In (HybridRetriever.hit_id h, s) fused
                    /\ s == 1 / inject_Z (k + 1)).
Proof.
  intros Hk Hd Hs.
  destruct (fuse_ranks_spec Hk [] (start := 1) ltac:(lia) Hd)
    as (fused1 & Hrun1 & Hval1 & Hkeys1 & Hnd1).
  destruct (fuse_ranks_spec Hk fused1 (start := 1) ltac:(lia) Hs)
    as (fused2 & Hrun2 & Hval2 & Hkeys2 & Hnd2).
  assert (Hnodup : NoDup (map fst fused2)).
  { apply Hnd2, Hnd1. constructor. }
  assert (Hperm : Permutation (sorted_reverse snd Qltb fused2) fused2)
    by apply sorted_reverse_perm.
  assert (Hscore : forall id s,
             In (id, s) (sorted_reverse snd Qltb fused2) ->
             s == contribution k
                    (rank_of (map (@HybridRetriever.hit_id S1) dense_results)
                       id)
                  + contribution k
                      (rank_of
                         (map (@HybridRetriever.hit_id S2) sparse_results)
                         id)).
  { intros id s Hin.
    apply (Permutation_in _ Hperm) in Hin.
    apply dict_in_get in Hin; [|exact Hnodup].
    pose proof (Hval2 id) as H2. pose proof (Hval1 id) as H1.
    unfold dict_get_default at 1 in H2. rewrite Hin in H2.
    rewrite H2, H1. unfold rank_of. cbn. ring. }
  assert (Hkeys : forall id,
             In id (map fst (sorted_reverse snd Qltb fused2))
             <-> In id (map (@HybridRetriever.hit_id S1) dense_results)
                 \/ In id (map (@HybridRetriever.hit_id S2) sparse_results)).
  { intros id.
    pose proof (Hkeys1 id) as Hk1. pose proof (Hkeys2 id) as Hk2.
    simpl in Hk1.
    assert (In id (map fst (sorted_reverse snd Qltb fused2))
            <-> In id (map fst fused2)) as Hp.
    { split; apply Permutation_in; [|symmetry];
        apply Permutation_map; exact Hperm. }
    tauto. }
  exists (sorted_reverse snd Qltb fused2).
  exists (slice_to (sorted_reverse snd Qltb fused2)
            (fusion_top_k (retrieval (HybridRetriever.config self)))).
  split.
  { unfold HybridRetriever._reciprocal_rank_fusion.
    rewrite Hrun1. cbn [bind]. rewrite Hrun2. reflexivity. }
  split; [apply slice_to_cut|].
  split; [apply slice_to_cut|].
  split.
  { eapply Permutation_NoDup; [|exact Hnodup].
    symmetry. apply Permutation_map. exact Hperm. }
  split; [exact Hkeys|].
  split; [exact Hscore|].
  split.
  { intros i id Hi. unfold rank_of. now apply rank_from_nth. }
  split.
  { intros i id Hi. unfold rank_of. now apply rank_from_nth. }
  split; [apply fused_sorted_descending|].
  intros h rest -> ->.
  assert (Hin : In (HybridRetriever.hit_id h)
                  (map fst (sorted_reverse snd Qltb fused2))).
  { apply Hkeys. left. now left. }
  apply in_map_iff in Hin. destruct Hin as ([id s] & Hid & Hin).
  simpl in Hid. subst id.
  exists s. split; [exact Hin|].
  rewrite (Hscore _ _ Hin). unfold rank_of. cbn [map rank_from].
  rewrite String.eqb_refl. cbn [contribution]. ring.
Qed.

Lemma nodup_abc : NoDup ["A"; "B"; "C"].
Proof.
  repeat constructor; simpl; intuition discriminate.
Qed.

Lemma nodup_bca : NoDup ["B"; "C"; "A"].
Proof.
  repeat constructor; simpl; intuition discriminate.
Qed.

Lemma reciprocal_rank_fusion_contract_witness :
  exists fused out,
    HybridRetriever._reciprocal_rank_fusion narrow_retriever
      [hit "A"; hit "B"; hit "C"] [hit "B"; hit "C"; hit "A"] 60
    = Ok out
    /\ ((0 <= fusion_top_k
                (retrieval (HybridRetriever.config narrow_retriever)))%Z ->
        out = firstn
                (Z.to_nat
                   (fusion_top_k
                      (retrieval (HybridRetriever.config narrow_retriever))))
                fused
        /\ (len out
            <= fusion_top_k
                 (retrieval (HybridRetriever.config narrow_retriever)))%Z
        /\ length out
           = Nat.min
               (Z.to_nat
                  (fusion_top_k
                     (retrieval (HybridRetriever.config narrow_retriever))))
               (length fused))
    /\ ((fusion_top_k
           (retrieval (HybridRetriever.config narrow_retriever)) < 0)%Z ->
        out = firstn
                (length fused
                 - Z.to_nat
                     (- fusion_top_k
                          (retrieval
                             (HybridRetriever.config narrow_retriever))))
                fused)
    /\ NoDup (map fst fused)
    /\ (forall id,
          In id (map fst fused)
          <-> In id (map (@HybridRetriever.hit_id unit)
                       [hit "A"; hit "B"; hit "C"])
              \/ In id (map (@HybridRetriever.hit_id unit)
                          [hit "B"; hit "C"; hit "A"]))
    /\ (forall id s,
          In (id, s) fused ->
          s == contribution 60
                 (rank_of (map (@HybridRetriever.hit_id unit)
                             [hit "A"; hit "B"; hit "C"]) id)
               + contribution 60
                   (rank_of (map (@HybridRetriever.hit_id unit)
                               [hit "B"; hit "C"; hit "A"]) id))
    /\ (forall i id,
          nth_error (map (@HybridRetriever.hit_id unit)
                       [hit "A"; hit "B"; hit "C"]) i = Some id ->
          rank_of (map (@HybridRetriever.hit_id unit)
                     [hit "A"; hit "B"; hit "C"]) id
          = Some (1 + Z.of_nat i)%Z)
    /\ (forall i id,
          nth_error (map (@HybridRetriever.hit_id unit)
                       [hit "B"; hit "C"; hit "A"]) i = Some id ->
          rank_of (map (@HybridRetriever.hit_id unit)
                     [hit "B"; hit "C"; hit "A"]) id
          = Some (1 + Z.of_nat i)%Z)
    /\ descending fused
    /\ (forall h rest,
          [hit "A"; hit "B"; hit "C"] = h :: rest ->
          [hit "B"; hit "C"; hit "A"] = [] ->
          exists s, In (HybridRetriever.hit_id h, s) fused
                    /\ s == 1 / inject_Z (60 + 1)).
Proof.
  exact (@reciprocal_rank_fusion_contract unit unit narrow_retriever
           [hit "A"; hit "B"; hit "C"] [hit "B"; hit "C"; hit "A"] 60
           ltac:(discriminate) nodup_abc nodup_bca).
Defined.

(** Three ids fused under a limit of two: the third is cut off. *)
Example fusion_cut_to_two :
  match HybridRetriever._reciprocal_rank_fusion narrow_retriever
          [hit "A"; hit "B"; hit "C"] [hit "B"; hit "C"; hit "A"] 60 with
  | Ok out => map fst out = ["B"; "A"]
  | Raise _ => False
  end.
Proof. vm_compute. reflexivity. Qed.

Example fusion_rank_one_alone :
  HybridRetriever._reciprocal_rank_fusion default_retriever
    [hit "A"] (@nil (HybridRetriever.Hit unit)) 60
  = Ok [("A", 1 # 61)].
Proof. reflexivity. Qed.

(** C9.  Fusion with an empty list.  For [k >= 0] and a ranked list of
    distinct ids, fusing the list with the empty list, in either argument
    position, returns the ids of the list in their order, truncated to the
    limit [fusion_top_k]: the first [fusion_top_k] ids, hence at most that
    many, for a non-negative limit (all but the last [-fusion_top_k] for a
    negative one, as a Python slice). *)
Theorem fusion_with_empty_list (S1 S2 : Type) (self : HybridRetriever.t)
    (results : list (HybridRetriever.Hit S1)) (k : Z) :
  (0 <= k)%Z ->
  NoDup (map (@HybridRetriever.hit_id S1) results) ->
  exists left right,
    HybridRetriever._reciprocal_rank_fusion self results
      (@nil (HybridRetriever.Hit S2)) k = Ok left
    /\ HybridRetriever._reciprocal_rank_fusion self
         (@nil (HybridRetriever.Hit S2)) results k = Ok right
    /\ map fst right = map fst left
    /\ ((0 <= fusion_top_k (retrieval (HybridRetriever.config self)))%Z ->
        map fst left
        = firstn
            (Z.to_nat
               (fusion_top_k (retrieval (HybridRetriever.config self))))
            (map (@HybridRetriever.hit_id S1) results)
        /\ (len left
            <= fusion_top_k (retrieval (HybridRetriever.config self)))%Z
        /\ length left
           = Nat.min
               (Z.to_nat
                  (fusion_top_k (retrieval (HybridRetriever.config self))))
               (length results))
    /\ ((fusion_top_k (retrieval (HybridRetriever.config self)) < 0)%Z ->
        map fst left
        = firstn
            (length results
             - Z.to_nat
                 (- fusion_top_k (retrieval (HybridRetriever.config self))))
            (map (@HybridRetriever.hit_id S1) results)).
Proof.
  intros Hk Hnd.
  destruct (fuse_alone Hk Hnd) as (fused & Hrun & Hsorted & Hids).
  exists (slice_to fused
            (fusion_top_k (retrieval (HybridRetriever.config self)))).
  exists (slice_to fused
            (fusion_top_k (retrieval (HybridRetriever.config self)))).
  unfold HybridRetriever._reciprocal_rank_fusion.
  cbn [map enumerate HybridRetriever.fuse_ranks bind].
  rewrite Hrun. cbn [bind]. rewrite Hsorted.
  split; [reflexivity|]. split; [reflexivity|]. split; [reflexivity|].
  assert (length fused = length results) as Hlen.
  { rewrite <- (length_map fst fused), Hids. apply length_map. }
  destruct (slice_to_cut fused
              (fusion_top_k (retrieval (HybridRetriever.config self))))
    as [Hpos Hneg].
  split.
  - intros H. destruct (Hpos H) as (Hcut & Hbound & Hmin).
    split; [|split].
    + rewrite Hcut at 1. now rewrite <- firstn_map, Hids.
    + exact Hbound.
    + now rewrite Hmin, Hlen.
  - intros H. rewrite (Hneg H) at 1.
    now rewrite <- firstn_map, Hids, Hlen.
Qed.

Lemma fusion_with_empty_list_witness :
  exists left right,
    HybridRetriever._reciprocal_rank_fusion narrow_retriever
      [hit "A"; hit "B"; hit "C"] (@nil (HybridRetriever.Hit unit)) 60
    = Ok left
    /\ HybridRetriever._reciprocal_rank_fusion narrow_retriever
         (@nil (HybridRetriever.Hit unit)) [hit "A"; hit "B"; hit "C"] 60
       = Ok right
    /\ map fst right = map fst left
    /\ ((0 <= 2)%Z ->
        map fst left = firstn (Z.to_nat 2) ["A"; "B"; "C"]
        /\ (len left <= 2)%Z
        /\ length left
           = Nat.min (Z.to_nat 2) (length [hit "A"; hit "B"; hit "C"]))
    /\ ((2 < 0)%Z ->
        map fst left
        = firstn (length [hit "A"; hit "B"; hit "C"] - Z.to_nat (- 2))
            ["A"; "B"; "C"]).
Proof.
  exact (@fusion_with_empty_list unit unit narrow_retriever
           [hit "A"; hit "B"; hit "C"] 60 ltac:(discriminate) nodup_abc).
Defined.

(** Three ids fused with nothing under a limit of two: the first two ids
    come back, in their order, from either argument position. *)
Example fusion_alone_cut_to_two :
  match HybridRetriever._reciprocal_rank_fusion narrow_retriever
          [hit "A"; hit "B"; hit "C"] (@nil (HybridRetriever.Hit unit)) 60,
        HybridRetriever._reciprocal_rank_fusion narrow_retriever
          (@nil (HybridRetriever.Hit unit)) [hit "A"; hit "B"; hit "C"] 60
  with
  | Ok out1, Ok out2 =>
      map fst out1 = ["A"; "B"] /\ map fst out2 = ["A"; "B"]
  | _, _ => False
  end.
Proof. vm_compute. split; reflexivity. Qed.

(** ** Real arithmetic of the index *)

Lemma fdiv_pos (x y : R) : (0 < y)%R -> fdiv x y = Ok (x / y)%R.
Proof.
  intros H. unfold fdiv. destruct (Req_dec_T y 0); [lra|reflexivity].
Qed.

Lemma flog_pos (x : R) : (0 < x)%R -> flog x = Ok (ln x).
Proof.
  intros H. unfold flog. destruct (Rlt_dec 0 x); [reflexivity|contradiction].
Qed.

Lemma Rltb_lt (x y : R) : Rltb x y = true <-> (x < y)%R.
Proof.
  unfold Rltb. destruct (Rlt_dec x y); split; auto; discriminate.
Qed.

Lemma Rltb_ge (x y : R) : Rltb x y = false <-> (y <= x)%R.
Proof.
  unfold Rltb. destruct (Rlt_dec x y); split; intros;
    try lra; try discriminate; auto.
Qed.

Lemma Rltb_irrefl (x : R) : Rltb x x = false.
Proof. apply Rltb_ge. lra. Qed.

Lemma Rltb_asym (a b : R) : Rltb a b = true -> Rltb b a = false.
Proof. rewrite Rltb_lt, Rltb_ge. lra. Qed.

Lemma Rltb_negtrans (a b c : R) :
  Rltb a b = false -> Rltb b c = false -> Rltb a c = false.
Proof. rewrite !Rltb_ge. lra. Qed.

(** ** [BM25Index.search] *)

Lemma score_tokens_empty_index (set_iter : list string -> list string)
    (k1 b : R) (query_tokens : list string) (scores : list (string * R)) :
  BM25Index.score_tokens set_iter (BM25Index.init k1 b) query_tokens scores
  = Ok scores.
Proof.
  induction query_tokens as [|token rest IH]; simpl; auto.
Qed.

Lemma search_init (set_iter : list string -> list string)
    (k1 b : R) (query : string) (top_k : Z) :
  BM25Index.search set_iter (BM25Index.init k1 b) query top_k = Ok [].
Proof.
  unfold BM25Index.search. rewrite score_tokens_empty_index.
  cbn [bind sorted_reverse fold_right].
  unfold slice_to. destruct (0 <=? top_k)%Z; now rewrite firstn_nil.
Qed.

(** C7.  BM25 zero-corpus safety.  On an index holding no document, for
    every query, every [top_k] and every tuning, [search] returns the empty
    list and raises nothing, and [_idf] of any term is [0] without a
    division. *)
Theorem search_empty_index (set_iter : list string -> list string)
    (k1 b : R) (query : string) (top_k : Z) :
  BM25Index.search set_iter (BM25Index.init k1 b) query top_k = Ok []
  /\ forall term, BM25Index._idf (BM25Index.init k1 b) term = Ok 0%R.
Proof.
  split; [apply search_init|]. intros term. reflexivity.
Qed.

(** C5, the claim as stated fails: ["d1"] is added before ["d2"], both get
    the same score for the query ["x y"], and ["d2"] comes first. *)
Lemma search_tie_against_insertion_order :
  exists s,
    BM25Index.search insertion_order
      (build insertion_order BM25Index.default_k1 BM25Index.default_b
         [("d1", "y"); ("d2", "x")])
      "x y" 10
    = Ok [("d2", s); ("d1", s)].
Proof.
  eval_index.
  rewrite (fdiv_pos (2 - 1 + 5 / 10)%R) by lra.
  rewrite flog_pos by lra.
  rewrite (fdiv_pos (75 / 100 * 1)%R) by lra.
  rewrite fdiv_pos by lra. eval_index.
  rewrite Rltb_irrefl.
  eexists. reflexivity.
Qed.

(** ** Sets *)

Lemma set_mem_ext (x : string) (s1 s2 : list string) :
  (forall y, In y s1 <-> In y s2) -> set_mem x s1 = set_mem x s2.
Proof.
  intros H. destruct (set_mem x s1) eqn:E1, (set_mem x s2) eqn:E2;
    try reflexivity.
  - apply set_mem_in, H, set_mem_in in E1. congruence.
  - apply set_mem_in, H, set_mem_in in E2. congruence.
Qed.

Lemma set_add_fresh (s : list string) (x : string) :
  ~ In x s -> set_add s x = (s ++ [x])%list.
Proof.
  intros Hn. unfold set_add. destruct (set_mem x s) eqn:E; [|reflexivity].
  apply set_mem_in in E. contradiction.
Qed.

Lemma set_add_in (s : list string) (x y : string) :
  In y (set_add s x) <-> In y s \/ y = x.
Proof.
  unfold set_add. destruct (set_mem x s) eqn:E.
  - apply set_mem_in in E. split; [tauto|]. intros [H| ->]; assumption.
  - rewrite in_app_iff. simpl. intuition.
Qed.

Lemma set_add_nodup (s : list string) (x : string) :
  NoDup s -> NoDup (set_add s x).
Proof.
  intros Hnd. unfold set_add. destruct (set_mem x s) eqn:E; [exact Hnd|].
  apply NoDup_app; [exact Hnd|repeat constructor; simpl; tauto|].
  intros a Ha [<-|[]]. apply set_mem_in in Ha. congruence.
Qed.

Lemma fold_set_add_spec (l s : list string) :
  NoDup s ->
  NoDup (fold_left set_add l s)
  /\ forall y, In y (fold_left set_add l s) <-> In y s \/ In y l.
Proof.
  revert s. induction l as [|x t IH]; intros s Hnd; simpl.
  - split; [exact Hnd|]. tauto.
  - destruct (IH (set_add s x) (set_add_nodup x Hnd)) as [Hn Hin].
    split; [exact Hn|]. intros y. rewrite Hin, set_add_in.
    intuition.
Qed.

Lemma set_of_list_nodup (l : list string) : NoDup (set_of_list l).
Proof. apply fold_set_add_spec. constructor. Qed.

Lemma set_of_list_in (l : list string) (y : string) :
  In y (set_of_list l) <-> In y l.
Proof.
  unfold set_of_list.
  destruct (fold_set_add_spec l (s := [])) as [_ H]; [constructor|].
  rewrite H. simpl. tauto.
Qed.

(** ** Building the index *)

Lemma sum_values_acc (d : list (string * Z)) (a : Z) :
  fold_left (fun acc kv => (acc + snd kv)%Z) d a
  = (a + sum_values d)%Z.
Proof.
  unfold sum_values. revert a. induction d as [|kv t IH]; intros a; simpl.
  - lia.
  - rewrite (IH (a + snd kv)%Z), (IH (snd kv)). lia.
Qed.

Lemma sum_values_cons (kv : string * Z) (d : list (string * Z)) :
  sum_values (kv :: d) = (snd kv + sum_values d)%Z.
Proof.
  unfold sum_values at 1. simpl. rewrite sum_values_acc. lia.
Qed.

Lemma sum_values_bound (d : list (string * Z)) (k : string) (v : Z) :
  Forall (fun kv => (0 <= snd kv)%Z) d -> In (k, v) d ->
  (0 <= sum_values d)%Z /\ (v <= sum_values d)%Z.
Proof.
  induction 1 as [|kv t Hkv Hall IH]; intros Hin; [destruct Hin|].
  rewrite sum_values_cons.
  assert (0 <= sum_values t)%Z as Hpos.
  { clear -Hall. induction Hall as [|kv' t' Hkv' _ IH'];
      [unfold sum_values; simpl; lia|].
    rewrite sum_values_cons. lia. }
  destruct Hin as [->|Hin]; cbn [snd] in *.
  - lia.
  - destruct (IH Hin). lia.
Qed.

Section IndexToken.

Variable doc_id : string.

Lemma index_tokens_get (tokens : list string)
    (df : list (string * Z)) (inv : list (string * list string)) :
  NoDup tokens ->
  forall token,
    dict_get (fst (fold_left (BM25Index.index_token doc_id) tokens (df, inv)))
      token
    = (if set_mem token tokens
       then Some (dict_get_default df token 0 + 1)%Z
       else dict_get df token)
    /\ dict_get
         (snd (fold_left (BM25Index.index_token doc_id) tokens (df, inv)))
         token
       = (if set_mem token tokens
          then Some (set_add (dict_get_default inv token []) doc_id)
          else dict_get inv token).
Proof.
  revert df inv. induction tokens as [|x t IH]; intros df inv Hnd token.
  - simpl. auto.
  - inversion Hnd as [|? ? Hnotin Hnd']; subst.
    cbn [fold_left BM25Index.index_token].
    destruct (IH (dict_set df x (dict_get_default df x 0 + 1)%Z)
                 (dict_set inv x (set_add (dict_get_default inv x []) doc_id))
                 Hnd' token) as [Hdf Hinv].
    rewrite Hdf, Hinv. clear Hdf Hinv.
    unfold set_mem. cbn [existsb].
    fold (set_mem token t).
    destruct (String.eqb_spec token x) as [->|Hne]; cbn [orb].
    + assert (set_mem x t = false) as ->.
      { destruct (set_mem x t) eqn:E; [|reflexivity].
        apply set_mem_in in E. contradiction. }
      now rewrite !dict_get_set_eq.
    + unfold dict_get_default.
      rewrite !dict_get_set_neq by congruence. auto.
Qed.

End IndexToken.

Section Build.

Variable set_iter : list string -> list string.
Hypothesis set_iter_order : is_set_order set_iter.

Lemma set_iter_nodup (s : list string) : NoDup s -> NoDup (set_iter s).
Proof.
  intros H. eapply Permutation_NoDup; [|exact H].
  symmetry. apply set_iter_order.
Qed.

Lemma set_iter_in (s : list string) (x : string) :
  In x (set_iter s) <-> In x s.
Proof.
  split; apply Permutation_in; [|symmetry]; apply set_iter_order.
Qed.

Lemma set_mem_iter_unique (token : string) (tokens : list string) :
  set_mem token (set_iter (set_of_list tokens)) = set_mem token tokens.
Proof.
  apply set_mem_ext. intros y. now rewrite set_iter_in, set_of_list_in.
Qed.

(** What one [add_document] does to an index whose [N] is not [-1]. *)
Lemma add_document_effect (index : BM25Index.t) (doc_id text : string) :
  (BM25Index.N index + 1 <> 0)%Z ->
  let tokens := BM25Index._tokenize text in
  let index' := fst (BM25Index.add_document set_iter index doc_id text) in
  snd (BM25Index.add_document set_iter index doc_id text) = Ok tt
  /\ BM25Index.k1 index' = BM25Index.k1 index
  /\ BM25Index.b index' = BM25Index.b index
  /\ BM25Index.N index' = (BM25Index.N index + 1)%Z
  /\ BM25Index.documents index'
     = dict_set (BM25Index.documents index) doc_id tokens
  /\ BM25Index.doc_lengths index'
     = dict_set (BM25Index.doc_lengths index) doc_id (len tokens)
  /\ BM25Index.avg_doc_length index'
     = (IZR (sum_values (BM25Index.doc_lengths index'))
        / IZR (BM25Index.N index'))%R
  /\ (forall token,
        dict_get (BM25Index.doc_freqs index') token
        = if set_mem token tokens
          then Some (dict_get_default (BM25Index.doc_freqs index) token 0
                     + 1)%Z
          else dict_get (BM25Index.doc_freqs index) token)
  /\ (forall token,
        dict_get (BM25Index.inverted_index index') token
        = if set_mem token tokens
          then Some (set_add
                       (dict_get_default (BM25Index.inverted_index index)
                          token [])
                       doc_id)
          else dict_get (BM25Index.inverted_index index) token).
Proof.
  intros HN tokens index'. subst index'.
  unfold BM25Index.add_document. fold tokens.
  pose proof (index_tokens_get doc_id
                (BM25Index.doc_freqs index) (BM25Index.inverted_index index)
                (set_iter_nodup (set_of_list_nodup tokens))) as Hfold.
  destruct (fold_left (BM25Index.index_token doc_id)
              (set_iter (set_of_list tokens))
              (BM25Index.doc_freqs index, BM25Index.inverted_index index))
    as [df' inv'].
  cbn [fst snd] in Hfold.
  unfold true_div. destruct (Z.eqb_spec (BM25Index.N index + 1) 0); [lia|].
  cbn [fst snd BM25Index.k1 BM25Index.b BM25Index.N BM25Index.documents
       BM25Index.doc_lengths BM25Index.avg_doc_length BM25Index.doc_freqs
       BM25Index.inverted_index].
  repeat split; try reflexivity.
  - intros token. destruct (Hfold token) as [H _].
    now rewrite H, set_mem_iter_unique.
  - intros token. destruct (Hfold token) as [_ H].
    now rewrite H, set_mem_iter_unique.
Qed.

End Build.

Lemma docs_with_app (token : string) (l1 l2 : list (string * string)) :
  docs_with token (l1 ++ l2)
  = (docs_with token l1 ++ docs_with token l2)%list.
Proof. unfold docs_with. now rewrite filter_app, map_app. Qed.

Lemma docs_with_spec (token doc_id : string) (docs : list (string * string)) :
  In doc_id (docs_with token docs)
  <-> exists text,
        In (doc_id, text) docs
        /\ set_mem token (BM25Index._tokenize text) = true.
Proof.
  unfold docs_with. rewrite in_map_iff. split.
  - intros ([d text] & Hid & Hin). simpl in Hid. subst d.
    apply filter_In in Hin. exists text. exact Hin.
  - intros (text & Hin & Hmem). exists (doc_id, text).
    split; [reflexivity|]. apply filter_In. auto.
Qed.

Lemma docs_with_ids (token doc_id : string) (docs : list (string * string)) :
  In doc_id (docs_with token docs) -> In doc_id (map fst docs).
Proof.
  intros H. apply docs_with_spec in H. destruct H as (text & Hin & _).
  apply in_map_iff. now exists (doc_id, text).
Qed.

Lemma docs_with_nodup (token : string) (docs : list (string * string)) :
  NoDup (map fst docs) -> NoDup (docs_with token docs).
Proof.
  induction docs as [|[d text] t IH]; simpl; intros Hnd; [constructor|].
  inversion Hnd as [|? ? Hnotin Hnd']; subst.
  unfold docs_with. cbn [filter snd].
  destruct (set_mem token (BM25Index._tokenize text)); cbn [map fst].
  - constructor; [|now apply IH].
    intros Hin. apply Hnotin. eapply docs_with_ids. exact Hin.
  - now apply IH.
Qed.

Lemma docs_with_length (token : string) (docs : list (string * string)) :
  (len (docs_with token docs) <= len docs)%Z.
Proof.
  unfold len, docs_with. rewrite length_map.
  pose proof (filter_length_le
                (fun d => set_mem token (BM25Index._tokenize (snd d))) docs).
  lia.
Qed.

Lemma add_all_snoc (set_iter : list string -> list string)
    (index : BM25Index.t) (docs : list (string * string))
    (d : string * string) :
  add_all set_iter index (docs ++ [d])
  = fst (BM25Index.add_document set_iter (add_all set_iter index docs)
           (fst d) (snd d)).
Proof. unfold add_all. now rewrite fold_left_app. Qed.

Lemma indexed_init (k1 b : R) : indexed k1 b [] (BM25Index.init k1 b).
Proof.
  constructor; try reflexivity. intros H. now contradiction H.
Qed.

(** An index built from documents with distinct ids holds what it
    should. *)
Lemma build_indexed (set_iter : list string -> list string) (k1 b : R)
    (docs : list (string * string)) :
  is_set_order set_iter -> NoDup (map fst docs) ->
  indexed k1 b docs (build set_iter k1 b docs).
Proof.
  intros Hiter. unfold build.
  induction docs as [|[d text] docs IH] using rev_ind; intros Hnd.
  - apply indexed_init.
  - rewrite map_app in Hnd. cbn [map fst] in Hnd.
    pose proof (NoDup_remove_1 _ _ _ Hnd) as Hnd'.
    pose proof (NoDup_remove_2 _ _ _ Hnd) as Hfresh.
    rewrite app_nil_r in Hnd', Hfresh.
    specialize (IH Hnd'). destruct IH as [Hk1 Hb HN Hdocs Hlens Hpost Hfreq _].
    rewrite add_all_snoc. cbn [fst snd].
    set (index := add_all set_iter (BM25Index.init k1 b) docs) in *.
    assert (HN1 : (BM25Index.N index + 1 <> 0)%Z)
      by (rewrite HN; unfold len; lia).
    destruct (add_document_effect Hiter index d text HN1)
      as (_ & Ek1 & Eb & EN & Edocs & Elens & Eavg & Efreq & Epost).
    cbv zeta in *.
    set (index' := fst (BM25Index.add_document set_iter index d text)) in *.
    constructor.
    + congruence.
    + congruence.
    + rewrite EN, HN. unfold len. rewrite length_app. simpl. lia.
    + rewrite Edocs, Hdocs, map_app. cbn [map fst snd].
      apply dict_set_fresh. apply dict_get_none.
      now rewrite map_map.
    + rewrite Elens, Hlens, map_app. cbn [map fst snd].
      apply dict_set_fresh. apply dict_get_none.
      now rewrite map_map.
    + intros token. rewrite Epost, docs_with_app.
      assert (Hold : dict_get_default (BM25Index.inverted_index index) token []
                     = docs_with token docs).
      { unfold dict_get_default. rewrite Hpost.
        now destruct (docs_with token docs). }
      unfold docs_with at 2. cbn [filter snd].
      destruct (set_mem token (BM25Index._tokenize text)); cbn [map fst].
      * rewrite Hold, set_add_fresh.
        -- now destruct (docs_with token docs).
        -- intros Hin. apply Hfresh. eapply docs_with_ids. exact Hin.
      * now rewrite app_nil_r.
    + intros token. unfold dict_get_default at 1. rewrite Efreq.
      rewrite docs_with_app. unfold docs_with at 2. cbn [filter snd].
      destruct (set_mem token (BM25Index._tokenize text)); cbn [map fst].
      * rewrite Hfreq. unfold len. rewrite length_app. simpl. lia.
      * rewrite app_nil_r. apply Hfreq.
    + intros _. exact Eavg.
Qed.

(** ** Searching a built index *)

Lemma count_pos (tokens : list string) (token : string) :
  set_mem token tokens = true ->
  (1 <= count tokens token)%Z /\ (1 <= len tokens)%Z.
Proof.
  intros H. apply set_mem_in in H. unfold count, len.
  assert (In token (filter (String.eqb token) tokens)) as Hf.
  { apply filter_In. split; [exact H|apply String.eqb_refl]. }
  destruct (filter (String.eqb token) tokens) as [|x t]; [destruct Hf|].
  destruct tokens; [destruct H|]. simpl. lia.
Qed.

Lemma count_zero (tokens : list string) (token : string) :
  set_mem token tokens = false -> count tokens token = 0%Z.
Proof.
  intros H. unfold count.
  destruct (filter (String.eqb token) tokens) as [|x t] eqn:E; [reflexivity|].
  assert (In x (filter (String.eqb token) tokens)) as Hin
    by (rewrite E; now left).
  apply filter_In in Hin. destruct Hin as [Hin Heq].
  apply String.eqb_eq in Heq. subst x.
  apply set_mem_in in Hin. congruence.
Qed.

Lemma docs_text_unique (docs : list (string * string))
    (doc_id text text' : string) :
  NoDup (map fst docs) ->
  In (doc_id, text) docs -> In (doc_id, text') docs -> text = text'.
Proof.
  induction docs as [|[d t] rest IH]; intros Hnd H1 H2; [destruct H1|].
  inversion Hnd as [|? ? Hnotin Hnd']; subst.
  destruct H1 as [E1|H1], H2 as [E2|H2].
  - congruence.
  - injection E1 as -> ->. exfalso. apply Hnotin.
    apply in_map_iff. now exists (doc_id, text').
  - injection E2 as -> ->. exfalso. apply Hnotin.
    apply in_map_iff. now exists (doc_id, text).
  - now apply IH.
Qed.

Section IndexedSearch.

Variable set_iter : list string -> list string.
Hypothesis set_iter_order : is_set_order set_iter.

Variables k1 b : R.
Hypothesis k1_nonneg : (0 <= k1)%R.
Hypothesis b_range : (0 <= b <= 1)%R.

Variable docs : list (string * string).
Hypothesis docs_distinct : NoDup (map fst docs).

Variable index : BM25Index.t.
Hypothesis index_built : indexed k1 b docs index.

Lemma indexed_lookup (doc_id text : string) :
  In (doc_id, text) docs ->
  dict_get (BM25Index.documents index) doc_id
  = Some (BM25Index._tokenize text)
  /\ dict_get (BM25Index.doc_lengths index) doc_id
     = Some (len (BM25Index._tokenize text)).
Proof.
  intros Hin. destruct index_built as [_ _ _ Hdocs Hlens _ _ _].
  rewrite Hdocs, Hlens. split; apply dict_in_get.
  - now rewrite map_map.
  - apply (in_map (fun d => (fst d, BM25Index._tokenize (snd d))) _ _ Hin).
  - now rewrite map_map.
  - apply (in_map (fun d => (fst d, len (BM25Index._tokenize (snd d))))
             _ _ Hin).
Qed.

Lemma indexed_postings (token : string) :
  dict_get_default (BM25Index.inverted_index index) token []
  = docs_with token docs.
Proof.
  unfold dict_get_default. rewrite (ix_postings index_built).
  now destruct (docs_with token docs).
Qed.

Lemma indexed_known (token : string) :
  dict_mem (BM25Index.inverted_index index) token = true
  <-> docs_with token docs <> [].
Proof.
  unfold dict_mem. rewrite (ix_postings index_built).
  destruct (docs_with token docs); split; congruence.
Qed.

Lemma indexed_member (token doc_id text : string) :
  In (doc_id, text) docs ->
  set_mem doc_id (docs_with token docs)
  = set_mem token (BM25Index._tokenize text).
Proof using docs_distinct.
  intros Hin.
  destruct (set_mem token (BM25Index._tokenize text)) eqn:E.
  - apply set_mem_in, docs_with_spec. exists text. split; assumption.
  - destruct (set_mem doc_id (docs_with token docs)) eqn:E'; [|reflexivity].
    apply set_mem_in, docs_with_spec in E'.
    destruct E' as (text' & Hin' & Hmem).
    rewrite (@docs_text_unique docs doc_id text text' docs_distinct Hin Hin')
      in E.
    rewrite Hmem in E. discriminate E.
Qed.

Lemma indexed_avg_pos (token doc_id text : string) :
  In (doc_id, text) docs ->
  set_mem token (BM25Index._tokenize text) = true ->
  (0 < BM25Index.avg_doc_length index)%R.
Proof.
  intros Hin Hmem.
  destruct index_built as [_ _ HN _ Hlens _ _ Havg].
  rewrite Havg by (intros ->; destruct Hin).
  assert (1 <= BM25Index.N index)%Z as HN1.
  { rewrite HN. unfold len. destruct docs; [destruct Hin|]. simpl. lia. }
  assert (1 <= sum_values (BM25Index.doc_lengths index))%Z as HS.
  { destruct (count_pos _ _ Hmem) as [_ Hlen].
    destruct (@sum_values_bound (BM25Index.doc_lengths index) doc_id
                (len (BM25Index._tokenize text))) as [_ Hle].
    - rewrite Hlens. apply Forall_forall. intros kv Hkv.
      apply in_map_iff in Hkv. destruct Hkv as (d & <- & _).
      unfold len. simpl. lia.
    - rewrite Hlens.
      apply (in_map (fun d => (fst d, len (BM25Index._tokenize (snd d))))
               _ _ Hin).
    - lia. }
  apply Rdiv_lt_0_compat; apply IZR_lt; lia.
Qed.

Lemma score_doc_indexed (token : string) (idf : R)
    (scores : list (string * R)) (doc_id : string) :
  In doc_id (docs_with token docs) ->
  BM25Index.score_doc index token idf scores doc_id
  = Ok (bump index token idf scores doc_id).
Proof.
  intros Hin. apply docs_with_spec in Hin.
  destruct Hin as (text & Hin & Hmem).
  destruct (indexed_lookup _ _ Hin) as [Hdoc Hlen].
  pose proof (indexed_avg_pos _ _ _ Hin Hmem) as Havg.
  destruct (count_pos _ _ Hmem) as [Htf Hdl].
  unfold BM25Index.score_doc, bump, doc_value, dict_getitem, term_value.
  rewrite Hdoc, Hlen. cbn [bind].
  rewrite fdiv_pos by exact Havg. cbn [bind].
  rewrite fdiv_pos; [reflexivity|].
  rewrite (ix_k1 index_built), (ix_b index_built).
  apply IZR_le in Htf, Hdl.
  assert (0 <= b * IZR (len (BM25Index._tokenize text))
               / BM25Index.avg_doc_length index)%R as Hq.
  { apply Rmult_le_pos; [nra|].
    left. now apply Rinv_0_lt_compat. }
  nra.
Qed.

Lemma score_docs_indexed (token : string) (idf : R) (doc_ids : list string)
    (scores : list (string * R)) :
  (forall d, In d doc_ids -> In d (docs_with token docs)) ->
  BM25Index.score_docs index token idf doc_ids scores
  = Ok (fold_left (bump index token idf) doc_ids scores).
Proof.
  revert scores. induction doc_ids as [|d rest IH]; intros scores Hall;
    [reflexivity|].
  cbn [BM25Index.score_docs fold_left].
  rewrite score_doc_indexed by (apply Hall; now left). cbn [bind].
  apply IH. intros d' Hd'. apply Hall. now right.
Qed.

Lemma indexed_freq_range (token : string) :
  dict_mem (BM25Index.inverted_index index) token = true ->
  (1 <= dict_get_default (BM25Index.doc_freqs index) token 0
   <= BM25Index.N index)%Z.
Proof.
  intros Hmem. apply indexed_known in Hmem.
  rewrite (ix_freqs index_built), (ix_N index_built).
  split; [|apply docs_with_length].
  unfold len. destruct (docs_with token docs); [congruence|simpl; lia].
Qed.

Lemma idf_indexed (token : string) :
  dict_mem (BM25Index.inverted_index index) token = true ->
  BM25Index._idf index token = Ok (token_idf index token)
  /\ (0 < token_idf index token)%R.
Proof.
  intros Hmem. destruct (indexed_freq_range _ Hmem) as [Hlo Hhi].
  unfold BM25Index._idf, token_idf, idf_value.
  set (df := dict_get_default (BM25Index.doc_freqs index) token 0%Z) in *.
  destruct (Z.eqb_spec df 0); [lia|].
  apply IZR_le in Hlo, Hhi.
  assert (0 < (IZR (BM25Index.N index) - IZR df + 5 / 10)
              / (IZR df + 5 / 10))%R as Hq.
  { apply Rdiv_lt_0_compat; lra. }
  rewrite fdiv_pos by lra. cbn [bind].
  rewrite flog_pos by lra. split; [reflexivity|].
  rewrite <- ln_1. apply ln_increasing; lra.
Qed.

Lemma score_tokens_indexed (query_tokens : list string)
    (scores : list (string * R)) :
  BM25Index.score_tokens set_iter index query_tokens scores
  = Ok (accumulate set_iter index query_tokens scores).
Proof.
  revert scores. induction query_tokens as [|token rest IH]; intros scores;
    [reflexivity|].
  unfold accumulate. cbn [BM25Index.score_tokens fold_left].
  destruct (dict_mem (BM25Index.inverted_index index) token) eqn:Hmem;
    cbn [negb].
  - destruct (idf_indexed _ Hmem) as [-> _]. cbn [bind].
    rewrite score_docs_indexed.
    + cbn [bind]. apply IH.
    + intros d Hd. apply set_iter_in in Hd; [|exact set_iter_order].
      now rewrite indexed_postings in Hd.
  - apply IH.
Qed.

(** On a built index [search] raises nothing. *)
Lemma search_indexed (query : string) (top_k : Z) :
  BM25Index.search set_iter index query top_k
  = Ok (slice_to
          (sorted_reverse snd Rltb
             (accumulate set_iter index (BM25Index._tokenize query) []))
          top_k).
Proof.
  unfold BM25Index.search. now rewrite score_tokens_indexed.
Qed.

End IndexedSearch.

(** *** The order of the accumulated scores *)

Lemma bump_keys (index : BM25Index.t) (token : string) (idf : R)
    (scores : list (string * R)) (doc_id : string) :
  map fst (bump index token idf scores doc_id)
  = set_add (map fst scores) doc_id.
Proof.
  unfold bump, set_add. now rewrite dict_set_keys, dict_mem_set_mem.
Qed.

Lemma bump_all_keys (index : BM25Index.t) (token : string) (idf : R)
    (doc_ids : list string) (scores : list (string * R)) :
  map fst (fold_left (bump index token idf) doc_ids scores)
  = fold_left set_add doc_ids (map fst scores).
Proof.
  revert scores. induction doc_ids as [|d rest IH]; intros scores;
    [reflexivity|].
  cbn [fold_left]. now rewrite IH, bump_keys.
Qed.

Lemma accumulate_keys (set_iter : list string -> list string)
    (index : BM25Index.t) (query_tokens : list string)
    (scores : list (string * R)) :
  map fst (accumulate set_iter index query_tokens scores)
  = fold_left set_add (visited set_iter index query_tokens)
      (map fst scores).
Proof.
  unfold accumulate, visited.
  revert scores. induction query_tokens as [|token rest IH]; intros scores;
    [reflexivity|].
  cbn [fold_left flat_map]. rewrite fold_left_app, IH.
  destruct (dict_mem (BM25Index.inverted_index index) token).
  - now rewrite bump_all_keys.
  - reflexivity.
Qed.

Lemma has_score_class (c : R) (u v : string * R) :
  has_score c u = true -> has_score c v = true ->
  Rltb (snd u) (snd v) = false.
Proof.
  unfold has_score.
  destruct (Req_dec_T (snd u) c) as [->|]; [|discriminate].
  destruct (Req_dec_T (snd v) c) as [->|]; [|discriminate].
  intros _ _. apply Rltb_irrefl.
Qed.

(** C5, as amended.  BM25 search tie-breaking.  For every corpus of
    documents with distinct ids, every query, every hash order of the sets
    and a tuning with [k1 >= 0] and [0 <= b <= 1], [search] returns the
    accumulated scores sorted by descending score and cut to [top_k]; the
    scores were accumulated in the order in which the documents were first
    visited (query tokens in query order, each token's posting set in its
    iteration order), and documents with equal scores keep that order in
    the sorted list. *)
Theorem search_ties_keep_first_scored_order
    (set_iter : list string -> list string) (k1 b : R)
    (docs : list (string * string)) (query : string) (top_k : Z) :
  is_set_order set_iter ->
  (0 <= k1)%R -> (0 <= b <= 1)%R ->
  NoDup (map fst docs) ->
  exists scores,
    BM25Index.score_tokens set_iter (build set_iter k1 b docs)
      (BM25Index._tokenize query) [] = Ok scores
    /\ BM25Index.search set_iter (build set_iter k1 b docs) query top_k
       = Ok (slice_to (sorted_reverse snd Rltb scores) top_k)
    /\ map fst scores
       = first_scored set_iter (build set_iter k1 b docs)
           (BM25Index._tokenize query)
    /\ StronglySorted (fun x y : string * R => (snd y <= snd x)%R)
         (sorted_reverse snd Rltb scores)
    /\ forall c,
         filter (has_score c) (sorted_reverse snd Rltb scores)
         = filter (has_score c) scores.
Proof.
  intros Hiter Hk1 Hb Hnd.
  pose proof (@build_indexed set_iter k1 b docs Hiter Hnd) as Hidx.
  exists (accumulate set_iter (build set_iter k1 b docs)
            (BM25Index._tokenize query) []).
  split; [eapply score_tokens_indexed; eassumption|].
  split; [eapply search_indexed; eassumption|].
  split; [apply accumulate_keys|].
  split.
  - apply StronglySorted_impl
      with (R1 := fun x y : string * R => Rltb (snd x) (snd y) = false).
    + intros x y. apply Rltb_ge.
    + apply sorted_reverse_sorted; [apply Rltb_asym|apply Rltb_negtrans].
  - intros c. apply sorted_reverse_stable. apply has_score_class.
Qed.

(** *** The value of the accumulated scores *)

Lemma term_value_increasing (k1 b avg idf : R) (tf1 tf2 doc_len : Z) :
  (0 < idf)%R -> (0 < k1)%R -> (0 <= b <= 1)%R -> (0 < avg)%R ->
  (1 <= doc_len)%Z -> (1 <= tf1)%Z -> (tf1 < tf2)%Z ->
  (term_value k1 b avg idf tf1 doc_len
   < term_value k1 b avg idf tf2 doc_len)%R.
Proof.
  intros Hidf Hk1 Hb Havg Hdl Htf1 Htf.
  unfold term_value.
  apply IZR_le in Hdl, Htf1. apply IZR_lt in Htf.
  set (t1 := IZR tf1) in *. set (t2 := IZR tf2) in *.
  set (q := (b * IZR doc_len / avg)%R).
  assert (0 <= q)%R as Hq.
  { unfold q. apply Rmult_le_pos; [nra|]. left. now apply Rinv_0_lt_compat. }
  assert (0 < 1 - b + q)%R as HK.
  { destruct (Rle_lt_dec 1 b) as [Hb1|Hb1]; [|lra].
    assert (b = 1%R) by lra. subst b. unfold q.
    assert (0 < 1 * IZR doc_len / avg)%R; [|lra].
    apply Rdiv_lt_0_compat; lra. }
  set (K := (k1 * (1 - b + q))%R).
  assert (0 < K)%R as HKpos by (unfold K; nra).
  assert (0 < t1 + K)%R by lra. assert (0 < t2 + K)%R by lra.
  apply Rmult_lt_reg_r with ((t1 + K) * (t2 + K))%R; [nra|].
  replace (idf * (t1 * (k1 + 1)) / (t1 + K) * ((t1 + K) * (t2 + K)))%R
    with (idf * (t1 * (k1 + 1)) * (t2 + K))%R by (field; lra).
  replace (idf * (t2 * (k1 + 1)) / (t2 + K) * ((t1 + K) * (t2 + K)))%R
    with (idf * (t2 * (k1 + 1)) * (t1 + K))%R by (field; lra).
  assert (0 < idf * (k1 + 1))%R by nra.
  assert (t1 * (t2 + K) < t2 * (t1 + K))%R by nra.
  nra.
Qed.

Lemma bump_all_value (index : BM25Index.t) (token : string) (idf : R)
    (doc_ids : list string) (scores : list (string * R)) (d : string) :
  NoDup doc_ids ->
  dict_get_default (fold_left (bump index token idf) doc_ids scores) d 0%R
  = (dict_get_default scores d 0
     + (if set_mem d doc_ids then doc_value index token idf d else 0))%R.
Proof.
  revert scores. induction doc_ids as [|x rest IH]; intros scores Hnd.
  - simpl. ring.
  - inversion Hnd as [|? ? Hnotin Hnd']; subst.
    cbn [fold_left]. rewrite IH by exact Hnd'.
    unfold bump at 1. rewrite dict_get_default_dict_set.
    unfold set_mem. cbn [existsb]. fold (set_mem d rest).
    destruct (String.eqb_spec x d) as [->|Hne].
    + rewrite String.eqb_refl. cbn [orb].
      assert (set_mem d rest = false) as ->.
      { destruct (set_mem d rest) eqn:E; [|reflexivity].
        apply set_mem_in in E. contradiction. }
      ring.
    + destruct (String.eqb_spec d x) as [->|_]; [congruence|].
      cbn [orb]. reflexivity.
Qed.

Section TermFrequency.

Variable set_iter : list string -> list string.
Hypothesis set_iter_order : is_set_order set_iter.

Variables k1 b : R.
Hypothesis k1_pos : (0 < k1)%R.
Hypothesis b_range : (0 <= b <= 1)%R.

Variable docs : list (string * string).
Hypothesis docs_distinct : NoDup (map fst docs).

Variable index : BM25Index.t.
Hypothesis index_built : indexed k1 b docs index.

Lemma accumulate_value (query_tokens : list string)
    (scores : list (string * R)) (d : string) :
  dict_get_default (accumulate set_iter index query_tokens scores) d 0%R
  = (dict_get_default scores d 0 + query_score index query_tokens d)%R.
Proof.
  unfold accumulate.
  revert scores. induction query_tokens as [|token rest IH]; intros scores.
  - simpl. ring.
  - cbn [fold_left query_score]. rewrite IH.
    destruct (dict_mem (BM25Index.inverted_index index) token); cbn [andb].
    + rewrite bump_all_value.
      * rewrite (@set_mem_ext d
                   (set_iter
                      (dict_get_default
                         (BM25Index.inverted_index index) token []))
                   (dict_get_default
                      (BM25Index.inverted_index index) token []))
          by (intros y; now apply set_iter_in).
        ring.
      * apply set_iter_nodup; [exact set_iter_order|].
        rewrite (indexed_postings index_built).
        now apply docs_with_nodup.
    + ring.
Qed.

(** Whether a query token visits a document of the corpus. *)
Lemma visit_condition (token doc_id text : string) :
  In (doc_id, text) docs ->
  dict_mem (BM25Index.inverted_index index) token
  && set_mem doc_id
       (dict_get_default (BM25Index.inverted_index index) token [])
  = set_mem token (BM25Index._tokenize text).
Proof.
  intros Hin. rewrite (indexed_postings index_built).
  rewrite (@indexed_member docs docs_distinct token doc_id text Hin).
  destruct (set_mem token (BM25Index._tokenize text)) eqn:E;
    [|apply andb_false_r].
  rewrite andb_true_r. apply (indexed_known index_built).
  intros Hnil.
  assert (In doc_id (docs_with token docs)) as H
    by (apply docs_with_spec; now exists text).
  rewrite Hnil in H. destruct H.
Qed.

Lemma doc_value_indexed (token doc_id text : string) (idf : R) :
  In (doc_id, text) docs ->
  doc_value index token idf doc_id
  = term_value k1 b (BM25Index.avg_doc_length index) idf
      (count (BM25Index._tokenize text) token)
      (len (BM25Index._tokenize text)).
Proof.
  intros Hin. unfold doc_value.
  destruct (indexed_lookup docs_distinct index_built _ _ Hin) as [-> ->].
  now rewrite (ix_k1 index_built), (ix_b index_built).
Qed.

Variables d_many text_many d_once text_once term : string.
Hypothesis many_indexed : In (d_many, text_many) docs.
Hypothesis once_indexed : In (d_once, text_once) docs.
Hypothesis same_length :
  len (BM25Index._tokenize text_many) = len (BM25Index._tokenize text_once).
Hypothesis term_once : count (BM25Index._tokenize text_once) term = 1%Z.
Hypothesis term_many : (1 < count (BM25Index._tokenize text_many) term)%Z.

Lemma term_in_both :
  set_mem term (BM25Index._tokenize text_many) = true
  /\ set_mem term (BM25Index._tokenize text_once) = true.
Proof.
  split.
  - destruct (set_mem term (BM25Index._tokenize text_many)) eqn:E;
      [reflexivity|].
    apply count_zero in E. lia.
  - destruct (set_mem term (BM25Index._tokenize text_once)) eqn:E;
      [reflexivity|].
    apply count_zero in E. lia.
Qed.

Lemma query_score_monotone (query_tokens : list string) :
  (forall u, In u query_tokens -> u <> term ->
             count (BM25Index._tokenize text_many) u
             = count (BM25Index._tokenize text_once) u) ->
  (query_score index query_tokens d_once
   <= query_score index query_tokens d_many)%R
  /\ (In term query_tokens ->
      (query_score index query_tokens d_once
       < query_score index query_tokens d_many)%R).
Proof.
  destruct term_in_both as [Hm Ho].
  induction query_tokens as [|u rest IH]; intros Hsame.
  - simpl. split; [lra|tauto].
  - cbn [query_score].
    rewrite (visit_condition u _ _ many_indexed).
    rewrite (visit_condition u _ _ once_indexed).
    rewrite !(doc_value_indexed u _ _ _ many_indexed).
    rewrite !(doc_value_indexed u _ _ _ once_indexed).
    destruct IH as [IHle IHlt].
    { intros v Hv. apply Hsame. now right. }
    destruct (String.eqb_spec u term) as [->|Hne].
    + rewrite Hm, Ho, term_once, same_length.
      assert (dict_mem (BM25Index.inverted_index index) term = true) as Hk.
      { apply (indexed_known index_built). intros Hnil.
        assert (In d_once (docs_with term docs)) as H
          by (apply docs_with_spec; now exists text_once).
        rewrite Hnil in H. destruct H. }
      assert (0 <= k1)%R as Hk1' by lra.
      destruct (idf_indexed index_built term Hk) as [_ Hidf].
      pose proof (@indexed_avg_pos k1 b docs docs_distinct index index_built
                    term d_once text_once once_indexed Ho) as Havg.
      destruct (count_pos _ _ Ho) as [_ Hlen].
      pose proof (@term_value_increasing k1 b
                    (BM25Index.avg_doc_length index)
                    (token_idf index term) 1
                    (count (BM25Index._tokenize text_many) term)
                    (len (BM25Index._tokenize text_once))
                    Hidf k1_pos b_range Havg Hlen ltac:(lia) term_many)
        as Hinc.
      split; [lra|]. intros _. lra.
    + rewrite (Hsame u (or_introl eq_refl) Hne), same_length.
      assert (set_mem u (BM25Index._tokenize text_many)
              = set_mem u (BM25Index._tokenize text_once)) as ->.
      { pose proof (Hsame u (or_introl eq_refl) Hne) as Hc.
        destruct (set_mem u (BM25Index._tokenize text_many)) eqn:E1,
                 (set_mem u (BM25Index._tokenize text_once)) eqn:E2;
          try reflexivity.
        - apply count_pos in E1. apply count_zero in E2. lia.
        - apply count_zero in E1. apply count_pos in E2. lia. }
      split; [lra|].
      intros [Heq|Hin]; [congruence|]. specialize (IHlt Hin). lra.
Qed.

End TermFrequency.

Lemma visited_in (set_iter : list string -> list string) (k1 b : R)
    (docs : list (string * string)) (index : BM25Index.t)
    (query_tokens : list string) (token doc_id text : string) :
  is_set_order set_iter -> indexed k1 b docs index ->
  In token query_tokens -> In (doc_id, text) docs ->
  set_mem token (BM25Index._tokenize text) = true ->
  In doc_id (visited set_iter index query_tokens).
Proof.
  intros Hiter Hidx Htok Hdoc Hmem.
  assert (In doc_id (docs_with token docs)) as Hin
    by (apply docs_with_spec; exists text; split; assumption).
  unfold visited. apply in_flat_map. exists token. split; [exact Htok|].
  assert (dict_mem (BM25Index.inverted_index index) token = true) as ->.
  { apply (indexed_known Hidx). intros Hnil. rewrite Hnil in Hin.
    destruct Hin. }
  apply set_iter_in; [exact Hiter|].
  now rewrite (indexed_postings Hidx).
Qed.

Lemma visited_ids (set_iter : list string -> list string) (k1 b : R)
    (docs : list (string * string)) (index : BM25Index.t)
    (query_tokens : list string) (doc_id : string) :
  is_set_order set_iter -> indexed k1 b docs index ->
  In doc_id (visited set_iter index query_tokens) ->
  In doc_id (map fst docs).
Proof.
  intros Hiter Hidx Hin. unfold visited in Hin.
  apply in_flat_map in Hin. destruct Hin as (token & _ & Hin).
  destruct (dict_mem (BM25Index.inverted_index index) token);
    [|destruct Hin].
  apply set_iter_in in Hin; [|exact Hiter].
  rewrite (indexed_postings Hidx) in Hin.
  eapply docs_with_ids. exact Hin.
Qed.

Lemma scored_entry (scores : list (string * R)) (doc_id : string) :
  In doc_id (map fst scores) ->
  In (doc_id, dict_get_default scores doc_id 0%R) scores.
Proof.
  intros Hin. unfold dict_get_default.
  destruct (dict_get scores doc_id) as [s|] eqn:E.
  - now apply dict_get_some_in.
  - apply dict_get_none in E. contradiction.
Qed.

(** C8.  BM25 term-frequency monotonicity.  In an index built from any
    corpus of documents with distinct ids, with [k1 > 0] and [0 <= b <= 1]
    (the defaults are 1.5 and 0.75), take two documents of the same length,
    one containing a query term more than once and the other exactly once,
    with the same frequency for every other query token.  Then [search]
    raises nothing and the score it accumulates for the first document is
    strictly higher than the score it accumulates for the second; with
    [top_k] the size of the corpus both are returned.  Scores are real
    numbers here. *)
Theorem search_term_frequency_monotone
    (set_iter : list string -> list string) (k1 b : R)
    (docs : list (string * string)) (query : string)
    (d_many text_many d_once text_once term : string) :
  is_set_order set_iter ->
  (0 < k1)%R -> (0 <= b <= 1)%R ->
  NoDup (map fst docs) ->
  In (d_many, text_many) docs -> In (d_once, text_once) docs ->
  len (BM25Index._tokenize text_many) = len (BM25Index._tokenize text_once) ->
  In term (BM25Index._tokenize query) ->
  count (BM25Index._tokenize text_once) term = 1%Z ->
  (1 < count (BM25Index._tokenize text_many) term)%Z ->
  (forall u, In u (BM25Index._tokenize query) -> u <> term ->
             count (BM25Index._tokenize text_many) u
             = count (BM25Index._tokenize text_once) u) ->
  exists scores s_many s_once,
    (forall top_k,
        BM25Index.search set_iter (build set_iter k1 b docs) query top_k
        = Ok (slice_to (sorted_reverse snd Rltb scores) top_k))
    /\ BM25Index.search set_iter (build set_iter k1 b docs) query (len docs)
       = Ok (sorted_reverse snd Rltb scores)
    /\ NoDup (map fst scores)
    /\ In (d_many, s_many) (sorted_reverse snd Rltb scores)
    /\ In (d_once, s_once) (sorted_reverse snd Rltb scores)
    /\ (s_once < s_many)%R.
Proof.
  intros Hiter Hk1 Hb Hnd Hmany Honce Hlen Hterm Hone Hmore Hsame.
  pose proof (@build_indexed set_iter k1 b docs Hiter Hnd) as Hidx.
  assert (0 <= k1)%R as Hk1' by lra.
  set (index := build set_iter k1 b docs) in *.
  set (scores := accumulate set_iter index (BM25Index._tokenize query) []).
  assert (Hsearch : forall top_k,
             BM25Index.search set_iter index query top_k
             = Ok (slice_to (sorted_reverse snd Rltb scores) top_k)).
  { intros top_k. eapply search_indexed; eassumption. }
  assert (Hkeys : map fst scores
                  = set_of_list
                      (visited set_iter index (BM25Index._tokenize query))).
  { apply accumulate_keys. }
  assert (Hnodup : NoDup (map fst scores)).
  { rewrite Hkeys. apply set_of_list_nodup. }
  destruct (@term_in_both text_many text_once term Hone Hmore) as [Hm Ho].
  assert (Hin_many : In d_many (map fst scores)).
  { rewrite Hkeys. apply set_of_list_in.
    eapply visited_in; eassumption. }
  assert (Hin_once : In d_once (map fst scores)).
  { rewrite Hkeys. apply set_of_list_in.
    eapply visited_in; eassumption. }
  assert (Hperm : Permutation (sorted_reverse snd Rltb scores) scores)
    by apply sorted_reverse_perm.
  exists scores,
    (dict_get_default scores d_many 0%R),
    (dict_get_default scores d_once 0%R).
  split; [exact Hsearch|].
  split.
  { rewrite Hsearch. f_equal. unfold len.
    rewrite slice_to_nonneg by lia. apply firstn_all2.
    rewrite (Permutation_length Hperm).
    rewrite <- (length_map fst scores), <- (length_map fst docs).
    assert (length (map fst scores) <= length (map fst docs))%nat; [|lia].
    apply NoDup_incl_length; [exact Hnodup|].
    intros d Hd. rewrite Hkeys in Hd. apply -> set_of_list_in in Hd.
    eapply visited_ids; eassumption. }
  split; [exact Hnodup|].
  split.
  { apply (Permutation_in _ (Permutation_sym Hperm)).
    now apply scored_entry. }
  split.
  { apply (Permutation_in _ (Permutation_sym Hperm)).
    now apply scored_entry. }
  unfold scores.
  rewrite !(@accumulate_value set_iter Hiter k1 b docs Hnd index Hidx).
  cbn [dict_get_default dict_get].
  destruct (@query_score_monotone k1 b Hk1 Hb docs Hnd index Hidx
              d_many text_many d_once text_once term
              Hmany Honce Hlen Hone Hmore (BM25Index._tokenize query) Hsame)
    as [_ Hlt].
  specialize (Hlt Hterm). lra.
Qed.

(** ** Building the index from the store *)

Lemma add_document_ok (set_iter : list string -> list string)
    (index : BM25Index.t) (doc_id text : string) :
  (0 <= BM25Index.N index)%Z ->
  snd (BM25Index.add_document set_iter index doc_id text) = Ok tt
  /\ BM25Index.N (fst (BM25Index.add_document set_iter index doc_id text))
     = (BM25Index.N index + 1)%Z.
Proof.
  intros HN. unfold BM25Index.add_document.
  destruct (fold_left _ _ _) as [df' inv'].
  unfold true_div. destruct (Z.eqb_spec (BM25Index.N index + 1) 0); [lia|].
  split; reflexivity.
Qed.

Lemma index_points_ok (set_iter : list string -> list string)
    (results : list HybridRetriever.Point) (index : BM25Index.t)
    (total : Z) :
  (0 <= BM25Index.N index)%Z ->
  HybridRetriever.index_points set_iter index results total
  = (add_all set_iter index (points_docs results),
     Ok (total + len results)%Z)
  /\ (0 <= BM25Index.N (add_all set_iter index (points_docs results)))%Z.
Proof.
  revert index total. induction results as [|point rest IH];
    intros index total HN.
  - cbn. split; [|exact HN]. unfold len. simpl. do 2 f_equal. lia.
  - cbn [HybridRetriever.index_points points_docs map add_all fold_left
         fst snd].
    destruct (add_document_ok set_iter index
                (HybridRetriever.point_id point)
                (HybridRetriever._create_search_text
                   (HybridRetriever.payload point)) HN) as [Hok HN'].
    destruct (BM25Index.add_document set_iter index
                (HybridRetriever.point_id point)
                (HybridRetriever._create_search_text
                   (HybridRetriever.payload point))) as [index' outcome].
    cbn [fst snd] in *. subst outcome.
    destruct (IH index' (total + 1)%Z) as [Hrun Hpos]; [lia|].
    fold (points_docs rest). fold (add_all set_iter index' (points_docs rest)).
    rewrite Hrun. split; [|exact Hpos].
    unfold len. cbn [length]. do 2 f_equal. lia.
Qed.

Lemma scroll_loop_failure (set_iter : list string -> list string)
    (store : HybridRetriever.VectorStore) (e : exn)
    (pages : list (list HybridRetriever.Point * string)) :
  forall (offset : option string) (index : BM25Index.t) (total : Z)
         (fuel : nat),
    (0 <= BM25Index.N index)%Z ->
    scroll_fails_after store offset pages e ->
    (length pages < fuel)%nat ->
    HybridRetriever.scroll_loop set_iter fuel store offset index total
    = Some (add_all set_iter index (pages_docs pages), Raise e).
Proof.
  induction pages as [|[results next] rest IH];
    intros offset index total fuel HN Hfail Hfuel;
    (destruct fuel as [|fuel]; [simpl in Hfuel; lia|]);
    cbn [HybridRetriever.scroll_loop].
  - cbn in Hfail. rewrite Hfail. reflexivity.
  - destruct Hfail as (Hne & Hscroll & Hrest). rewrite Hscroll.
    destruct (index_points_ok set_iter results index total HN)
      as [Hrun HN'].
    destruct results as [|point more]; [congruence|].
    rewrite Hrun.
    rewrite (IH (Some next) _ _ fuel HN' Hrest) by (simpl in Hfuel; lia).
    unfold pages_docs, points_docs, add_all.
    cbn [map fst concat]. now rewrite map_app, fold_left_app.
Qed.

Lemma sparse_search_empty_index (set_iter : list string -> list string)
    (cfg : PipelineConfig) (store : HybridRetriever.VectorStore)
    (k1 b : R) (query : string) :
  HybridRetriever._sparse_search set_iter
    {| HybridRetriever.config := cfg;
       HybridRetriever.qdrant := store;
       HybridRetriever.bm25_index := BM25Index.init k1 b |} query = [].
Proof.
  unfold HybridRetriever._sparse_search.
  cbn [HybridRetriever.bm25_index HybridRetriever.config].
  now rewrite search_init.
Qed.

(** C2, as amended.  When the store fails while the index is built, after
    serving any number of pages, the constructor raises nothing: the
    failure is caught in [_build_bm25_index] and shows only as the printed
    line [Failed to build BM25 index: ...]; construction completes, the
    index holds the documents of the pages served before the failure, and
    when the very first scroll failed every sparse search returns the empty
    list. *)
Theorem index_build_failure_is_printed_not_raised
    (set_iter : list string -> list string) (fuel : nat)
    (cfg : PipelineConfig) (store : HybridRetriever.VectorStore)
    (pages : list (list HybridRetriever.Point * string)) (e : exn) :
  scroll_fails_after store None pages e ->
  (length pages < fuel)%nat ->
  exists retriever,
    HybridRetriever.init set_iter fuel cfg (Ok tt) store
    = Some (Ok (retriever,
                ["   Building BM25 index from Qdrant collection...";
                 "     Failed to build BM25 index: "
                 ++ HybridRetriever.str_of_exn e;
                 " HybridRetriever initialized"]))
    /\ HybridRetriever.bm25_index retriever
       = add_all set_iter
           (BM25Index.init BM25Index.default_k1 BM25Index.default_b)
           (pages_docs pages)
    /\ (pages = [] ->
        forall query,
          HybridRetriever._sparse_search set_iter retriever query = []).
Proof.
  intros Hfail Hfuel.
  unfold HybridRetriever.init, HybridRetriever._build_bm25_index.
  cbn [HybridRetriever.qdrant HybridRetriever.bm25_index
       HybridRetriever.config].
  rewrite (@scroll_loop_failure set_iter store e pages None
             (BM25Index.init BM25Index.default_k1 BM25Index.default_b)
             0%Z fuel ltac:(cbn; lia) Hfail Hfuel).
  eexists. split; [reflexivity|]. split; [reflexivity|].
  intros -> query. apply sparse_search_empty_index.
Qed.

Lemma index_build_failure_is_printed_not_raised_witness :
  exists retriever,
    HybridRetriever.init insertion_order 1 DEFAULT_CONFIG (Ok tt)
      offline_store
    = Some (Ok (retriever,
                ["   Building BM25 index from Qdrant collection...";
                 "     Failed to build BM25 index: "
                 ++ HybridRetriever.str_of_exn
                      (ConnectionError "connection refused");
                 " HybridRetriever initialized"]))
    /\ HybridRetriever.bm25_index retriever
       = add_all insertion_order
           (BM25Index.init BM25Index.default_k1 BM25Index.default_b)
           (pages_docs [])
    /\ (@nil (list HybridRetriever.Point * string) = [] ->
        forall query,
          HybridRetriever._sparse_search insertion_order retriever query
          = []).
Proof.
  exact (@index_build_failure_is_printed_not_raised insertion_order 1
           DEFAULT_CONFIG offline_store []
           (ConnectionError "connection refused") eq_refl (le_n 1)).
Defined.

(** C2, the claim as stated fails: with a store that cannot be reached the
    constructor returns a retriever, the failure is only printed, the index
    is empty and a sparse search answers with no result. *)
Lemma unreachable_store_yields_working_retriever :
  exists retriever printed,
    HybridRetriever.init insertion_order 1 DEFAULT_CONFIG (Ok tt)
      offline_store
    = Some (Ok (retriever, printed))
    /\ printed
       = ["   Building BM25 index from Qdrant collection...";
          "     Failed to build BM25 index: connection refused";
          " HybridRetriever initialized"]
    /\ HybridRetriever.bm25_index retriever
       = BM25Index.init BM25Index.default_k1 BM25Index.default_b
    /\ HybridRetriever._sparse_search insertion_order retriever
         "managed PostgreSQL database" = [].
Proof.
  eexists _, _. split; [reflexivity|]. split; [reflexivity|].
  split; [reflexivity|]. apply sparse_search_empty_index.
Qed.

(** ** Sample corpora *)

Lemma insertion_order_is_set_order : is_set_order insertion_order.
Proof. intros members. apply Permutation_refl. Qed.

Lemma default_k1_pos : (0 < BM25Index.default_k1)%R.
Proof. unfold BM25Index.default_k1. lra. Qed.

Lemma default_b_range : (0 <= BM25Index.default_b <= 1)%R.
Proof. unfold BM25Index.default_b. lra. Qed.

Lemma search_ties_keep_first_scored_order_witness :
  exists scores,
    BM25Index.score_tokens insertion_order
      (build insertion_order BM25Index.default_k1 BM25Index.default_b
         [("d1", "y"); ("d2", "x")])
      (BM25Index._tokenize "x y") [] = Ok scores
    /\ BM25Index.search insertion_order
         (build insertion_order BM25Index.default_k1 BM25Index.default_b
            [("d1", "y"); ("d2", "x")])
         "x y" 10
       = Ok (slice_to (sorted_reverse snd Rltb scores) 10)
    /\ map fst scores
       = first_scored insertion_order
           (build insertion_order BM25Index.default_k1 BM25Index.default_b
              [("d1", "y"); ("d2", "x")])
           (BM25Index._tokenize "x y")
    /\ StronglySorted (fun x y : string * R => (snd y <= snd x)%R)
         (sorted_reverse snd Rltb scores)
    /\ forall c,
         filter (has_score c) (sorted_reverse snd Rltb scores)
         = filter (has_score c) scores.
Proof.
  apply (@search_ties_keep_first_scored_order insertion_order
           BM25Index.default_k1 BM25Index.default_b
           [("d1", "y"); ("d2", "x")] "x y" 10
           insertion_order_is_set_order).
  - left. exact default_k1_pos.
  - exact default_b_range.
  - repeat constructor; simpl; intuition discriminate.
Defined.

Lemma search_term_frequency_monotone_witness :
  exists scores s_many s_once,
    (forall top_k,
        BM25Index.search insertion_order
          (build insertion_order BM25Index.default_k1 BM25Index.default_b
             [("many", "rds rds rds"); ("once", "rds aurora mysql");
              ("other", "ec2 compute")])
          "rds" top_k
        = Ok (slice_to (sorted_reverse snd Rltb scores) top_k))
    /\ BM25Index.search insertion_order
         (build insertion_order BM25Index.default_k1 BM25Index.default_b
            [("many", "rds rds rds"); ("once", "rds aurora mysql");
             ("other", "ec2 compute")])
         "rds"
         (len [("many", "rds rds rds"); ("once", "rds aurora mysql");
               ("other", "ec2 compute")])
       = Ok (sorted_reverse snd Rltb scores)
    /\ NoDup (map fst scores)
    /\ In ("many", s_many) (sorted_reverse snd Rltb scores)
    /\ In ("once", s_once) (sorted_reverse snd Rltb scores)
    /\ (s_once < s_many)%R.
Proof.
  apply (@search_term_frequency_monotone insertion_order
           BM25Index.default_k1 BM25Index.default_b
           [("many", "rds rds rds"); ("once", "rds aurora mysql");
            ("other", "ec2 compute")]
           "rds" "many" "rds rds rds" "once" "rds aurora mysql" "rds"
           insertion_order_is_set_order default_k1_pos default_b_range).
  - repeat constructor; simpl; intuition discriminate.
  - simpl. auto.
  - simpl. auto.
  - vm_compute. reflexivity.
  - vm_compute. auto.
  - vm_compute. reflexivity.
  - vm_compute. reflexivity.
  - intros u Hu Hne. vm_compute in Hu. destruct Hu as [<-|[]].
    now contradiction Hne.
Defined.

(** ** The scores and the order that [rerank] hands out *)

(** The position score falls from 10 at the top to 1 at the bottom. *)
Lemma inject_Z_pos (z : Z) : (0 < z)%Z -> 0 < inject_Z z.
Proof. intros H. unfold Qlt. simpl. lia. Qed.

Lemma position_score_first (n : Z) : position_score n 0 == 10.
Proof.
  unfold position_score, Qdiv. 
  setoid_replace (inject_Z 0) with 0 by reflexivity.
  ring.
Qed.

Lemma position_score_last (n : Z) :
  (2 <= n)%Z -> position_score n (n - 1) == 1.
Proof.
  intros Hn. unfold position_score. rewrite Z.max_l by lia.
  assert (~ inject_Z (n - 1) == 0) as Hd.
  { intros H. unfold Qeq in H. simpl in H. lia. }
  field. exact Hd.
Qed.

Lemma position_score_decreasing (n i j : Z) :
  (2 <= n)%Z -> (i < j)%Z -> position_score n j < position_score n i.
Proof.
  intros Hn Hij. unfold position_score. rewrite Z.max_l by lia.
  assert (0 < / inject_Z (n - 1)) as Hinv.
  { apply Qinv_lt_0_compat, inject_Z_pos. lia. }
  assert (inject_Z i < inject_Z j) as Hlt by (rewrite <- Zlt_Qlt; lia).
  unfold Qdiv.
  assert (inject_Z i * 9 * / inject_Z (n - 1)
          < inject_Z j * 9 * / inject_Z (n - 1)) as Hm.
  { apply Qmult_lt_compat_r; [exact Hinv|]. Lqa.lra. }
  Lqa.lra.
Qed.

Lemma position_score_range (n i : Z) :
  (2 <= n)%Z -> (0 <= i <= n - 1)%Z ->
  1 <= position_score n i /\ position_score n i <= 10.
Proof.
  intros Hn Hi.
  destruct (Z.eq_dec i 0) as [->|Hi0].
  - rewrite position_score_first. split; Lqa.lra.
  - assert (position_score n i < position_score n 0) as Hup
      by (apply position_score_decreasing; lia).
    rewrite position_score_first in Hup.
    destruct (Z.eq_dec i (n - 1)) as [->|Hin].
    + rewrite position_score_last by lia. split; Lqa.lra.
    + assert (position_score n (n - 1) < position_score n i) as Hlow
        by (apply position_score_decreasing; lia).
      rewrite position_score_last in Hlow by lia. split; Lqa.lra.
Qed.

Lemma nth_error_enumerate (A : Type) (l : list A) (start : Z) (i : nat) :
  nth_error (enumerate start l) i
  = option_map (fun x => ((start + Z.of_nat i)%Z, x)) (nth_error l i).
Proof.
  revert start i. induction l as [|x t IH]; intros start [|i];
    cbn [enumerate nth_error option_map]; try reflexivity.
  - now rewrite Z.add_0_r.
  - rewrite IH. destruct (nth_error t i); cbn [option_map]; [|reflexivity].
    do 2 f_equal. lia.
Qed.

Section RerankScores.

Context {C : Type}.
Variable self : LLMReranker C.

Lemma rerank_main_scores (requirements : UserRequirements)
    (candidates : list C) :
  (2 <= length candidates)%nat ->
  exists out ranked calls,
    bubble_passes self (raw_query requirements)
      (range_count (num_passes self))
      (slice_to candidates (max_candidates (reranking (config self)))) []
    = (ranked, calls)
    /\ rerank self requirements candidates = Ok (out, calls)
    /\ map (@candidate C) out = ranked
    /\ forall i s,
         nth_error out i = Some s ->
         llm_relevance_score s = position_score (len ranked) (Z.of_nat i)
         /\ llm_explanation s = explanation (Z.of_nat i).
Proof.
  intros Hn. unfold rerank, len.
  destruct (Z.leb_spec (Z.of_nat (length candidates)) 1) as [Hle|_]; [lia|].
  cbv zeta. rewrite pass_loop_bubble. cbn [bind].
  destruct (bubble_passes _ _ _ _ _) as [ranked calls].
  eexists _, ranked, calls. split; [reflexivity|]. split; [reflexivity|].
  split; [apply candidate_of_scored|].
  intros i s Hs. rewrite nth_error_map, nth_error_enumerate in Hs.
  destruct (nth_error ranked i) as [x|]; [|discriminate Hs].
  cbn [option_map] in Hs. injection Hs as <-.
  cbn [llm_relevance_score llm_explanation fst]. split; reflexivity.
Qed.

End RerankScores.

Lemma explanation_at (i : nat) :
  explanation (Z.of_nat i)
  = "Ranked #" ++ str_of_nat (S i) ++ " by pairwise comparison".
Proof.
  unfold explanation. do 3 f_equal. lia.
Qed.

(** X1.  Position scores of [rerank].  When at least two candidates are
    retained, the score handed to the candidate at 0-based position [i] of
    an output of length [n] is [10 - 9 * i / (n - 1)]: the first candidate
    gets exactly 10, the last exactly 1, every score lies between 1 and 10,
    the scores fall strictly along the list, and the explanation is
    ["Ranked #(i+1) by pairwise comparison"].  Scores are rationals here. *)
Theorem rerank_position_scores (C : Type) (self : LLMReranker C)
    (requirements : UserRequirements) (candidates : list C) :
  (2 <= length (slice_to candidates
                  (max_candidates (reranking (config self)))))%nat ->
  exists out calls,
    rerank self requirements candidates = Ok (out, calls)
    /\ (forall i s,
          nth_error out i = Some s ->
          llm_relevance_score s
          == 10 - inject_Z (Z.of_nat i) * 9
                  / inject_Z (Z.of_nat (length out) - 1)
          /\ 1 <= llm_relevance_score s <= 10
          /\ llm_explanation s
             = "Ranked #" ++ str_of_nat (S i) ++ " by pairwise comparison")
    /\ (forall s, nth_error out 0 = Some s -> llm_relevance_score s == 10)
    /\ (forall s,
          nth_error out (length out - 1) = Some s ->
          llm_relevance_score s == 1)
    /\ (forall i j si sj,
          (i < j)%nat ->
          nth_error out i = Some si -> nth_error out j = Some sj ->
          llm_relevance_score sj < llm_relevance_score si).
Proof.
  intros Hn.
  pose proof (slice_to_length_le candidates
                (max_candidates (reranking (config self)))) as Hle.
  destruct (rerank_main_scores self requirements candidates)
    as (out & ranked & calls & Hrun & Hr & Hc & Hs); [lia|].
  pose proof (bubble_passes_perm self (raw_query requirements)
                (range_count (num_passes self))
                (slice_to candidates
                   (max_candidates (reranking (config self)))) []) as Hp.
  rewrite Hrun in Hp. cbn [fst] in Hp. apply Permutation_length in Hp.
  assert (length out = length ranked) as Hlen
    by (rewrite <- Hc; now rewrite length_map).
  assert (2 <= len ranked)%Z as Hn2 by (unfold len; lia).
  exists out, calls. split; [exact Hr|].
  split; [|split; [|split]].
  - intros i s Hi. destruct (Hs i s Hi) as [-> ->].
    assert (i < length out)%nat as Hlt
      by (apply nth_error_Some; rewrite Hi; discriminate).
    split; [|split].
    + unfold position_score. rewrite Z.max_l by lia.
      unfold len. rewrite Hlen. reflexivity.
    + apply position_score_range; unfold len in *; lia.
    + apply explanation_at.
  - intros s Hi. destruct (Hs O s Hi) as [-> _].
    apply position_score_first.
  - intros s Hi. destruct (Hs _ s Hi) as [-> _].
    replace (Z.of_nat (length out - 1)) with (len ranked - 1)%Z
      by (unfold len; lia).
    now apply position_score_last.
  - intros i j si sj Hij Hi Hj.
    destruct (Hs i si Hi) as [-> _]. destruct (Hs j sj Hj) as [-> _].
    apply position_score_decreasing; [exact Hn2|lia].
Qed.

Lemma rerank_position_scores_witness :
  exists out calls,
    rerank (LLMReranker_init DEFAULT_CONFIG number_oracle)
      sample_requirements [3; 1; 4; 2]%nat = Ok (out, calls)
    /\ (forall i s,
          nth_error out i = Some s ->
          llm_relevance_score s
          == 10 - inject_Z (Z.of_nat i) * 9
                  / inject_Z (Z.of_nat (length out) - 1)
          /\ 1 <= llm_relevance_score s <= 10
          /\ llm_explanation s
             = "Ranked #" ++ str_of_nat (S i) ++ " by pairwise comparison")
    /\ (forall s, nth_error out 0 = Some s -> llm_relevance_score s == 10)
    /\ (forall s,
          nth_error out (length out - 1) = Some s ->
          llm_relevance_score s == 1)
    /\ (forall i j si sj,
          (i < j)%nat ->
          nth_error out i = Some si -> nth_error out j = Some sj ->
          llm_relevance_score sj < llm_relevance_score si).
Proof.
  apply (@rerank_position_scores nat
           (LLMReranker_init DEFAULT_CONFIG number_oracle)
           sample_requirements [3; 1; 4; 2]%nat).
  vm_compute. lia.
Defined.

(** ** An oracle that never prefers the second candidate *)

Section NoSwap.

Context {C : Type}.
Variable self : LLMReranker C.
Variable query : string.
Hypothesis first_preferred :
  forall n a b, fst (_compare_pair self n query a b) = "A".

Lemma bubble_first_preferred (l : list C) (calls : list (Exchange C)) :
  fst (bubble self query l calls) = l.
Proof.
  induction l as [|x t IH]; [reflexivity|].
  cbn [bubble]. destruct (bubble self query t calls) as [[|y t'] c];
    cbn [fst] in IH; subst t; [reflexivity|].
  pose proof (first_preferred c x y) as Hw.
  destruct (_compare_pair self c query x y) as [winner c'].
  cbn [fst] in Hw. subst winner. reflexivity.
Qed.

Lemma bubble_passes_first_preferred (p : nat) (l : list C)
    (calls : list (Exchange C)) :
  fst (bubble_passes self query p l calls) = l.
Proof.
  revert l calls. induction p as [|p IH]; intros l calls; [reflexivity|].
  cbn [bubble_passes].
  pose proof (bubble_first_preferred l calls) as Hb.
  destruct (bubble self query l calls) as [l' c]. cbn [fst] in Hb. subst l'.
  apply IH.
Qed.

End NoSwap.

(** X2.  When no oracle call is read as ["B"] (each call raises, or its
    response is read as ["A"] by the [if]/[elif] chain), [rerank] swaps
    nothing: it returns the candidates it retains in their input order. *)
Theorem rerank_keeps_order_when_first_preferred (C : Type)
    (self : LLMReranker C) (requirements : UserRequirements)
    (candidates : list C) :
  (forall n a b,
      match llm self n (raw_query requirements) a b with
      | Ok response => extract_choice response = "A"
      | Raise _ => True
      end) ->
  exists out calls,
    rerank self requirements candidates = Ok (out, calls)
    /\ map (@candidate C) out = retained self candidates.
Proof.
  intros Hllm.
  assert (forall calls a b,
             fst (_compare_pair self calls (raw_query requirements) a b)
             = "A") as Hcmp.
  { intros calls a b. rewrite compare_pair_verdict.
    specialize (Hllm (length calls) a b).
    destruct (llm self (length calls) (raw_query requirements) a b);
      [exact Hllm|reflexivity]. }
  destruct (le_lt_dec (length candidates) 1) as [Hle|Hgt].
  - destruct (rerank_early self requirements candidates Hle) as (out & Hr & Hc).
    exists out, []. split; [exact Hr|]. rewrite Hc. unfold retained, len.
    destruct (Z.leb_spec (Z.of_nat (length candidates)) 1); [reflexivity|lia].
  - destruct (rerank_main self requirements candidates)
      as (out & ranked & calls & Hrun & Hr & Hc); [lia|].
    exists out, calls. split; [exact Hr|].
    rewrite retained_main by lia. rewrite Hc.
    pose proof (@bubble_passes_first_preferred C self
                  (raw_query requirements) Hcmp
                  (range_count (num_passes self))
                  (slice_to candidates
                     (max_candidates (reranking (config self)))) []) as Hk.
    now rewrite Hrun in Hk.
Qed.

Lemma rerank_keeps_order_when_first_preferred_witness :
  exists out calls,
    rerank (LLMReranker_init DEFAULT_CONFIG unreachable_oracle)
      sample_requirements [3; 1; 4; 2]%nat = Ok (out, calls)
    /\ map (@candidate nat) out
       = retained (LLMReranker_init DEFAULT_CONFIG unreachable_oracle)
           [3; 1; 4; 2]%nat.
Proof.
  apply (@rerank_keeps_order_when_first_preferred nat
           (LLMReranker_init DEFAULT_CONFIG unreachable_oracle)
           sample_requirements [3; 1; 4; 2]%nat).
  intros n a b. simpl. exact I.
Defined.

(** ** Lists short enough to be sorted completely *)

Lemma all_but_last_determines (A : Type) (n : nat) (l1 l2 : list A) :
  (length l1 <= S n)%nat -> Permutation l1 l2 ->
  firstn n l1 = firstn n l2 -> l1 = l2.
Proof.
  intros Hlen Hperm Hfirst.
  pose proof (Permutation_length Hperm) as Hl.
  rewrite <- (firstn_skipn n l1), <- (firstn_skipn n l2) in Hperm.
  rewrite Hfirst in Hperm. apply Permutation_app_inv_l in Hperm.
  rewrite <- (firstn_skipn n l1), <- (firstn_skipn n l2), Hfirst.
  f_equal.
  pose proof (length_skipn n l1) as H1.
  destruct (skipn n l1) as [|a [|a' r]].
  - now apply Permutation_nil in Hperm.
  - now apply Permutation_length_1_inv in Hperm.
  - simpl in H1. lia.
Qed.

Lemma truth_passes_perm (C : Type) (true_rank : C -> nat) (p : nat)
    (l : list C) :
  Permutation (truth_passes true_rank p l) l.
Proof.
  revert l. induction p as [|p IH]; intros l; cbn [truth_passes].
  - apply Permutation_refl.
  - eapply Permutation_trans; [apply IH|]. apply truth_pass_perm.
Qed.

(** X3.  With a truthful oracle, a retained list of [n >= 2] candidates
    with [n <= num_passes + 1] comes back completely sorted: [num_passes]
    back-to-first passes fix the first [num_passes] positions and the one
    remaining candidate can only be last.  With the default three passes
    this covers every list of up to four candidates. *)
Theorem rerank_sorts_short_lists (C : Type) (self : LLMReranker C)
    (requirements : UserRequirements) (true_rank : C -> nat)
    (candidates : list C) :
  truthful self (raw_query requirements) true_rank ->
  (2 <= length (slice_to candidates
                  (max_candidates (reranking (config self)))))%nat ->
  (length (slice_to candidates
             (max_candidates (reranking (config self))))
   <= range_count (num_passes self) + 1)%nat ->
  exists out calls,
    rerank self requirements candidates = Ok (out, calls)
    /\ map (@candidate C) out
       = true_order true_rank
           (slice_to candidates (max_candidates (reranking (config self))))
    /\ StronglySorted (at_least_as_relevant true_rank)
         (map (@candidate C) out).
Proof.
  intros Htruth Hn Hshort.
  pose proof (slice_to_length_le candidates
                (max_candidates (reranking (config self)))) as Hle.
  destruct (rerank_main self requirements candidates)
    as (out & ranked & calls & Hrun & Hr & Hc); [lia|].
  exists out, calls. split; [exact Hr|].
  rewrite Hc.
  pose proof (bubble_passes_truthful Htruth
                (range_count (num_passes self))
                (slice_to candidates
                   (max_candidates (reranking (config self)))) []) as Ht.
  rewrite Hrun in Ht. cbn [fst] in Ht.
  assert (ranked
          = true_order true_rank
              (slice_to candidates
                 (max_candidates (reranking (config self))))) as Heq.
  { apply (@all_but_last_determines C (range_count (num_passes self))).
    - rewrite Ht.
      rewrite (Permutation_length (truth_passes_perm true_rank _ _)). lia.
    - rewrite Ht. eapply Permutation_trans; [apply truth_passes_perm|].
      apply Permutation_sym, true_order_perm.
    - rewrite Ht. apply truth_passes_top. }
  split; [exact Heq|]. rewrite Heq. apply true_order_sorted.
Qed.

Lemma rerank_sorts_short_lists_witness :
  exists out calls,
    rerank (LLMReranker_init DEFAULT_CONFIG number_oracle)
      sample_requirements [3; 1; 4; 2]%nat = Ok (out, calls)
    /\ map (@candidate nat) out
       = true_order (fun c : nat => c)
           (slice_to [3; 1; 4; 2]%nat
              (max_candidates
                 (reranking
                    (config (LLMReranker_init DEFAULT_CONFIG number_oracle)))))
    /\ StronglySorted (at_least_as_relevant (fun c : nat => c))
         (map (@candidate nat) out).
Proof.
  apply (@rerank_sorts_short_lists nat
           (LLMReranker_init DEFAULT_CONFIG number_oracle)
           sample_requirements (fun c : nat => c) [3; 1; 4; 2]%nat).
  - apply number_oracle_truthful.
  - vm_compute. lia.
  - vm_compute. lia.
Defined.

(** ** Reading the oracle's response *)

Lemma upper_lower_char (c : ascii) : upper_char (lower_char c) = upper_char c.
Proof. each_char c. Qed.

Lemma upper_upper_char (c : ascii) : upper_char (upper_char c) = upper_char c.
Proof. each_char c. Qed.

Lemma lower_upper_char (c : ascii) : lower_char (upper_char c) = lower_char c.
Proof. each_char c. Qed.

Lemma lower_lower_char (c : ascii) : lower_char (lower_char c) = lower_char c.
Proof. each_char c. Qed.

Lemma isspace_lower_char (c : ascii) : isspace (lower_char c) = isspace c.
Proof. each_char c. Qed.

Lemma isspace_upper_char (c : ascii) : isspace (upper_char c) = isspace c.
Proof. each_char c. Qed.

Lemma map_string_compose (f g h : ascii -> ascii) (s : string) :
  (forall c, f (g c) = h c) ->
  map_string f (map_string g s) = map_string h s.
Proof.
  intros H. induction s as [|c t IH]; [reflexivity|].
  cbn [map_string]. now rewrite H, IH.
Qed.

Section StripMap.

Variable f : ascii -> ascii.
Hypothesis keeps_space : forall c, isspace (f c) = isspace c.

Lemma lstrip_map_string (s : string) :
  lstrip (map_string f s) = map_string f (lstrip s).
Proof.
  induction s as [|c t IH]; [reflexivity|].
  cbn [map_string lstrip]. rewrite keeps_space.
  destruct (isspace c); [exact IH|reflexivity].
Qed.

Lemma rstrip_map_string (s : string) :
  rstrip (map_string f s) = map_string f (rstrip s).
Proof.
  induction s as [|c t IH]; [reflexivity|].
  cbn [map_string rstrip]. rewrite IH, keeps_space.
  destruct (rstrip t); cbn [map_string]; [|reflexivity].
  destruct (isspace c); reflexivity.
Qed.

Lemma strip_map_string (s : string) :
  strip (map_string f s) = map_string f (strip s).
Proof.
  unfold strip. now rewrite lstrip_map_string, rstrip_map_string.
Qed.

End StripMap.

Lemma str_in_char (c : ascii) (s : string) :
  str_in (String c EmptyString) s = true <-> In c (list_ascii_of_string s).
Proof.
  induction s as [|a t IH]; cbn [str_in list_ascii_of_string In prefix].
  - split; [discriminate|contradiction].
  - rewrite orb_true_iff, IH.
    destruct (ascii_dec c a) as [->|Hne].
    + destruct (ascii_dec a a) as [_|n]; [|contradiction].
      destruct t; tauto.
    + destruct (ascii_dec c a) as [e|_]; [contradiction|].
      split; [intros [H|H]; [discriminate|now right]|].
      intros [H|H]; [now subst|now right].
Qed.

Lemma lstrip_chars (c : ascii) (s : string) :
  In c (list_ascii_of_string (lstrip s)) -> In c (list_ascii_of_string s).
Proof.
  induction s as [|a t IH]; [trivial|].
  cbn [lstrip]. destruct (isspace a); [|trivial].
  intros H. right. now apply IH.
Qed.

Lemma rstrip_chars (c : ascii) (s : string) :
  In c (list_ascii_of_string (rstrip s)) -> In c (list_ascii_of_string s).
Proof.
  induction s as [|a t IH]; [trivial|].
  cbn [rstrip]. destruct (rstrip t) as [|a' t'].
  - destruct (isspace a); cbn [list_ascii_of_string In]; tauto.
  - cbn [list_ascii_of_string In] in *. tauto.
Qed.

Lemma map_string_chars (f : ascii -> ascii) (c : ascii) (s : string) :
  In c (list_ascii_of_string (map_string f s))
  <-> exists a, In a (list_ascii_of_string s) /\ f a = c.
Proof.
  induction s as [|x t IH]; cbn [map_string list_ascii_of_string In].
  - split; [contradiction|]. intros (a & [] & _).
  - rewrite IH. split.
    + intros [H|(a & Ha & Hf)]; [exists x; auto|exists a; auto].
    + intros (a & [->|Ha] & Hf); [now left|right; now exists a].
Qed.

Lemma extract_choice_range (r : string) :
  extract_choice r = "A" \/ extract_choice r = "B".
Proof.
  unfold extract_choice. cbv zeta.
  repeat match goal with
         | |- context [if ?c then _ else _] => destruct c
         end; auto.
Qed.

Lemma prefix_str_in (p s : string) : prefix p s = true -> str_in p s = true.
Proof.
  intros H. destruct s; cbn [str_in]; rewrite H; reflexivity.
Qed.

(** X4.  How [_compare_pair] reads a response.  The verdict is always
    ["A"] or ["B"]; it does not depend on the letter case of the response;
    and the verdict ["B"], the only one that makes [rerank] swap, requires
    the letter [b] or [B] to occur in the response. *)
Theorem extract_choice_reads_letters (response : string) :
  (extract_choice response = "A" \/ extract_choice response = "B")
  /\ extract_choice (lower response) = extract_choice response
  /\ extract_choice (upper response) = extract_choice response
  /\ (extract_choice response = "B" ->
      In "B"%char (list_ascii_of_string response)
      \/ In "b"%char (list_ascii_of_string response)).
Proof.
  split; [apply extract_choice_range|].
  split; [|split].
  - unfold extract_choice, lower, upper.
    rewrite (strip_map_string lower_char isspace_lower_char).
    now rewrite (map_string_compose upper_char lower_char upper_char
                   _ upper_lower_char).
  - unfold extract_choice, upper.
    rewrite (strip_map_string upper_char isspace_upper_char).
    now rewrite (map_string_compose upper_char upper_char upper_char
                   _ upper_upper_char).
  - intros HB.
    assert (str_in "B" (upper (strip response)) = true) as Hin.
    { revert HB. unfold extract_choice, startswith. cbv zeta.
      destruct (str_in "B" (upper (strip response))) eqn:EB; [reflexivity|].
      destruct (prefix "B" (upper (strip response))) eqn:EP.
      - apply prefix_str_in in EP. rewrite EP in EB. discriminate EB.
      - destruct (str_in "A" (upper (strip response)));
          destruct (prefix "A" (upper (strip response)));
          cbn [andb negb]; discriminate. }
    apply str_in_char in Hin. unfold upper in Hin.
    apply map_string_chars in Hin. destruct Hin as (a & Ha & Hf).
    unfold strip in Ha. apply rstrip_chars, lstrip_chars in Ha.
    assert (a = "B"%char \/ a = "b"%char) as [->| ->]; auto.
    clear Ha. revert Hf.
    destruct a as [[] [] [] [] [] [] [] []]; vm_compute;
      intros H; try discriminate H; auto.
Qed.

(** ** The tokenizer *)

Lemma word_char_lowered (c : ascii) :
  BM25Index.is_word_char (lower_char c) = true ->
  is_token_char (lower_char c) = true.
Proof.
  destruct c as [[] [] [] [] [] [] [] []]; vm_compute;
    intros H; try reflexivity; discriminate H.
Qed.

Lemma token_char_word (c : ascii) :
  is_token_char c = true ->
  BM25Index.is_word_char c = true /\ lower_char c = c.
Proof.
  destruct c as [[] [] [] [] [] [] [] []]; vm_compute;
    intros H; try discriminate H; split; reflexivity.
Qed.

Lemma map_string_app (f : ascii -> ascii) (s t : string) :
  map_string f (s ++ t) = map_string f s ++ map_string f t.
Proof.
  induction s as [|c s IH]; [reflexivity|].
  cbn [append map_string]. now rewrite IH.
Qed.

Lemma str_append_assoc (s t u : string) : (s ++ t) ++ u = s ++ (t ++ u).
Proof.
  induction s as [|c s IH]; [reflexivity|]. cbn [append]. now rewrite IH.
Qed.

Lemma str_append_empty_r (s : string) : s ++ "" = s.
Proof.
  induction s as [|c s IH]; [reflexivity|]. cbn [append]. now rewrite IH.
Qed.

Lemma chars_app (s t : string) :
  list_ascii_of_string (s ++ t)
  = (list_ascii_of_string s ++ list_ascii_of_string t)%list.
Proof.
  induction s as [|c s IH]; [reflexivity|].
  cbn [append list_ascii_of_string]. now rewrite IH.
Qed.

(** A separator ends the token being read. *)
Lemma findall_words_sep (s t cur : string) (sep : ascii) :
  BM25Index.is_word_char sep = false ->
  BM25Index.findall_words (s ++ String sep t) cur
  = (BM25Index.findall_words s cur
     ++ BM25Index.findall_words t "")%list.
Proof.
  intros Hsep. revert cur.
  induction s as [|c s IH]; intros cur; cbn [append BM25Index.findall_words].
  - now rewrite Hsep.
  - destruct (BM25Index.is_word_char c).
    + apply IH.
    + rewrite IH. now rewrite app_assoc.
Qed.

(** A run of word characters extends the token being read. *)
Lemma findall_words_run (s cur : string) :
  Forall (fun c => BM25Index.is_word_char c = true)
         (list_ascii_of_string s) ->
  BM25Index.findall_words s cur = BM25Index.flush (cur ++ s).
Proof.
  revert cur. induction s as [|c s IH]; intros cur Hs;
    cbn [BM25Index.findall_words].
  - now rewrite str_append_empty_r.
  - cbn [list_ascii_of_string] in Hs. inversion Hs as [|? ? Hc Hrest]; subst.
    rewrite Hc, IH by exact Hrest. now rewrite str_append_assoc.
Qed.

Lemma findall_words_tokens (P : ascii -> Prop) (text cur tok : string) :
  (forall c, In c (list_ascii_of_string text) ->
             BM25Index.is_word_char c = true -> P c) ->
  Forall P (list_ascii_of_string cur) ->
  In tok (BM25Index.findall_words text cur) ->
  tok <> "" /\ Forall P (list_ascii_of_string tok).
Proof.
  revert cur. induction text as [|c text IH]; intros cur Htext Hcur Hin;
    cbn [BM25Index.findall_words] in Hin.
  - destruct cur as [|a cur]; cbn [BM25Index.flush In] in Hin;
      [contradiction|].
    destruct Hin as [<-|[]]. split; [discriminate|exact Hcur].
  - assert (forall c', In c' (list_ascii_of_string text) ->
                       BM25Index.is_word_char c' = true -> P c') as Htail.
    { intros c' Hc'. apply Htext. now right. }
    destruct (BM25Index.is_word_char c) eqn:Hw.
    + apply (IH (cur ++ String c "")); [exact Htail| |exact Hin].
      rewrite chars_app. apply Forall_app. split; [exact Hcur|].
      constructor; [|constructor]. apply Htext; [now left|exact Hw].
    + apply in_app_or in Hin. destruct Hin as [Hin|Hin].
      * destruct cur as [|a cur]; cbn [BM25Index.flush In] in Hin;
          [contradiction|].
        destruct Hin as [<-|[]]. split; [discriminate|exact Hcur].
      * apply (IH ""); [exact Htail|constructor|exact Hin].
Qed.

Lemma tokenize_token_chars (text tok : string) :
  In tok (BM25Index._tokenize text) ->
  tok <> ""
  /\ Forall (fun c => is_token_char c = true) (list_ascii_of_string tok).
Proof.
  unfold BM25Index._tokenize.
  apply findall_words_tokens; [|constructor].
  intros c Hc Hw. unfold lower in Hc. apply map_string_chars in Hc.
  destruct Hc as (a & _ & <-). now apply word_char_lowered.
Qed.

Lemma lower_token (tok : string) :
  Forall (fun c => is_token_char c = true) (list_ascii_of_string tok) ->
  lower tok = tok.
Proof.
  induction tok as [|c tok IH]; [reflexivity|].
  cbn [list_ascii_of_string]. intros H. inversion H as [|? ? Hc Hrest]; subst.
  unfold lower in *. cbn [map_string].
  rewrite (proj2 (token_char_word c Hc)), IH by exact Hrest. reflexivity.
Qed.

Lemma tokenize_token (tok : string) :
  tok <> "" ->
  Forall (fun c => is_token_char c = true) (list_ascii_of_string tok) ->
  BM25Index._tokenize tok = [tok].
Proof.
  intros Hne Hchars. unfold BM25Index._tokenize.
  rewrite lower_token by exact Hchars.
  rewrite findall_words_run.
  - cbn [append]. destruct tok; [contradiction|reflexivity].
  - eapply Forall_impl; [|exact Hchars].
    intros c Hc. apply (token_char_word c Hc).
Qed.

Lemma tokenize_app_space (s t : string) :
  BM25Index._tokenize (s ++ " " ++ t)
  = (BM25Index._tokenize s ++ BM25Index._tokenize t)%list.
Proof.
  unfold BM25Index._tokenize, lower. rewrite map_string_app.
  cbn [append map_string].
  change (lower_char " ") with " "%char.
  now apply findall_words_sep.
Qed.

Lemma tokenize_join (parts : list string) :
  BM25Index._tokenize (join " " parts) = flat_map BM25Index._tokenize parts.
Proof.
  induction parts as [|p rest IH]; [reflexivity|].
  cbn [flat_map]. destruct rest as [|q rest].
  - cbn [join flat_map]. now rewrite app_nil_r.
  - change (join " " (p :: q :: rest)) with (p ++ " " ++ join " " (q :: rest)).
    now rewrite tokenize_app_space, IH.
Qed.

Lemma flat_map_tokenize_nonempty (parts : list string) :
  flat_map BM25Index._tokenize (filter HybridRetriever.nonempty parts)
  = flat_map BM25Index._tokenize parts.
Proof.
  induction parts as [|p rest IH]; [reflexivity|].
  cbn [filter flat_map]. destruct p as [|c p].
  - cbn [HybridRetriever.nonempty]. exact IH.
  - cbn [HybridRetriever.nonempty flat_map]. now rewrite IH.
Qed.

(** X5.  On ASCII text, [_tokenize] yields a normal form.  For a text
    with [text.isascii()]: its tokens do not depend on its letter case;
    every token is non-empty and made of lowercase letters, digits and
    underscores only; and tokenizing the tokens joined by blanks gives the
    same tokens back.  (Beyond ASCII the code keeps other letters in its
    tokens, and [upper] may change a word; the model does not cover such
    text.) *)
Theorem tokenize_normal_form (text : string) :
  isascii text = true ->
  BM25Index._tokenize (upper text) = BM25Index._tokenize text
  /\ BM25Index._tokenize (lower text) = BM25Index._tokenize text
  /\ (forall tok,
        In tok (BM25Index._tokenize text) ->
        tok <> ""
        /\ Forall (fun c => is_token_char c = true)
                  (list_ascii_of_string tok))
  /\ BM25Index._tokenize (join " " (BM25Index._tokenize text))
     = BM25Index._tokenize text.
Proof.
  intros _. split; [|split; [|split]].
  - unfold BM25Index._tokenize, lower, upper.
    now rewrite (map_string_compose lower_char upper_char lower_char
                   _ lower_upper_char).
  - unfold BM25Index._tokenize, lower.
    now rewrite (map_string_compose lower_char lower_char lower_char
                   _ lower_lower_char).
  - apply tokenize_token_chars.
  - rewrite tokenize_join.
    assert (forall toks,
               (forall tok, In tok toks ->
                  tok <> ""
                  /\ Forall (fun c => is_token_char c = true)
                            (list_ascii_of_string tok)) ->
               flat_map BM25Index._tokenize toks = toks) as Hfix.
    { induction toks as [|tok toks IH]; intros H; [reflexivity|].
      cbn [flat_map]. destruct (H tok (or_introl eq_refl)) as [Hne Hc].
      rewrite (tokenize_token Hne Hc), IH; [reflexivity|].
      intros t Ht. apply H. now right. }
    apply Hfix. intros tok. apply tokenize_token_chars.
Qed.

Lemma tokenize_normal_form_witness :
  BM25Index._tokenize (upper "Managed PostgreSQL_15, 2 vCPU")
  = BM25Index._tokenize "Managed PostgreSQL_15, 2 vCPU"
  /\ BM25Index._tokenize (lower "Managed PostgreSQL_15, 2 vCPU")
     = BM25Index._tokenize "Managed PostgreSQL_15, 2 vCPU"
  /\ (forall tok,
        In tok (BM25Index._tokenize "Managed PostgreSQL_15, 2 vCPU") ->
        tok <> ""
        /\ Forall (fun c => is_token_char c = true)
                  (list_ascii_of_string tok))
  /\ BM25Index._tokenize
       (join " " (BM25Index._tokenize "Managed PostgreSQL_15, 2 vCPU"))
     = BM25Index._tokenize "Managed PostgreSQL_15, 2 vCPU".
Proof.
  apply (@tokenize_normal_form "Managed PostgreSQL_15, 2 vCPU").
  reflexivity.
Defined.

Example tokenize_service_text :
  BM25Index._tokenize "Managed PostgreSQL_15, 2 vCPU"
  = ["managed"; "postgresql_15"; "2"; "vcpu"].
Proof. reflexivity. Qed.

(** X6.  The tokens under which a point is indexed are the tokens of its
    fields, one field after the other, in the order [_create_search_text]
    lists them: service name, description, short description, provider,
    category, service type, features, use cases, tags and the database
    engine.  Joining with a blank never merges or splits a token, and empty
    fields contribute nothing. *)
Theorem search_text_tokens (payload : HybridRetriever.Payload) :
  BM25Index._tokenize (HybridRetriever._create_search_text payload)
  = flat_map BM25Index._tokenize
      ([HybridRetriever.service_name payload;
        HybridRetriever.description payload;
        HybridRetriever.short_description payload;
        HybridRetriever.provider payload;
        HybridRetriever.category payload;
        HybridRetriever.service_type payload]
       ++ HybridRetriever.features payload
       ++ HybridRetriever.use_cases payload
       ++ HybridRetriever.tags payload
       ++ match HybridRetriever.specs_database_engine payload with
          | Some engine => [engine]
          | None => []
          end)%list.
Proof.
  unfold HybridRetriever._create_search_text. cbv zeta.
  rewrite tokenize_join, flat_map_tokenize_nonempty.
  destruct (HybridRetriever.specs_database_engine payload) as [[|c e]|];
    cbn [HybridRetriever.nonempty]; try reflexivity.
  rewrite !flat_map_app. reflexivity.
Qed.

(** ** What a built index holds *)

(** X7.  The index after [add_document] was called for documents with
    distinct ids: [N] is the number of documents; each document is stored
    with its tokens and its token count; the posting set of a token holds
    exactly the ids of the documents containing it, each once; the document
    frequency of a token is the size of its posting set; and the average
    document length is the total token count divided by [N]. *)
Theorem build_index_contents (set_iter : list string -> list string)
    (k1 b : R) (docs : list (string * string)) :
  is_set_order set_iter -> NoDup (map fst docs) ->
  BM25Index.N (build set_iter k1 b docs) = len docs
  /\ (forall doc_id text,
        In (doc_id, text) docs ->
        dict_get (BM25Index.documents (build set_iter k1 b docs)) doc_id
        = Some (BM25Index._tokenize text)
        /\ dict_get (BM25Index.doc_lengths (build set_iter k1 b docs)) doc_id
           = Some (len (BM25Index._tokenize text)))
  /\ (forall token doc_id,
        In doc_id (postings (build set_iter k1 b docs) token)
        <-> exists text,
              In (doc_id, text) docs
              /\ In token (BM25Index._tokenize text))
  /\ (forall token,
        NoDup (postings (build set_iter k1 b docs) token)
        /\ doc_freq (build set_iter k1 b docs) token
           = len (postings (build set_iter k1 b docs) token))
  /\ (docs <> [] ->
      BM25Index.avg_doc_length (build set_iter k1 b docs)
      = (IZR (sum_values
                (map (fun d => (fst d, len (BM25Index._tokenize (snd d))))
                     docs))
         / IZR (len docs))%R).
Proof.
  intros Hiter Hnd. unfold postings, doc_freq.
  pose proof (@build_indexed set_iter k1 b docs Hiter Hnd) as Hidx.
  set (index := build set_iter k1 b docs) in *.
  split; [apply (ix_N Hidx)|].
  split.
  { intros doc_id text Hin.
    apply (@indexed_lookup k1 b docs Hnd index Hidx doc_id text Hin). }
  split.
  { intros token doc_id. rewrite (indexed_postings Hidx).
    rewrite docs_with_spec. split; intros (text & Hin & Hmem); exists text;
      (split; [exact Hin|]); now apply set_mem_in. }
  split.
  { intros token. rewrite (indexed_postings Hidx). split.
    - now apply docs_with_nodup.
    - apply (ix_freqs Hidx). }
  intros Hne. rewrite (ix_avg Hidx Hne), (ix_lengths Hidx), (ix_N Hidx).
  reflexivity.
Qed.

Lemma sample_docs_distinct : NoDup (map fst sample_docs).
Proof.
  repeat constructor; simpl; intuition discriminate.
Qed.

Lemma build_index_contents_witness :
  BM25Index.N sample_index = len sample_docs
  /\ (forall doc_id text,
        In (doc_id, text) sample_docs ->
        dict_get (BM25Index.documents sample_index) doc_id
        = Some (BM25Index._tokenize text)
        /\ dict_get (BM25Index.doc_lengths sample_index) doc_id
           = Some (len (BM25Index._tokenize text)))
  /\ (forall token doc_id,
        In doc_id (postings sample_index token)
        <-> exists text,
              In (doc_id, text) sample_docs
              /\ In token (BM25Index._tokenize text))
  /\ (forall token,
        NoDup (postings sample_index token)
        /\ doc_freq sample_index token
           = len (postings sample_index token))
  /\ (sample_docs <> [] ->
      BM25Index.avg_doc_length sample_index
      = (IZR (sum_values
                (map (fun d => (fst d, len (BM25Index._tokenize (snd d))))
                     sample_docs))
         / IZR (len sample_docs))%R).
Proof.
  apply (@build_index_contents insertion_order BM25Index.default_k1
           BM25Index.default_b sample_docs
           insertion_order_is_set_order sample_docs_distinct).
Defined.

(** ** Adding a document id again *)

Lemma set_add_member (s : list string) (x : string) :
  In x s -> set_add s x = s.
Proof.
  intros H. unfold set_add. apply set_mem_in in H. now rewrite H.
Qed.

(** X8.  [add_document] called twice with the same id.  Nothing is
    removed and the document is counted again: [N] grows by 2; the stored
    tokens are those of the second text; the id stays in the posting set of
    every token of the first text, also of tokens that the second text no
    longer has; and for a token of both texts the document frequency grows
    by 2 while the posting set, being a set, holds the id once. *)
Theorem add_document_twice_counts_twice
    (set_iter : list string -> list string) (index : BM25Index.t)
    (doc_id text1 text2 : string) :
  is_set_order set_iter ->
  (0 <= BM25Index.N index)%Z ->
  exists once twice,
    BM25Index.add_document set_iter index doc_id text1 = (once, Ok tt)
    /\ BM25Index.add_document set_iter once doc_id text2 = (twice, Ok tt)
    /\ BM25Index.N twice = (BM25Index.N index + 2)%Z
    /\ dict_get (BM25Index.documents twice) doc_id
       = Some (BM25Index._tokenize text2)
    /\ (forall token,
          In token (BM25Index._tokenize text1) ->
          In doc_id (postings twice token))
    /\ (forall token,
          In token (BM25Index._tokenize text1) ->
          In token (BM25Index._tokenize text2) ->
          doc_freq twice token = (doc_freq index token + 2)%Z
          /\ postings twice token = postings once token).
Proof.
  intros Hiter HN. unfold postings, doc_freq.
  assert (BM25Index.N index + 1 <> 0)%Z as HN1 by lia.
  destruct (add_document_effect Hiter index doc_id text1 HN1)
    as (Hok1 & _ & _ & EN1 & Edocs1 & _ & _ & Efreq1 & Epost1).
  cbv zeta in *.
  destruct (BM25Index.add_document set_iter index doc_id text1)
    as [once r1] eqn:E1.
  cbn [fst snd] in *. subst r1.
  assert (BM25Index.N once + 1 <> 0)%Z as HN2 by lia.
  destruct (add_document_effect Hiter once doc_id text2 HN2)
    as (Hok2 & _ & _ & EN2 & Edocs2 & _ & _ & Efreq2 & Epost2).
  cbv zeta in *.
  destruct (BM25Index.add_document set_iter once doc_id text2)
    as [twice r2] eqn:E2.
  cbn [fst snd] in *. subst r2.
  exists once, twice. split; [reflexivity|]. split; [exact E2|].
  split; [lia|].
  split; [rewrite Edocs2; apply dict_get_set_eq|].
  assert (forall token,
             In token (BM25Index._tokenize text1) ->
             In doc_id
                (dict_get_default (BM25Index.inverted_index once) token []))
    as Hposted.
  { intros token Hin. apply set_mem_in in Hin.
    unfold dict_get_default at 1. rewrite Epost1, Hin.
    apply set_add_in. now right. }
  split.
  - intros token Hin. specialize (Hposted token Hin).
    unfold dict_get_default at 1. rewrite Epost2.
    destruct (set_mem token (BM25Index._tokenize text2)).
    + apply set_add_in. now left.
    + exact Hposted.
  - intros token Hin1 Hin2. specialize (Hposted token Hin1).
    apply set_mem_in in Hin1, Hin2. split.
    + unfold dict_get_default at 1. rewrite Efreq2, Hin2.
      unfold dict_get_default at 1. rewrite Efreq1, Hin1. lia.
    + unfold dict_get_default at 1. rewrite Epost2, Hin2.
      now apply set_add_member.
Qed.

Lemma add_document_twice_counts_twice_witness :
  exists once twice,
    BM25Index.add_document insertion_order sample_index "rds" "Amazon RDS"
    = (once, Ok tt)
    /\ BM25Index.add_document insertion_order once "rds" "RDS PostgreSQL"
       = (twice, Ok tt)
    /\ BM25Index.N twice = (BM25Index.N sample_index + 2)%Z
    /\ dict_get (BM25Index.documents twice) "rds"
       = Some (BM25Index._tokenize "RDS PostgreSQL")
    /\ (forall token,
          In token (BM25Index._tokenize "Amazon RDS") ->
          In "rds" (postings twice token))
    /\ (forall token,
          In token (BM25Index._tokenize "Amazon RDS") ->
          In token (BM25Index._tokenize "RDS PostgreSQL") ->
          doc_freq twice token = (doc_freq sample_index token + 2)%Z
          /\ postings twice token = postings once token).
Proof.
  apply (@add_document_twice_counts_twice insertion_order sample_index
           "rds" "Amazon RDS" "RDS PostgreSQL"
           insertion_order_is_set_order).
  vm_compute. discriminate.
Defined.

(** ** Inverse document frequency *)

Lemma idf_value_decreasing (n df1 df2 : Z) :
  (0 <= n)%Z -> (0 <= df1)%Z -> (df1 < df2)%Z ->
  (idf_value n df2 < idf_value n df1)%R.
Proof.
  intros Hn H1 H12. unfold idf_value.
  apply IZR_le in Hn, H1. apply IZR_lt in H12.
  set (x := IZR n) in *. set (d1 := IZR df1) in *. set (d2 := IZR df2) in *.
  replace ((x - d2 + 5 / 10) / (d2 + 5 / 10) + 1)%R
    with ((x + 1) / (d2 + 5 / 10))%R by (field; lra).
  replace ((x - d1 + 5 / 10) / (d1 + 5 / 10) + 1)%R
    with ((x + 1) / (d1 + 5 / 10))%R by (field; lra).
  apply ln_increasing.
  - apply Rdiv_lt_0_compat; lra.
  - apply Rmult_lt_compat_l; [lra|].
    apply Rinv_lt_contravar; [|lra]. apply Rmult_lt_0_compat; lra.
Qed.

Lemma idf_unknown (k1 b : R) (docs : list (string * string))
    (index : BM25Index.t) (token : string) :
  indexed k1 b docs index -> docs_with token docs = [] ->
  BM25Index._idf index token = Ok 0%R.
Proof.
  intros Hidx Hnil. unfold BM25Index._idf.
  rewrite (ix_freqs Hidx), Hnil. reflexivity.
Qed.

(** X9.  [_idf] on an index built from documents with distinct ids.  The
    call raises nothing; the value is 0 for a token that no document
    contains and strictly positive for every other token, also for one that
    occurs in all documents; and of two indexed tokens the one contained in
    fewer documents has the strictly larger value. *)
Theorem idf_weighs_rarer_terms_more (set_iter : list string -> list string)
    (k1 b : R) (docs : list (string * string)) :
  is_set_order set_iter -> NoDup (map fst docs) ->
  (forall token,
      exists v,
        BM25Index._idf (build set_iter k1 b docs) token = Ok v
        /\ (docs_with token docs = [] -> v = 0%R)
        /\ (docs_with token docs <> [] -> (0 < v)%R))
  /\ (forall rare common v_rare v_common,
        (1 <= len (docs_with rare docs) < len (docs_with common docs))%Z ->
        BM25Index._idf (build set_iter k1 b docs) rare = Ok v_rare ->
        BM25Index._idf (build set_iter k1 b docs) common = Ok v_common ->
        (v_common < v_rare)%R).
Proof.
  intros Hiter Hnd.
  pose proof (@build_indexed set_iter k1 b docs Hiter Hnd) as Hidx.
  set (index := build set_iter k1 b docs) in *.
  assert (forall token,
             docs_with token docs <> [] ->
             BM25Index._idf index token
             = Ok (idf_value (len docs) (len (docs_with token docs)))
             /\ (0 < idf_value (len docs) (len (docs_with token docs)))%R)
    as Hknown.
  { intros token Hne. apply (indexed_known Hidx) in Hne.
    destruct (idf_indexed Hidx token Hne) as [Hrun Hpos].
    unfold token_idf in *.
    rewrite (ix_N Hidx), (ix_freqs Hidx) in *. split; assumption. }
  split.
  - intros token.
    assert (docs_with token docs = [] \/ docs_with token docs <> []) as [E|E]
      by (destruct (docs_with token docs); [now left|now right]).
    + exists 0%R. split; [|split].
      * now apply (idf_unknown token Hidx).
      * reflexivity.
      * intros H. now contradiction H.
    + destruct (Hknown token E) as [Hrun Hpos].
      eexists. split; [exact Hrun|]. split; [|intros _; exact Hpos].
      intros H. now contradiction E.
  - intros rare common v_rare v_common [Hlo Hlt] Hr Hc.
    destruct (Hknown rare) as [Hrun1 _].
    { intros Hnil. rewrite Hnil in Hlo. unfold len in Hlo. simpl in Hlo. lia. }
    destruct (Hknown common) as [Hrun2 _].
    { intros Hnil. rewrite Hnil in Hlt. unfold len in Hlt. simpl in Hlt. lia. }
    rewrite Hrun1 in Hr. rewrite Hrun2 in Hc.
    injection Hr as <-. injection Hc as <-.
    apply idf_value_decreasing; unfold len in *; lia.
Qed.

Lemma idf_weighs_rarer_terms_more_witness :
  (forall token,
      exists v,
        BM25Index._idf sample_index token = Ok v
        /\ (docs_with token sample_docs = [] -> v = 0%R)
        /\ (docs_with token sample_docs <> [] -> (0 < v)%R))
  /\ (forall rare common v_rare v_common,
        (1 <= len (docs_with rare sample_docs)
         < len (docs_with common sample_docs))%Z ->
        BM25Index._idf sample_index rare = Ok v_rare ->
        BM25Index._idf sample_index common = Ok v_common ->
        (v_common < v_rare)%R).
Proof.
  apply (@idf_weighs_rarer_terms_more insertion_order BM25Index.default_k1
           BM25Index.default_b sample_docs
           insertion_order_is_set_order sample_docs_distinct).
Defined.

(** ** Any index: what [search] and [_sparse_search] return *)

Section AnyIndex.

Variable set_iter : list string -> list string.
Variable self : BM25Index.t.

Lemma score_doc_keys (token : string) (idf : R)
    (scores scores' : list (string * R)) (doc_id : string) :
  BM25Index.score_doc self token idf scores doc_id = Ok scores' ->
  NoDup (map fst scores) -> NoDup (map fst scores').
Proof.
  unfold BM25Index.score_doc. intros Hrun Hnd.
  destruct (dict_getitem (BM25Index.documents self) doc_id); [|discriminate].
  cbn [bind] in Hrun.
  destruct (dict_getitem (BM25Index.doc_lengths self) doc_id);
    [|discriminate].
  cbn [bind] in Hrun.
  destruct (fdiv _ (BM25Index.avg_doc_length self)); [|discriminate].
  cbn [bind] in Hrun.
  destruct (fdiv _ _); [|discriminate].
  cbn [bind] in Hrun. injection Hrun as <-.
  now apply dict_set_nodup.
Qed.

Lemma score_docs_keys (token : string) (idf : R) (doc_ids : list string)
    (scores scores' : list (string * R)) :
  BM25Index.score_docs self token idf doc_ids scores = Ok scores' ->
  NoDup (map fst scores) -> NoDup (map fst scores').
Proof.
  revert scores. induction doc_ids as [|d rest IH]; intros scores Hrun Hnd;
    cbn [BM25Index.score_docs] in Hrun.
  - now injection Hrun as <-.
  - destruct (BM25Index.score_doc self token idf scores d) as [s1|] eqn:E;
      [|discriminate].
    cbn [bind] in Hrun. apply (IH s1 Hrun).
    eapply score_doc_keys; eassumption.
Qed.

Lemma score_tokens_keys (query_tokens : list string)
    (scores scores' : list (string * R)) :
  BM25Index.score_tokens set_iter self query_tokens scores = Ok scores' ->
  NoDup (map fst scores) -> NoDup (map fst scores').
Proof.
  revert scores. induction query_tokens as [|t rest IH]; intros scores Hrun Hnd;
    cbn [BM25Index.score_tokens] in Hrun.
  - now injection Hrun as <-.
  - destruct (negb (dict_mem (BM25Index.inverted_index self) t)).
    + now apply (IH scores).
    + destruct (BM25Index._idf self t) as [idf|]; [|discriminate].
      cbn [bind] in Hrun.
      destruct (BM25Index.score_docs self t idf _ scores) as [s1|] eqn:E;
        [|discriminate].
      cbn [bind] in Hrun. apply (IH s1 Hrun).
      eapply score_docs_keys; eassumption.
Qed.

Lemma search_any_index (query : string) (top_k : Z)
    (results : list (string * R)) :
  BM25Index.search set_iter self query top_k = Ok results ->
  NoDup (map fst results)
  /\ StronglySorted (fun x y : string * R => (snd y <= snd x)%R) results
  /\ ((0 <= top_k)%Z -> (len results <= top_k)%Z).
Proof.
  unfold BM25Index.search. cbv zeta.
  destruct (BM25Index.score_tokens set_iter self _ []) as [scores|] eqn:E;
    [|discriminate].
  cbn [bind]. intros H. injection H as <-.
  assert (NoDup (map fst scores)) as Hnd.
  { eapply score_tokens_keys; [exact E|constructor]. }
  split; [|split].
  - destruct (slice_to_prefix (sorted_reverse snd Rltb scores) top_k)
      as [n ->].
    rewrite <- firstn_map.
    assert (NoDup (map fst (sorted_reverse snd Rltb scores))) as Hs.
    { eapply Permutation_NoDup; [|exact Hnd].
      apply Permutation_map, Permutation_sym, sorted_reverse_perm. }
    rewrite <- (firstn_skipn n (map fst _)) in Hs.
    now apply NoDup_app_remove_r in Hs.
  - destruct (slice_to_prefix (sorted_reverse snd Rltb scores) top_k)
      as [n ->].
    assert (StronglySorted (fun x y : string * R => (snd y <= snd x)%R)
              (sorted_reverse snd Rltb scores)) as Hs.
    { eapply StronglySorted_impl;
        [|apply (sorted_reverse_sorted snd Rltb Rltb_asym Rltb_negtrans)].
      intros x y H. now apply Rltb_ge. }
    clear -Hs. revert n.
    induction Hs as [|x l Hs IH Hx]; intros [|n]; cbn [firstn];
      try constructor.
    + apply IH.
    + rewrite Forall_forall in *. intros y Hy. apply Hx.
      rewrite <- (firstn_skipn n l). apply in_or_app. now left.
  - intros Hk. rewrite slice_to_nonneg by exact Hk. unfold len.
    rewrite length_firstn. lia.
Qed.

End AnyIndex.

(** X11.  [_sparse_search] on any retriever, whatever its index holds and
    whether or not [search] raises: the hits carry distinct ids, their
    scores are in descending order, and there are at most [sparse_top_k] of
    them when that setting is not negative. *)
Theorem sparse_search_hits (set_iter : list string -> list string)
    (self : HybridRetriever.t) (query : string) :
  NoDup (map (@HybridRetriever.hit_id R)
             (HybridRetriever._sparse_search set_iter self query))
  /\ StronglySorted
       (fun x y : HybridRetriever.Hit R =>
          (HybridRetriever.hit_score y <= HybridRetriever.hit_score x)%R)
       (HybridRetriever._sparse_search set_iter self query)
  /\ ((0 <= sparse_top_k (retrieval (HybridRetriever.config self)))%Z ->
      (len (HybridRetriever._sparse_search set_iter self query)
       <= sparse_top_k (retrieval (HybridRetriever.config self)))%Z).
Proof.
  unfold HybridRetriever._sparse_search.
  destruct (BM25Index.search set_iter (HybridRetriever.bm25_index self) query
              (sparse_top_k (retrieval (HybridRetriever.config self))))
    as [results|e] eqn:E.
  - destruct (search_any_index _ _ _ _ E) as (Hnd & Hs & Hlen).
    split; [|split].
    + rewrite map_map. cbn [HybridRetriever.hit_id]. exact Hnd.
    + clear -Hs. induction Hs as [|x l Hs IH Hx]; cbn [map]; constructor.
      * exact IH.
      * rewrite Forall_forall in *. intros y Hy.
        apply in_map_iff in Hy. destruct Hy as (z & <- & Hz).
        cbn [HybridRetriever.hit_score]. now apply Hx.
    + intros Hk. unfold len in *. rewrite length_map. now apply Hlen.
  - split; [constructor|]. split; [constructor|].
    intros Hk. exact Hk.
Qed.

(** ** What [search] returns on a built index *)

Lemma term_value_pos (k1 b avg idf : R) (tf doc_len : Z) :
  (0 < idf)%R -> (0 <= k1)%R -> (0 <= b <= 1)%R -> (0 < avg)%R ->
  (0 <= doc_len)%Z -> (1 <= tf)%Z ->
  (0 < term_value k1 b avg idf tf doc_len)%R.
Proof.
  intros Hidf Hk1 Hb Havg Hdl Htf. unfold term_value.
  apply IZR_le in Hdl, Htf.
  set (t := IZR tf) in *.
  set (q := (b * IZR doc_len / avg)%R).
  assert (0 <= q)%R as Hq.
  { unfold q. apply Rmult_le_pos; [nra|]. left. now apply Rinv_0_lt_compat. }
  assert (0 <= k1 * (1 - b + q))%R as HK by (apply Rmult_le_pos; lra).
  apply Rdiv_lt_0_compat; [|lra].
  apply Rmult_lt_0_compat; [exact Hidf|]. apply Rmult_lt_0_compat; lra.
Qed.

Lemma firstn_nodup (A : Type) (n : nat) (l : list A) :
  NoDup l -> NoDup (firstn n l).
Proof.
  intros H. rewrite <- (firstn_skipn n l) in H.
  now apply NoDup_app_remove_r in H.
Qed.

Lemma slice_to_keys_nodup (A : Type) (l : list (string * A)) (stop : Z) :
  NoDup (map fst l) -> NoDup (map fst (slice_to l stop)).
Proof.
  intros H. destruct (slice_to_prefix l stop) as [n ->].
  rewrite <- firstn_map. now apply firstn_nodup.
Qed.

Lemma slice_to_in (A : Type) (l : list A) (stop : Z) (x : A) :
  In x (slice_to l stop) -> In x l.
Proof.
  destruct (slice_to_prefix l stop) as [n ->].
  intros H. rewrite <- (firstn_skipn n l). apply in_or_app. now left.
Qed.

Lemma slice_to_bound (A : Type) (l : list A) (stop : Z) :
  (0 <= stop)%Z -> (len (slice_to l stop) <= stop)%Z.
Proof.
  intros H. rewrite slice_to_nonneg by exact H. unfold len.
  rewrite length_firstn. lia.
Qed.

Lemma slice_to_all (A : Type) (l : list A) (stop : Z) :
  (len l <= stop)%Z -> slice_to l stop = l.
Proof.
  unfold len. intros H. rewrite slice_to_nonneg by lia.
  apply firstn_all2. lia.
Qed.

Section SearchResults.

Variable set_iter : list string -> list string.
Hypothesis set_iter_order : is_set_order set_iter.

Variables k1 b : R.
Hypothesis k1_nonneg : (0 <= k1)%R.
Hypothesis b_range : (0 <= b <= 1)%R.

Variable docs : list (string * string).
Hypothesis docs_distinct : NoDup (map fst docs).

Variable index : BM25Index.t.
Hypothesis index_built : indexed k1 b docs index.

Lemma visited_token (query_tokens : list string) (doc_id : string) :
  In doc_id (visited set_iter index query_tokens) ->
  exists token text,
    In token query_tokens /\ In (doc_id, text) docs
    /\ set_mem token (BM25Index._tokenize text) = true.
Proof.
  intros Hin. unfold visited in Hin.
  apply in_flat_map in Hin. destruct Hin as (token & Htok & Hin).
  destruct (dict_mem (BM25Index.inverted_index index) token);
    [|destruct Hin].
  apply set_iter_in in Hin; [|exact set_iter_order].
  rewrite (indexed_postings index_built) in Hin.
  apply docs_with_spec in Hin. destruct Hin as (text & Hdoc & Hmem).
  exists token, text. split; [exact Htok|]. split; assumption.
Qed.

Lemma query_score_pos (query_tokens : list string) (doc_id text : string) :
  In (doc_id, text) docs ->
  (0 <= query_score index query_tokens doc_id)%R
  /\ (forall token,
        In token query_tokens ->
        set_mem token (BM25Index._tokenize text) = true ->
        (0 < query_score index query_tokens doc_id)%R).
Proof.
  intros Hdoc.
  assert (forall token,
             set_mem token (BM25Index._tokenize text) = true ->
             (0 < doc_value index token (token_idf index token) doc_id)%R)
    as Hpos.
  { intros token Hmem.
    rewrite (@doc_value_indexed k1 b docs docs_distinct index index_built
               token doc_id text _ Hdoc).
    assert (dict_mem (BM25Index.inverted_index index) token = true) as Hk.
    { pose proof (@visit_condition k1 b b_range docs docs_distinct index
                    index_built token doc_id text Hdoc) as Hv.
      rewrite Hmem in Hv. now apply andb_true_iff in Hv. }
    destruct (count_pos _ _ Hmem) as [Htf Hlen].
    apply term_value_pos; try assumption; try lia.
    - apply (idf_indexed index_built token Hk).
    - eapply indexed_avg_pos; eassumption. }
  induction query_tokens as [|t rest [IH0 IH1]]; cbn [query_score].
  - split; [lra|]. intros token [].
  - rewrite (@visit_condition k1 b b_range docs docs_distinct index
               index_built t doc_id text Hdoc).
    destruct (set_mem t (BM25Index._tokenize text)) eqn:Ht.
    + specialize (Hpos t Ht). split; [lra|]. intros; lra.
    + split; [lra|]. intros token [->|Hin] Hmem.
      * rewrite Hmem in Ht. discriminate Ht.
      * specialize (IH1 token Hin Hmem). lra.
Qed.

End SearchResults.

(** X10.  What [search] returns on an index built from documents with
    distinct ids, for [k1 >= 0] and [0 <= b <= 1].  The call raises nothing;
    the results carry distinct ids and are at most [top_k] when [top_k] is
    not negative; every returned document shares a token with the query and
    has a strictly positive score; and when [top_k] is at least the size of
    the corpus, every document that shares a token with the query is
    returned.  Scores are real numbers here. *)
Theorem search_returns_matching_documents
    (set_iter : list string -> list string) (k1 b : R)
    (docs : list (string * string)) (query : string) (top_k : Z) :
  is_set_order set_iter ->
  (0 <= k1)%R -> (0 <= b <= 1)%R ->
  NoDup (map fst docs) ->
  exists results,
    BM25Index.search set_iter (build set_iter k1 b docs) query top_k
    = Ok results
    /\ NoDup (map fst results)
    /\ ((0 <= top_k)%Z -> (len results <= top_k)%Z)
    /\ (forall doc_id s,
          In (doc_id, s) results ->
          (0 < s)%R
          /\ exists text token,
               In (doc_id, text) docs
               /\ In token (BM25Index._tokenize query)
               /\ In token (BM25Index._tokenize text))
    /\ ((len docs <= top_k)%Z ->
        forall doc_id text token,
          In (doc_id, text) docs ->
          In token (BM25Index._tokenize query) ->
          In token (BM25Index._tokenize text) ->
          In doc_id (map fst results)).
Proof.
  intros Hiter Hk1 Hb Hnd.
  pose proof (@build_indexed set_iter k1 b docs Hiter Hnd) as Hidx.
  set (index := build set_iter k1 b docs) in *.
  set (scores := accumulate set_iter index (BM25Index._tokenize query) []).
  assert (Hkeys : map fst scores
                  = set_of_list
                      (visited set_iter index (BM25Index._tokenize query)))
    by apply accumulate_keys.
  assert (Hnodup : NoDup (map fst scores))
    by (rewrite Hkeys; apply set_of_list_nodup).
  assert (Hperm : Permutation (sorted_reverse snd Rltb scores) scores)
    by apply sorted_reverse_perm.
  assert (Hsnodup : NoDup (map fst (sorted_reverse snd Rltb scores))).
  { eapply Permutation_NoDup; [|exact Hnodup].
    apply Permutation_map, Permutation_sym, Hperm. }
  exists (slice_to (sorted_reverse snd Rltb scores) top_k).
  split; [eapply search_indexed; eassumption|].
  split; [now apply slice_to_keys_nodup|].
  split; [apply slice_to_bound|].
  split.
  - intros doc_id s Hin. apply slice_to_in in Hin.
    apply (Permutation_in _ Hperm) in Hin.
    assert (In doc_id (visited set_iter index (BM25Index._tokenize query)))
      as Hvis.
    { apply set_of_list_in. rewrite <- Hkeys.
      apply in_map_iff. exists (doc_id, s). split; [reflexivity|exact Hin]. }
    destruct (@visited_token set_iter Hiter k1 b docs index Hidx _ _ Hvis)
      as (token & text & Htok & Hdoc & Hmem).
    split.
    + assert (s = dict_get_default scores doc_id 0%R) as ->.
      { unfold dict_get_default.
        now rewrite (dict_in_get _ _ _ Hnodup Hin). }
      unfold scores.
      rewrite (@accumulate_value set_iter Hiter k1 b docs Hnd index Hidx).
      cbn [dict_get_default dict_get].
      destruct (@query_score_pos k1 b Hk1 Hb docs Hnd index Hidx
                  (BM25Index._tokenize query) doc_id text Hdoc) as [_ Hpos].
      specialize (Hpos token Htok Hmem). lra.
    + exists text, token. split; [exact Hdoc|]. split; [exact Htok|].
      now apply set_mem_in.
  - intros Hall doc_id text token Hdoc Htok Hmem.
    rewrite slice_to_all.
    + apply (Permutation_in _ (Permutation_map fst (Permutation_sym Hperm))).
      rewrite Hkeys. apply set_of_list_in.
      eapply visited_in; try eassumption. now apply set_mem_in.
    + unfold len in *. rewrite (Permutation_length Hperm).
      rewrite <- (length_map fst scores), <- (length_map fst docs) in *.
      assert (length (map fst scores) <= length (map fst docs))%nat; [|lia].
      apply NoDup_incl_length; [exact Hnodup|].
      intros d Hd. rewrite Hkeys in Hd. apply -> set_of_list_in in Hd.
      eapply visited_ids; eassumption.
Qed.

Lemma search_returns_matching_documents_witness :
  exists results,
    BM25Index.search insertion_order sample_index "managed database" 10
    = Ok results
    /\ NoDup (map fst results)
    /\ ((0 <= 10)%Z -> (len results <= 10)%Z)
    /\ (forall doc_id s,
          In (doc_id, s) results ->
          (0 < s)%R
          /\ exists text token,
               In (doc_id, text) sample_docs
               /\ In token (BM25Index._tokenize "managed database")
               /\ In token (BM25Index._tokenize text))
    /\ ((len sample_docs <= 10)%Z ->
        forall doc_id text token,
          In (doc_id, text) sample_docs ->
          In token (BM25Index._tokenize "managed database") ->
          In token (BM25Index._tokenize text) ->
          In doc_id (map fst results)).
Proof.
  apply (@search_returns_matching_documents insertion_order
           BM25Index.default_k1 BM25Index.default_b sample_docs
           "managed database" 10 insertion_order_is_set_order).
  - left. apply default_k1_pos.
  - apply default_b_range.
  - apply sample_docs_distinct.
Defined.

(** ** Rank fusion: when the division fails *)

Lemma fuse_ranks_zero (k : Z) (ids : list string) (start : Z)
    (fused : list (string * Q)) :
  (start <= - k < start + len ids)%Z ->
  HybridRetriever.fuse_ranks k (enumerate start ids) fused
  = Raise ZeroDivisionError.
Proof.
  revert start fused. unfold len.
  induction ids as [|x t IH]; intros start fused Hk.
  - simpl in Hk. lia.
  - cbn [enumerate HybridRetriever.fuse_ranks].
    unfold HybridRetriever.fuse_rank.
    destruct (Z.eqb_spec (k + start) 0) as [_|Hne]; [reflexivity|].
    cbn [bind]. apply IH. cbn [length] in Hk. lia.
Qed.

Lemma fuse_ranks_nonzero (k : Z) (ids : list string) (start : Z)
    (fused : list (string * Q)) :
  ~ (start <= - k < start + len ids)%Z ->
  exists fused',
    HybridRetriever.fuse_ranks k (enumerate start ids) fused = Ok fused'
    /\ (forall id, In id (map fst fused')
                   <-> In id (map fst fused) \/ In id ids)
    /\ (NoDup (map fst fused) -> NoDup (map fst fused')).
Proof.
  revert start fused. unfold len.
  induction ids as [|x t IH]; intros start fused Hk.
  - exists fused. split; [reflexivity|]. split; [|trivial].
    intros id. simpl. tauto.
  - cbn [enumerate HybridRetriever.fuse_ranks].
    unfold HybridRetriever.fuse_rank.
    destruct (Z.eqb_spec (k + start) 0) as [Hz|Hne].
    { exfalso. apply Hk. cbn [length]. lia. }
    cbn [bind].
    destruct (IH (start + 1)%Z
                (dict_set fused x
                   (dict_get_default fused x 0
                    + 1 / inject_Z (k + start))))
      as (fused' & Hrun & Hkeys & Hnd).
    { cbn [length] in Hk. lia. }
    exists fused'. split; [exact Hrun|]. split.
    + intros id. rewrite Hkeys, dict_set_in_keys. simpl.
      intuition (subst; auto).
    + intros H. apply Hnd. now apply dict_set_nodup.
Qed.

Lemma firstn_strongly_sorted (A : Type) (R : A -> A -> Prop) (n : nat)
    (l : list A) :
  StronglySorted R l -> StronglySorted R (firstn n l).
Proof.
  intros Hs. revert n.
  induction Hs as [|x l Hs IH Hx]; intros [|n]; cbn [firstn];
    try constructor.
  - apply IH.
  - rewrite Forall_forall in *. intros y Hy. apply Hx.
    rewrite <- (firstn_skipn n l). apply in_or_app. now left.
Qed.

Lemma slice_to_descending (l : list (string * Q)) (stop : Z) :
  descending l -> descending (slice_to l stop).
Proof.
  destruct (slice_to_prefix l stop) as [n ->].
  apply firstn_strongly_sorted.
Qed.

Lemma rrf_outcome (S1 S2 : Type) (self : HybridRetriever.t)
    (dense_results : list (HybridRetriever.Hit S1))
    (sparse_results : list (HybridRetriever.Hit S2)) (k : Z) :
  ~ ((1 <= - k <= len dense_results)%Z
     \/ (1 <= - k <= len sparse_results)%Z) ->
  exists fused,
    HybridRetriever._reciprocal_rank_fusion self dense_results
      sparse_results k = Ok fused
    /\ NoDup (map fst fused)
    /\ descending fused
    /\ ((0 <= fusion_top_k (retrieval (HybridRetriever.config self)))%Z ->
        (len fused
         <= fusion_top_k (retrieval (HybridRetriever.config self)))%Z)
    /\ (forall id,
          In id (map fst fused) ->
          In id (map (@HybridRetriever.hit_id S1) dense_results)
          \/ In id (map (@HybridRetriever.hit_id S2) sparse_results)).
Proof.
  intros Hk. unfold HybridRetriever._reciprocal_rank_fusion.
  destruct (@fuse_ranks_nonzero k
              (map (@HybridRetriever.hit_id S1) dense_results) 1 [])
    as (fused1 & Hrun1 & Hkeys1 & Hnd1).
  { unfold len in *. rewrite length_map. lia. }
  rewrite Hrun1. cbn [bind].
  destruct (@fuse_ranks_nonzero k
              (map (@HybridRetriever.hit_id S2) sparse_results) 1 fused1)
    as (fused2 & Hrun2 & Hkeys2 & Hnd2).
  { unfold len in *. rewrite length_map. lia. }
  rewrite Hrun2. cbn [bind]. eexists. split; [reflexivity|].
  assert (NoDup (map fst (sorted_reverse snd Qltb fused2))) as Hs.
  { eapply Permutation_NoDup.
    - apply Permutation_map, Permutation_sym, sorted_reverse_perm.
    - apply Hnd2, Hnd1. constructor. }
  split; [|split; [|split]].
  - destruct (slice_to_prefix (sorted_reverse snd Qltb fused2)
                (fusion_top_k (retrieval (HybridRetriever.config self))))
      as [n ->].
    rewrite <- firstn_map. now apply firstn_nodup.
  - apply slice_to_descending, fused_sorted_descending.
  - apply slice_to_bound.
  - intros id Hin. apply in_map_iff in Hin.
    destruct Hin as ([id' s] & <- & Hin). apply slice_to_in in Hin.
    apply (Permutation_in _ (sorted_reverse_perm snd Qltb fused2)) in Hin.
    assert (In id' (map fst fused2)) as Hin2
      by (apply in_map_iff; exists (id', s); auto).
    apply Hkeys2 in Hin2. destruct Hin2 as [Hin2|Hin2]; [|now right].
    apply Hkeys1 in Hin2. destruct Hin2 as [[]|Hin2]. now left.
Qed.

(** X12.  When [_reciprocal_rank_fusion] raises.  The division
    [1.0 / (k + rank)] fails exactly when [k + rank = 0] for a rank that
    occurs: the call raises [ZeroDivisionError] when [1 <= -k <= n] for the
    length [n] of one of the two lists, and returns a list in every other
    case, in particular for every [k >= 0] and for the default [k = 60]. *)
Theorem rrf_division_by_zero (S1 S2 : Type) (self : HybridRetriever.t)
    (dense_results : list (HybridRetriever.Hit S1))
    (sparse_results : list (HybridRetriever.Hit S2)) (k : Z) :
  ((1 <= - k <= len dense_results)%Z
   \/ (1 <= - k <= len sparse_results)%Z ->
   HybridRetriever._reciprocal_rank_fusion self dense_results
     sparse_results k = Raise ZeroDivisionError)
  /\ (~ ((1 <= - k <= len dense_results)%Z
         \/ (1 <= - k <= len sparse_results)%Z) ->
      exists fused,
        HybridRetriever._reciprocal_rank_fusion self dense_results
          sparse_results k = Ok fused).
Proof.
  split.
  - intros Hk. unfold HybridRetriever._reciprocal_rank_fusion.
    destruct (Z_le_dec 1 (- k)) as [Hlo|Hlo]; [|lia].
    destruct (Z_le_dec (- k) (len dense_results)) as [Hd|Hd].
    + rewrite fuse_ranks_zero; [reflexivity|].
      unfold len in *. rewrite length_map. lia.
    + destruct (@fuse_ranks_nonzero k
                  (map (@HybridRetriever.hit_id S1) dense_results) 1 [])
        as (fused1 & Hrun1 & _).
      { unfold len in *. rewrite length_map. lia. }
      rewrite Hrun1. cbn [bind].
      rewrite fuse_ranks_zero; [reflexivity|].
      unfold len in *. rewrite length_map. lia.
  - intros Hk.
    destruct (@rrf_outcome S1 S2 self dense_results sparse_results k Hk)
      as (fused & Hrun & _).
    now exists fused.
Qed.

(** ** Building the index from a store that answers *)

Lemma scroll_loop_success (set_iter : list string -> list string)
    (store : HybridRetriever.VectorStore)
    (last : list HybridRetriever.Point)
    (pages : list (list HybridRetriever.Point * string)) :
  forall (offset : option string) (index : BM25Index.t) (total : Z)
         (fuel : nat),
    (0 <= BM25Index.N index)%Z ->
    scroll_serves store offset pages last ->
    (length pages < fuel)%nat ->
    HybridRetriever.scroll_loop set_iter fuel store offset index total
    = Some (add_all set_iter index
              (points_docs (concat (map fst pages) ++ last)),
            Ok (total + len (concat (map fst pages) ++ last))%Z).
Proof.
  induction pages as [|[results next] rest IH];
    intros offset index total fuel HN Hserve Hfuel;
    (destruct fuel as [|fuel]; [simpl in Hfuel; lia|]);
    cbn [HybridRetriever.scroll_loop].
  - cbn in Hserve. destruct Hserve as (next & Hscroll & Hend).
    rewrite Hscroll. cbn [map concat app].
    destruct last as [|point more].
    + cbn. do 3 f_equal. unfold len. simpl. lia.
    + destruct Hend as [Hend|Hend]; [discriminate Hend|]. subst next.
      destruct (index_points_ok set_iter (point :: more) index total HN)
        as [Hrun _].
      rewrite Hrun. reflexivity.
  - destruct Hserve as (Hne & Hscroll & Hrest). rewrite Hscroll.
    destruct (index_points_ok set_iter results index total HN)
      as [Hrun HN'].
    destruct results as [|point more]; [congruence|].
    rewrite Hrun.
    rewrite (IH (Some next) _ _ fuel HN' Hrest) by (simpl in Hfuel; lia).
    unfold points_docs, add_all.
    cbn [map fst concat]. rewrite <- !app_assoc, !map_app, !fold_left_app.
    do 3 f_equal. unfold len. rewrite !length_app. lia.
Qed.

(** X13.  Building the index from a store that answers.  When the store
    serves its pages and ends the scroll, with an empty page or with a page
    that has no next offset, the constructor returns a retriever whose index
    is the one built by [add_document] from all served points, in order; the
    index counts as many documents as points were served, and the printed
    lines report that number.  The scroll loop has enough fuel when the fuel
    exceeds the number of pages that carry a next offset. *)
Theorem index_build_success
    (set_iter : list string -> list string) (fuel : nat)
    (cfg : PipelineConfig) (store : HybridRetriever.VectorStore)
    (pages : list (list HybridRetriever.Point * string))
    (last : list HybridRetriever.Point) :
  scroll_serves store None pages last ->
  (length pages < fuel)%nat ->
  exists retriever,
    HybridRetriever.init set_iter fuel cfg (Ok tt) store
    = Some (Ok (retriever,
                ["   Building BM25 index from Qdrant collection...";
                 "    BM25 index built with "
                 ++ str_of_nat (length (concat (map fst pages) ++ last))
                 ++ " documents";
                 " HybridRetriever initialized"]))
    /\ HybridRetriever.config retriever = cfg
    /\ HybridRetriever.bm25_index retriever
       = build set_iter BM25Index.default_k1 BM25Index.default_b
           (points_docs (concat (map fst pages) ++ last))
    /\ BM25Index.N (HybridRetriever.bm25_index retriever)
       = len (concat (map fst pages) ++ last).
Proof.
  intros Hserve Hfuel.
  unfold HybridRetriever.init, HybridRetriever._build_bm25_index.
  cbn [HybridRetriever.qdrant HybridRetriever.bm25_index
       HybridRetriever.config].
  rewrite (@scroll_loop_success set_iter store last pages None
             (BM25Index.init BM25Index.default_k1 BM25Index.default_b)
             0%Z fuel ltac:(cbn; lia) Hserve Hfuel).
  eexists. split.
  { rewrite Z.add_0_l. unfold len. rewrite Nat2Z.id. reflexivity. }
  split; [reflexivity|]. split; [reflexivity|].
  cbn [HybridRetriever.bm25_index].
  generalize (concat (map fst pages) ++ last)%list. intros points.
  assert (forall index,
             BM25Index.N (add_all set_iter index (points_docs points))
             = (BM25Index.N index + len points)%Z) as HN.
  { induction points as [|point rest IH]; intros index.
    - unfold len. simpl. lia.
    - cbn [points_docs map add_all fold_left fst snd].
      fold (points_docs rest).
      fold (add_all set_iter
              (fst (BM25Index.add_document set_iter index
                      (HybridRetriever.point_id point)
                      (HybridRetriever._create_search_text
                         (HybridRetriever.payload point))))
              (points_docs rest)).
      rewrite IH. unfold BM25Index.add_document.
      destruct (fold_left _ _ _) as [df' inv'].
      destruct (true_div _ _); cbn [fst BM25Index.N]; unfold len;
        cbn [length]; lia. }
  rewrite HN. reflexivity.
Qed.

Lemma index_build_success_witness :
  exists retriever,
    HybridRetriever.init insertion_order 2 DEFAULT_CONFIG (Ok tt)
      one_point_store
    = Some (Ok (retriever,
                ["   Building BM25 index from Qdrant collection...";
                 "    BM25 index built with "
                 ++ str_of_nat
                      (length (concat (map fst [([sample_point], "1")])
                               ++ []))
                 ++ " documents";
                 " HybridRetriever initialized"]))
    /\ HybridRetriever.config retriever = DEFAULT_CONFIG
    /\ HybridRetriever.bm25_index retriever
       = build insertion_order BM25Index.default_k1 BM25Index.default_b
           (points_docs (concat (map fst [([sample_point], "1")]) ++ []))
    /\ BM25Index.N (HybridRetriever.bm25_index retriever)
       = len (concat (map fst [([sample_point], "1")]) ++ []).
Proof.
  apply (@index_build_success insertion_order 2 DEFAULT_CONFIG
           one_point_store [([sample_point], "1")] []).
  - split; [discriminate|]. split; [reflexivity|].
    exists None. split; [reflexivity|now left].
  - simpl. lia.
Defined.

(** ** The lowest price of a payload *)

Lemma price_ltb_asym (x y : option Q) :
  RetrievedCandidate.price_ltb x y = true ->
  RetrievedCandidate.price_ltb y x = false.
Proof.
  destruct x as [a|], y as [b|]; cbn; try discriminate; try reflexivity.
  apply Qltb_asym.
Qed.

Lemma price_ltb_cotrans (x y z : option Q) :
  RetrievedCandidate.price_ltb x y = true ->
  RetrievedCandidate.price_ltb x z = true
  \/ RetrievedCandidate.price_ltb z y = true.
Proof.
  destruct x as [a|], y as [b|], z as [c|]; cbn; try discriminate; auto.
  intros H. apply Qltb_lt in H.
  destruct (Qlt_le_dec a c) as [Hac|Hca].
  - left. now apply Qltb_lt.
  - right. apply Qltb_lt. eapply Qle_lt_trans; eassumption.
Qed.

Lemma min_from_least (A : Type) (key : A -> option Q) (l : list A)
    (best : A) :
  In (RetrievedCandidate.min_from key best l) (best :: l)
  /\ forall x,
       In x (best :: l) ->
       RetrievedCandidate.price_ltb
         (key x) (key (RetrievedCandidate.min_from key best l)) = false.
Proof.
  revert best. induction l as [|y rest IH]; intros best;
    cbn [RetrievedCandidate.min_from].
  - split; [now left|]. intros x [<-|[]].
    destruct (RetrievedCandidate.price_ltb (key best) (key best)) eqn:E;
      [|reflexivity].
    now rewrite (price_ltb_asym _ _ E) in E.
  - destruct (RetrievedCandidate.price_ltb (key y) (key best)) eqn:E.
    + destruct (IH y) as [Hin Hleast]. split.
      * destruct Hin as [<-|Hin]; [right; now left|right; now right].
      * intros x [<-|[<-|Hx]].
        -- destruct (RetrievedCandidate.price_ltb (key best)
                       (key (RetrievedCandidate.min_from key y rest)))
             eqn:E2; [|reflexivity].
           destruct (price_ltb_cotrans _ _
                       (key (RetrievedCandidate.min_from key y rest)) E)
             as [H|H].
           ++ rewrite (Hleast y (or_introl eq_refl)) in H. discriminate H.
           ++ rewrite (price_ltb_asym _ _ E2) in H. discriminate H.
        -- apply Hleast. now left.
        -- apply Hleast. now right.
    + destruct (IH best) as [Hin Hleast]. split.
      * destruct Hin as [<-|Hin]; [now left|right; now right].
      * intros x [<-|[<-|Hx]].
        -- apply Hleast. now left.
        -- destruct (RetrievedCandidate.price_ltb (key y)
                       (key (RetrievedCandidate.min_from key best rest)))
             eqn:E2; [|reflexivity].
           destruct (price_ltb_cotrans _ _ (key best) E2) as [H|H].
           ++ rewrite E in H. discriminate H.
           ++ rewrite (Hleast best (or_introl eq_refl)) in H.
              discriminate H.
        -- apply Hleast. now right.
Qed.

(** X16.  The price of a candidate built by [from_qdrant_payload].  With
    no pricing entry the candidate has neither price nor unit.  Otherwise
    price and unit are those of one entry of the list, and the price is the
    lowest listed: no entry has a smaller [price_per_unit], entries without
    a price counting as infinitely expensive.  The score handed in is
    stored as [dense_score] and the payload is kept as [raw_payload]. *)
Theorem from_qdrant_payload_lowest_price
    (payload : RetrievedCandidate.Payload) (score : Q) :
  (RetrievedCandidate.key_pricing payload = [] ->
   RetrievedCandidate.price_per_unit
     (RetrievedCandidate.from_qdrant_payload payload score) = None
   /\ RetrievedCandidate.price_unit
        (RetrievedCandidate.from_qdrant_payload payload score) = None)
  /\ (RetrievedCandidate.key_pricing payload <> [] ->
      exists tier,
        In tier (RetrievedCandidate.key_pricing payload)
        /\ RetrievedCandidate.price_per_unit
             (RetrievedCandidate.from_qdrant_payload payload score)
           = RetrievedCandidate.tier_price_per_unit tier
        /\ RetrievedCandidate.price_unit
             (RetrievedCandidate.from_qdrant_payload payload score)
           = Some (RetrievedCandidate.tier_unit tier))
  /\ (forall tier p,
        In tier (RetrievedCandidate.key_pricing payload) ->
        RetrievedCandidate.tier_price_per_unit tier = Some p ->
        exists lowest,
          RetrievedCandidate.price_per_unit
            (RetrievedCandidate.from_qdrant_payload payload score)
          = Some lowest
          /\ lowest <= p)
  /\ RetrievedCandidate.dense_score
       (RetrievedCandidate.from_qdrant_payload payload score) = score
  /\ RetrievedCandidate.raw_payload
       (RetrievedCandidate.from_qdrant_payload payload score) = payload.
Proof.
  unfold RetrievedCandidate.from_qdrant_payload. cbv zeta.
  destruct (RetrievedCandidate.key_pricing payload) as [|first rest].
  - cbn. split; [auto|]. split; [intros H; now contradiction H|].
    split; [intros tier p []|]. split; reflexivity.
  - destruct (min_from_least RetrievedCandidate.tier_price_per_unit
                rest first) as [Hin Hleast].
    cbn [RetrievedCandidate.price_per_unit RetrievedCandidate.price_unit
         RetrievedCandidate.dense_score RetrievedCandidate.raw_payload].
    split; [discriminate|].
    split; [intros _; eexists; split; [exact Hin|split; reflexivity]|].
    split; [|split; reflexivity].
    intros tier p Htier Hp. specialize (Hleast tier Htier).
    rewrite Hp in Hleast.
    destruct (RetrievedCandidate.tier_price_per_unit
                (RetrievedCandidate.min_from
                   RetrievedCandidate.tier_price_per_unit first rest))
      as [lowest|]; cbn in Hleast; [|discriminate Hleast].
    exists lowest. split; [reflexivity|]. now apply Qltb_ge.
Qed.

(** ** Retrieval *)

Lemma from_qdrant_payload_fields (payload : RetrievedCandidate.Payload)
    (score : Q) :
  RetrievedCandidate.dense_score
    (RetrievedCandidate.from_qdrant_payload payload score) = score
  /\ RetrievedCandidate.sparse_score
       (RetrievedCandidate.from_qdrant_payload payload score) = 0
  /\ RetrievedCandidate.raw_payload
       (RetrievedCandidate.from_qdrant_payload payload score) = payload.
Proof.
  unfold RetrievedCandidate.from_qdrant_payload. cbv zeta.
  destruct (RetrievedCandidate.key_pricing payload); repeat split.
Qed.

Lemma dict_set_in (V : Type) (d : list (string * V)) (k k' : string)
    (v v' : V) :
  In (k', v') (dict_set d k v) -> (k' = k /\ v' = v) \/ In (k', v') d.
Proof.
  induction d as [|[k0 v0] d IH]; cbn [dict_set].
  - intros [H|[]]. injection H as <- <-. now left.
  - destruct (String.eqb_spec k0 k) as [->|Hne].
    + intros [H|H]; [injection H as <- <-; now left|right; now right].
    + intros [H|H]; [right; now left|].
      destruct (IH H) as [Heq|Hin]; [now left|right; now right].
Qed.

Lemma fuse_ranks_positive (k : Z) (ids : list string) (start : Z)
    (fused fused' : list (string * Q)) :
  (0 < k + start)%Z ->
  (forall id s, In (id, s) fused -> 0 < s) ->
  HybridRetriever.fuse_ranks k (enumerate start ids) fused = Ok fused' ->
  forall id s, In (id, s) fused' -> 0 < s.
Proof.
  revert start fused. induction ids as [|x t IH]; intros start fused Hk Hpos;
    cbn [enumerate HybridRetriever.fuse_ranks].
  - intros H. injection H as <-. exact Hpos.
  - unfold HybridRetriever.fuse_rank.
    destruct (Z.eqb_spec (k + start) 0) as [Hz|_]; [lia|]. cbn [bind].
    apply IH; [lia|].
    intros id s Hin. apply dict_set_in in Hin.
    destruct Hin as [[_ ->]|Hin]; [|now apply (Hpos id)].
    assert (0 <= dict_get_default fused x 0) as H0.
    { unfold dict_get_default.
      destruct (dict_get fused x) as [v|] eqn:E; [|Lqa.lra].
      apply dict_get_some_in in E. apply Qlt_le_weak. now apply (Hpos x). }
    assert (0 < 1 / inject_Z (k + start)) as H1.
    { unfold Qdiv. rewrite Qmult_1_l. apply Qinv_lt_0_compat.
      unfold Qlt. simpl. lia. }
    Lqa.lra.
Qed.

Section RetrievalFacts.

Variable set_iter : list string -> list string.
Context {Embedding : Type}.
Variable services : HybridRetriever.SearchServices Embedding.

Lemma fetch_candidate_cases (doc_id : string) (s : Q) :
  HybridRetriever.fetch_candidate services (doc_id, s) = []
  \/ exists c,
       HybridRetriever.fetch_candidate services (doc_id, s) = [c]
       /\ RetrievedCandidate.fusion_score c = s
       /\ RetrievedCandidate.dense_score c = s
       /\ RetrievedCandidate.sparse_score c = 0
       /\ fetched_payloads services [doc_id]
          = [RetrievedCandidate.raw_payload c].
Proof.
  unfold HybridRetriever.fetch_candidate, fetched_payloads.
  cbn [flat_map].
  destruct (HybridRetriever.retrieve_points services doc_id) as [[|p ps]|e];
    auto.
  right. eexists. split; [reflexivity|].
  destruct (from_qdrant_payload_fields p s) as (Hd & Hs & Hp).
  cbn [RetrievedCandidate.set_fusion_score RetrievedCandidate.fusion_score
       RetrievedCandidate.dense_score RetrievedCandidate.sparse_score
       RetrievedCandidate.raw_payload app].
  rewrite Hd, Hs, Hp. repeat split.
Qed.

Lemma fetched_payloads_cons (doc_id : string) (ids : list string) :
  fetched_payloads services (doc_id :: ids)
  = (fetched_payloads services [doc_id]
     ++ fetched_payloads services ids)%list.
Proof.
  unfold fetched_payloads. cbn [flat_map]. now rewrite app_nil_r.
Qed.

Lemma fetch_candidates_cons (entry : string * Q)
    (fused : list (string * Q)) :
  HybridRetriever._fetch_candidates services (entry :: fused)
  = (HybridRetriever.fetch_candidate services entry
     ++ HybridRetriever._fetch_candidates services fused)%list.
Proof. reflexivity. Qed.

Lemma fetch_candidates_facts (fused : list (string * Q)) :
  (length (HybridRetriever._fetch_candidates services fused)
   <= length fused)%nat
  /\ (forall c,
        In c (HybridRetriever._fetch_candidates services fused) ->
        RetrievedCandidate.dense_score c = RetrievedCandidate.fusion_score c
        /\ RetrievedCandidate.sparse_score c = 0
        /\ exists doc_id,
             In (doc_id, RetrievedCandidate.fusion_score c) fused)
  /\ map RetrievedCandidate.raw_payload
       (HybridRetriever._fetch_candidates services fused)
     = fetched_payloads services (map fst fused)
  /\ (descending fused ->
      StronglySorted
        (fun x y =>
           RetrievedCandidate.fusion_score y
           <= RetrievedCandidate.fusion_score x)
        (HybridRetriever._fetch_candidates services fused)).
Proof.
  induction fused as [|[doc_id s] rest (IHlen & IHin & IHpay & IHsort)].
  - cbn. split; [lia|]. split; [intros c []|]. split; [reflexivity|].
    intros _. constructor.
  - rewrite fetch_candidates_cons. cbn [map fst length].
    rewrite fetched_payloads_cons.
    destruct (fetch_candidate_cases doc_id s)
      as [Hnone|(c & Hone & Hf & Hd & Hs & Hp)].
    + rewrite Hnone. cbn [app]. split; [lia|]. split; [|split].
      * intros c Hc. destruct (IHin c Hc) as (H1 & H2 & id & H3).
        split; [exact H1|]. split; [exact H2|]. exists id. now right.
      * rewrite IHpay.
        assert (fetched_payloads services [doc_id] = []) as ->;
          [|reflexivity].
        revert Hnone.
        unfold HybridRetriever.fetch_candidate, fetched_payloads.
        cbn [flat_map].
        destruct (HybridRetriever.retrieve_points services doc_id)
          as [[|p ps]|e]; try discriminate; reflexivity.
      * intros Hdesc. apply IHsort. now inversion Hdesc.
    + rewrite Hone. cbn [app length map]. split; [lia|]. split; [|split].
      * intros c' [<-|Hc].
        -- split; [congruence|]. split; [exact Hs|]. exists doc_id.
           left. now rewrite Hf.
        -- destruct (IHin c' Hc) as (H1 & H2 & id & H3).
           split; [exact H1|]. split; [exact H2|]. exists id. now right.
      * rewrite Hp, IHpay. reflexivity.
      * intros Hdesc. apply StronglySorted_inv in Hdesc.
        destruct Hdesc as [Hrest Hall].
        constructor; [now apply IHsort|].
        rewrite Forall_forall in *. intros c' Hc'.
        destruct (IHin c' Hc') as (_ & _ & id & Hin).
        rewrite Hf. apply (Hall _ Hin).
Qed.

Lemma default_k_never_zero (n m : Z) :
  (0 <= n)%Z -> (0 <= m)%Z ->
  ~ ((1 <= - HybridRetriever.default_k <= n)%Z
     \/ (1 <= - HybridRetriever.default_k <= m)%Z).
Proof.
  unfold HybridRetriever.default_k. lia.
Qed.

Lemma retrieve_runs (self : HybridRetriever.t)
    (requirements : UserRequirements) :
  exists fused,
    HybridRetriever._reciprocal_rank_fusion self
      (map HybridRetriever.dense_hit
         (HybridRetriever._dense_search services self
            (search_query requirements)
            (HybridRetriever._build_filters requirements)))
      (HybridRetriever._sparse_search set_iter self
         (search_query requirements))
      HybridRetriever.default_k = Ok fused
    /\ HybridRetriever.retrieve set_iter services self requirements
       = Ok (HybridRetriever._fetch_candidates services fused)
    /\ descending fused
    /\ ((0 <= fusion_top_k (retrieval (HybridRetriever.config self)))%Z ->
        (len fused
         <= fusion_top_k (retrieval (HybridRetriever.config self)))%Z).
Proof.
  destruct (@rrf_outcome Q R self
              (map HybridRetriever.dense_hit
                 (HybridRetriever._dense_search services self
                    (search_query requirements)
                    (HybridRetriever._build_filters requirements)))
              (HybridRetriever._sparse_search set_iter self
                 (search_query requirements))
              HybridRetriever.default_k)
    as (fused & Hrun & _ & Hdesc & Hlen & _).
  { apply default_k_never_zero; unfold len; lia. }
  exists fused. split; [exact Hrun|]. split; [|split; assumption].
  unfold HybridRetriever.retrieve. cbv zeta.
  fold (search_query requirements). rewrite Hrun. reflexivity.
Qed.

Lemma fused_scores_positive (self : HybridRetriever.t)
    (requirements : UserRequirements) (fused : list (string * Q)) :
  HybridRetriever._reciprocal_rank_fusion self
    (map HybridRetriever.dense_hit
       (HybridRetriever._dense_search services self
          (search_query requirements)
          (HybridRetriever._build_filters requirements)))
    (HybridRetriever._sparse_search set_iter self
       (search_query requirements))
    HybridRetriever.default_k = Ok fused ->
  forall doc_id s, In (doc_id, s) fused -> 0 < s.
Proof.
  unfold HybridRetriever._reciprocal_rank_fusion. intros Hrun.
  destruct (HybridRetriever.fuse_ranks _ _ []) as [fused1|] eqn:E1;
    [|discriminate Hrun].
  cbn [bind] in Hrun.
  destruct (HybridRetriever.fuse_ranks _ _ fused1) as [fused2|] eqn:E2;
    [|discriminate Hrun].
  cbn [bind] in Hrun. injection Hrun as <-.
  intros doc_id s Hin. apply slice_to_in in Hin.
  apply (Permutation_in _ (sorted_reverse_perm snd Qltb fused2)) in Hin.
  revert doc_id s Hin.
  eapply fuse_ranks_positive;
    [| |exact E2]; [unfold HybridRetriever.default_k; lia|].
  eapply fuse_ranks_positive;
    [| |exact E1]; [unfold HybridRetriever.default_k; lia|].
  intros id s [].
Qed.

End RetrievalFacts.

(** X14.  What [retrieve] returns, for every retriever, every behaviour
    of the embedding service and the vector store, and every query.  The
    call raises nothing: failures of the dense search, of the sparse search
    and of single fetches are caught, and with [k = 60] rank fusion never
    divides by zero.  The candidates are at most [fusion_top_k] when that
    setting is not negative, they come in descending order of fusion score,
    every fusion score is strictly positive, and each candidate carries its
    fusion score also as [dense_score], with [sparse_score] left at 0. *)
Theorem retrieve_contract (set_iter : list string -> list string)
    (Embedding : Type)
    (services : HybridRetriever.SearchServices Embedding)
    (self : HybridRetriever.t) (requirements : UserRequirements) :
  exists candidates,
    HybridRetriever.retrieve set_iter services self requirements
    = Ok candidates
    /\ ((0 <= fusion_top_k (retrieval (HybridRetriever.config self)))%Z ->
        (len candidates
         <= fusion_top_k (retrieval (HybridRetriever.config self)))%Z)
    /\ StronglySorted
         (fun x y =>
            RetrievedCandidate.fusion_score y
            <= RetrievedCandidate.fusion_score x)
         candidates
    /\ (forall c,
          In c candidates ->
          0 < RetrievedCandidate.fusion_score c
          /\ RetrievedCandidate.dense_score c
             = RetrievedCandidate.fusion_score c
          /\ RetrievedCandidate.sparse_score c = 0).
Proof.
  destruct (retrieve_runs set_iter services self requirements)
    as (fused & Hfuse & Hrun & Hdesc & Hlen).
  destruct (fetch_candidates_facts services fused)
    as (Hshort & Hin & _ & Hsort).
  eexists. split; [exact Hrun|]. split; [|split].
  - intros Hk. specialize (Hlen Hk). unfold len in *. lia.
  - apply Hsort, Hdesc.
  - intros c Hc. destruct (Hin c Hc) as (Hd & Hs & doc_id & Hf).
    split; [|split; assumption].
    eapply fused_scores_positive; eassumption.
Qed.

(** ** Retrieval from one source *)

Lemma sparse_search_distinct (set_iter : list string -> list string)
    (self : HybridRetriever.t) (query : string) :
  NoDup (map (@HybridRetriever.hit_id R)
             (HybridRetriever._sparse_search set_iter self query)).
Proof.
  unfold HybridRetriever._sparse_search.
  destruct (BM25Index.search set_iter (HybridRetriever.bm25_index self) query
              (sparse_top_k (retrieval (HybridRetriever.config self))))
    as [results|e] eqn:E; [|constructor].
  destruct (search_any_index _ _ _ _ E) as (Hnd & _).
  rewrite map_map. cbn [HybridRetriever.hit_id]. exact Hnd.
Qed.

Lemma fuse_ranks_nil (k : Z) (fused : list (string * Q)) :
  HybridRetriever.fuse_ranks k (enumerate 1 []) fused = Ok fused.
Proof. reflexivity. Qed.

Lemma rrf_dense_empty (S1 S2 : Type) (self : HybridRetriever.t)
    (sparse_results : list (HybridRetriever.Hit S2)) (k : Z) :
  (0 <= k)%Z ->
  NoDup (map (@HybridRetriever.hit_id S2) sparse_results) ->
  exists fused,
    HybridRetriever._reciprocal_rank_fusion self
      (@nil (HybridRetriever.Hit S1)) sparse_results k = Ok fused
    /\ map fst fused
       = slice_to (map (@HybridRetriever.hit_id S2) sparse_results)
           (fusion_top_k (retrieval (HybridRetriever.config self))).
Proof.
  intros Hk Hnd. unfold HybridRetriever._reciprocal_rank_fusion.
  cbn [map]. rewrite fuse_ranks_nil. cbn [bind].
  destruct (fuse_alone Hk Hnd) as (fused & Hrun & Hsorted & Hkeys).
  rewrite Hrun. cbn [bind]. rewrite Hsorted.
  eexists. split; [reflexivity|]. now rewrite map_slice_to, Hkeys.
Qed.

Lemma rrf_sparse_empty (S1 S2 : Type) (self : HybridRetriever.t)
    (dense_results : list (HybridRetriever.Hit S1)) (k : Z) :
  (0 <= k)%Z ->
  NoDup (map (@HybridRetriever.hit_id S1) dense_results) ->
  exists fused,
    HybridRetriever._reciprocal_rank_fusion self
      dense_results (@nil (HybridRetriever.Hit S2)) k = Ok fused
    /\ map fst fused
       = slice_to (map (@HybridRetriever.hit_id S1) dense_results)
           (fusion_top_k (retrieval (HybridRetriever.config self))).
Proof.
  intros Hk Hnd. unfold HybridRetriever._reciprocal_rank_fusion.
  destruct (fuse_alone Hk Hnd) as (fused & Hrun & Hsorted & Hkeys).
  rewrite Hrun. cbn [bind map]. rewrite fuse_ranks_nil. cbn [bind].
  rewrite Hsorted.
  eexists. split; [reflexivity|]. now rewrite map_slice_to, Hkeys.
Qed.

(** X15.  Retrieval degrades to the source that answers.  A failure of
    the embedding service or of the vector search makes [_dense_search]
    return the empty list.  When the dense search returns nothing,
    [retrieve] fetches the payloads of the sparse hits, in BM25 rank order,
    cut to [fusion_top_k]; when the sparse search returns nothing (as after
    a failed index build) and the dense results carry distinct ids, it
    fetches those of the dense results, in dense rank order.  The cut keeps
    the first [fusion_top_k] ids, so at most that many candidates come
    back.  An id whose fetch fails or finds no point is skipped. *)
Theorem retrieve_from_one_source (set_iter : list string -> list string)
    (Embedding : Type)
    (services : HybridRetriever.SearchServices Embedding)
    (self : HybridRetriever.t) (requirements : UserRequirements) :
  (forall query filters e,
      HybridRetriever.embed services query = Raise e ->
      HybridRetriever._dense_search services self query filters = [])
  /\ (forall query filters embedding e,
        HybridRetriever.embed services query = Ok embedding ->
        HybridRetriever.query_points services embedding
          (dense_top_k (retrieval (HybridRetriever.config self))) filters
        = Raise e ->
        HybridRetriever._dense_search services self query filters = [])
  /\ (HybridRetriever._dense_search services self
        (search_query requirements)
        (HybridRetriever._build_filters requirements) = [] ->
      exists candidates,
        HybridRetriever.retrieve set_iter services self requirements
        = Ok candidates
        /\ map RetrievedCandidate.raw_payload candidates
           = fetched_payloads services
               (slice_to
                  (map (@HybridRetriever.hit_id R)
                     (HybridRetriever._sparse_search set_iter self
                        (search_query requirements)))
                  (fusion_top_k
                     (retrieval (HybridRetriever.config self))))
        /\ ((0 <= fusion_top_k (retrieval (HybridRetriever.config self)))%Z ->
            map RetrievedCandidate.raw_payload candidates
            = fetched_payloads services
                (firstn
                   (Z.to_nat
                      (fusion_top_k
                         (retrieval (HybridRetriever.config self))))
                   (map (@HybridRetriever.hit_id R)
                      (HybridRetriever._sparse_search set_iter self
                         (search_query requirements))))
            /\ (len candidates
                <= fusion_top_k
                     (retrieval (HybridRetriever.config self)))%Z))
  /\ (HybridRetriever._sparse_search set_iter self
        (search_query requirements) = [] ->
      NoDup (map HybridRetriever.result_id
               (HybridRetriever._dense_search services self
                  (search_query requirements)
                  (HybridRetriever._build_filters requirements))) ->
      exists candidates,
        HybridRetriever.retrieve set_iter services self requirements
        = Ok candidates
        /\ map RetrievedCandidate.raw_payload candidates
           = fetched_payloads services
               (slice_to
                  (map HybridRetriever.result_id
                     (HybridRetriever._dense_search services self
                        (search_query requirements)
                        (HybridRetriever._build_filters requirements)))
                  (fusion_top_k
                     (retrieval (HybridRetriever.config self))))
        /\ ((0 <= fusion_top_k (retrieval (HybridRetriever.config self)))%Z ->
            map RetrievedCandidate.raw_payload candidates
            = fetched_payloads services
                (firstn
                   (Z.to_nat
                      (fusion_top_k
                         (retrieval (HybridRetriever.config self))))
                   (map HybridRetriever.result_id
                      (HybridRetriever._dense_search services self
                         (search_query requirements)
                         (HybridRetriever._build_filters requirements))))
            /\ (len candidates
                <= fusion_top_k
                     (retrieval (HybridRetriever.config self)))%Z)).
Proof.
  split; [|split; [|split]].
  - intros query filters e He. unfold HybridRetriever._dense_search.
    now rewrite He.
  - intros query filters embedding e He Hq.
    unfold HybridRetriever._dense_search. rewrite He. cbn [bind].
    now rewrite Hq.
  - intros Hdense.
    unfold HybridRetriever.retrieve. cbv zeta.
    fold (search_query requirements). rewrite Hdense. cbn [map].
    destruct (@rrf_dense_empty Q R self
                (HybridRetriever._sparse_search set_iter self
                   (search_query requirements))
                HybridRetriever.default_k)
      as (fused & Hrun & Hkeys).
    { unfold HybridRetriever.default_k. lia. }
    { apply sparse_search_distinct. }
    rewrite Hrun. cbn [bind]. eexists. split; [reflexivity|].
    destruct (fetch_candidates_facts services fused)
      as (Hshort & _ & Hpay & _).
    rewrite Hpay, Hkeys. split; [reflexivity|].
    intros Hlimit.
    destruct (proj1 (slice_to_cut
                       (map (@HybridRetriever.hit_id R)
                          (HybridRetriever._sparse_search set_iter self
                             (search_query requirements)))
                       (fusion_top_k
                          (retrieval (HybridRetriever.config self))))
                Hlimit) as (Hcut & Hbound & _).
    split; [now rewrite Hcut|].
    rewrite <- Hkeys in Hbound. unfold len in *.
    rewrite length_map in Hbound. lia.
  - intros Hsparse Hnd.
    unfold HybridRetriever.retrieve. cbv zeta.
    fold (search_query requirements). rewrite Hsparse.
    destruct (@rrf_sparse_empty Q R self
                (map HybridRetriever.dense_hit
                   (HybridRetriever._dense_search services self
                      (search_query requirements)
                      (HybridRetriever._build_filters requirements)))
                HybridRetriever.default_k)
      as (fused & Hrun & Hkeys).
    { unfold HybridRetriever.default_k. lia. }
    { rewrite map_map. cbn [HybridRetriever.dense_hit HybridRetriever.hit_id].
      exact Hnd. }
    rewrite Hrun. cbn [bind]. eexists. split; [reflexivity|].
    destruct (fetch_candidates_facts services fused)
      as (Hshort & _ & Hpay & _).
    rewrite Hpay, Hkeys, map_map.
    cbn [HybridRetriever.dense_hit HybridRetriever.hit_id].
    split; [reflexivity|].
    intros Hlimit.
    destruct (proj1 (slice_to_cut
                       (map HybridRetriever.result_id
                          (HybridRetriever._dense_search services self
                             (search_query requirements)
                             (HybridRetriever._build_filters requirements)))
                       (fusion_top_k
                          (retrieval (HybridRetriever.config self))))
                Hlimit) as (Hcut & Hbound & _).
    split; [rewrite <- Hcut; reflexivity|].
    assert (length fused
            = length (slice_to
                        (map HybridRetriever.result_id
                           (HybridRetriever._dense_search services self
                              (search_query requirements)
                              (HybridRetriever._build_filters requirements)))
                        (fusion_top_k
                           (retrieval (HybridRetriever.config self)))))
      as Hlen.
    { rewrite <- (length_map fst fused), Hkeys, map_map. reflexivity. }
    unfold len in *. lia.
Qed.

(** X17.  The cost of retrieval followed by reranking, the second and third
    stage of [recommend], for a retriever and a reranker set up from the
    same configuration with [fusion_top_k >= 1] and [max_candidates >= 1].
    The two stages raise nothing.  Of the candidates retrieved, the first
    [max_candidates] come back, reordered; for [n] of them the reranker has
    made exactly [min(top_k_results, 3) * (n - 1)] calls to the LLM (none
    for [n <= 1]), each answered by the oracle and each about two of the
    candidates retrieved.  Hence at most [min(fusion_top_k, max_candidates)]
    scored candidates and at most
    [3 * (min(fusion_top_k, max_candidates) - 1)] calls, whatever
    [top_k_results] is: at most 20 candidates and 57 calls with the default
    configuration. *)
Theorem retrieve_and_rerank_cost (set_iter : list string -> list string)
    (Embedding : Type)
    (services : HybridRetriever.SearchServices Embedding)
    (retriever : HybridRetriever.t) (o : Oracle RetrievedCandidate.t)
    (requirements : UserRequirements) :
  (1 <= fusion_top_k (retrieval (HybridRetriever.config retriever)))%Z ->
  (1 <= max_candidates (reranking (HybridRetriever.config retriever)))%Z ->
  exists candidates out calls,
    HybridRetriever.retrieve set_iter services retriever requirements
    = Ok candidates
    /\ RecommendationPipeline.retrieve_and_rerank set_iter services retriever
         (LLMReranker_init (HybridRetriever.config retriever) o) requirements
       = Ok (out, calls)
    /\ Permutation (map (@candidate RetrievedCandidate.t) out)
         (firstn
            (Z.to_nat
               (max_candidates
                  (reranking (HybridRetriever.config retriever))))
            candidates)
    /\ (forall i e,
          nth_error calls i = Some e ->
          outcome e = o i (asked_query e) (asked_a e) (asked_b e)
          /\ In (asked_a e) candidates /\ In (asked_b e) candidates)
    /\ length calls
       = (range_count
            (Z.min (top_k_results (HybridRetriever.config retriever)) 3)
          * (length out - 1))%nat
    /\ (len out
        <= Z.min (fusion_top_k (retrieval (HybridRetriever.config retriever)))
             (max_candidates
                (reranking (HybridRetriever.config retriever))))%Z
    /\ (len calls
        <= 3 * (Z.min
                  (fusion_top_k (retrieval (HybridRetriever.config retriever)))
                  (max_candidates
                     (reranking (HybridRetriever.config retriever))) - 1))%Z.
Proof.
  intros Hftk Hmc.
  set (cfg := HybridRetriever.config retriever) in *.
  destruct (retrieve_runs set_iter services retriever requirements)
    as (fused & _ & Hrun & _ & Hlen).
  destruct (fetch_candidates_facts services fused) as (Hshort & _).
  fold cfg in Hlen. specialize (Hlen ltac:(lia)). unfold len in Hlen.
  unfold RecommendationPipeline.retrieve_and_rerank.
  rewrite Hrun. cbn [bind].
  set (candidates := HybridRetriever._fetch_candidates services fused) in *.
  exists candidates.
  assert (range_count (Z.min (top_k_results cfg) 3) <= 3)%nat as Hp
    by (unfold range_count; lia).
  set (p := range_count (Z.min (top_k_results cfg) 3)) in *.
  destruct (Nat.le_gt_cases (length candidates) 1) as [Hle|Hgt].
  - assert (exists out,
               (if HybridRetriever.nonempty_list candidates
                then rerank (LLMReranker_init cfg o) requirements candidates
                else Ok ([], [])) = Ok (out, [])
               /\ map (@candidate RetrievedCandidate.t) out = candidates)
      as (out & Hr & Hc).
    { destruct candidates as [|c rest]; cbn [HybridRetriever.nonempty_list].
      - exists []. split; reflexivity.
      - apply rerank_early. exact Hle. }
    exists out, []. split; [reflexivity|]. split; [exact Hr|].
    assert (length out = length candidates) as Ho
      by (rewrite <- Hc; now rewrite length_map).
    split; [rewrite Hc, firstn_all2 by lia; reflexivity|].
    split; [intros [|i] e H; discriminate H|].
    split; [cbn [length]; lia|]. unfold len. cbn [length]. lia.
  - assert (HybridRetriever.nonempty_list candidates = true) as ->
      by (destruct candidates; [cbn in Hgt; lia|reflexivity]).
    destruct (rerank_main (LLMReranker_init cfg o) requirements candidates)
      as (out & ranked & calls & Hpass & Hr & Hc); [lia|].
    exists out, calls. split; [reflexivity|]. split; [exact Hr|].
    cbn [Reranker.config LLMReranker_init num_passes] in Hpass.
    pose proof (bubble_passes_perm (LLMReranker_init cfg o)
                  (raw_query requirements) p
                  (slice_to candidates (max_candidates (reranking cfg))) [])
      as Hperm.
    destruct (bubble_passes_calls (LLMReranker_init cfg o)
                (raw_query requirements) p
                (slice_to candidates (max_candidates (reranking cfg))) [])
      as (new & Hnew & Hcalls & Hans & Hask).
    fold p in Hpass. rewrite Hpass in Hperm, Hnew.
    cbn [fst snd app] in Hperm, Hnew. subst new.
    specialize (Hans (answered_by_nil _)). cbn [app] in Hans.
    destruct (proj1 (slice_to_cut candidates
                       (max_candidates (reranking cfg))) ltac:(lia))
      as (Hcut & Hbound & _).
    unfold len in Hbound.
    assert (length out = length ranked) as Ho
      by (rewrite <- Hc; now rewrite length_map).
    pose proof (Permutation_length Hperm) as Hn.
    pose proof (slice_to_length_le candidates
                  (max_candidates (reranking cfg))) as H1.
    split; [now rewrite Hc, <- Hcut|].
    split.
    { intros i e Hi. split; [exact (Hans i e Hi)|].
      destruct (Hask e (nth_error_In _ _ Hi)) as (_ & Ha & Hb).
      split; eapply slice_to_in; eassumption. }
    split; [rewrite Hcalls, Ho, Hn; reflexivity|].
    set (n := length (slice_to candidates
                        (max_candidates (reranking cfg)))) in *.
    split; [unfold len; lia|].
    unfold len. rewrite Hcalls.
    assert (p * (n - 1) <= 3 * (n - 1))%nat as Hmul
      by (apply Nat.mul_le_mono_r; exact Hp).
    lia.
Qed.

Lemma retrieve_and_rerank_cost_witness :
  exists candidates out calls,
    HybridRetriever.retrieve insertion_order answering_services
      default_retriever sample_requirements
    = Ok candidates
    /\ RecommendationPipeline.retrieve_and_rerank insertion_order
         answering_services default_retriever
         (LLMReranker_init (HybridRetriever.config default_retriever)
            second_oracle)
         sample_requirements
       = Ok (out, calls)
    /\ Permutation (map (@candidate RetrievedCandidate.t) out)
         (firstn
            (Z.to_nat
               (max_candidates
                  (reranking (HybridRetriever.config default_retriever))))
            candidates)
    /\ (forall i e,
          nth_error calls i = Some e ->
          outcome e = second_oracle i (asked_query e) (asked_a e) (asked_b e)
          /\ In (asked_a e) candidates /\ In (asked_b e) candidates)
    /\ length calls
       = (range_count
            (Z.min (top_k_results (HybridRetriever.config default_retriever))
               3)
          * (length out - 1))%nat
    /\ (len out
        <= Z.min
             (fusion_top_k
                (retrieval (HybridRetriever.config default_retriever)))
             (max_candidates
                (reranking (HybridRetriever.config default_retriever))))%Z
    /\ (len calls
        <= 3 * (Z.min
                  (fusion_top_k
                     (retrieval (HybridRetriever.config default_retriever)))
                  (max_candidates
                     (reranking (HybridRetriever.config default_retriever)))
                - 1))%Z.
Proof.
  apply (@retrieve_and_rerank_cost insertion_order unit answering_services
           default_retriever second_oracle sample_requirements).
  - simpl. lia.
  - simpl. lia.
Defined.

(** The bounds are met: of twenty-six points found by the vector search,
    twenty-five are retrieved, twenty are reranked and returned, and the
    three passes over them make fifty-seven calls. *)
Example retrieve_and_rerank_meets_bounds :
  match HybridRetriever.retrieve insertion_order answering_services
          default_retriever sample_requirements,
        RecommendationPipeline.retrieve_and_rerank insertion_order
          answering_services default_retriever
          (LLMReranker_init DEFAULT_CONFIG second_oracle)
          sample_requirements
  with
  | Ok candidates, Ok (out, calls) =>
      length candidates = 25%nat /\ length out = 20%nat
      /\ length calls = 57%nat
  | _, _ => False
  end.
Proof. vm_compute. repeat split. Qed.

(** ** From the store to the sparse hits *)

Lemma search_built_complete (set_iter : list string -> list string)
    (k1 b : R) (docs : list (string * string)) (index : BM25Index.t)
    (query : string) (top_k : Z) (doc_id text token : string) :
  is_set_order set_iter ->
  (0 <= k1)%R -> (0 <= b <= 1)%R ->
  NoDup (map fst docs) ->
  indexed k1 b docs index ->
  (len docs <= top_k)%Z ->
  In (doc_id, text) docs ->
  In token (BM25Index._tokenize query) ->
  In token (BM25Index._tokenize text) ->
  exists results,
    BM25Index.search set_iter index query top_k = Ok results
    /\ In doc_id (map fst results).
Proof.
  intros Hiter Hk1 Hb Hnd Hidx Hall Hdoc Htok Hmem.
  set (scores := accumulate set_iter index (BM25Index._tokenize query) []).
  assert (Hkeys : map fst scores
                  = set_of_list
                      (visited set_iter index (BM25Index._tokenize query)))
    by apply accumulate_keys.
  assert (Hperm : Permutation (sorted_reverse snd Rltb scores) scores)
    by apply sorted_reverse_perm.
  exists (slice_to (sorted_reverse snd Rltb scores) top_k).
  split; [eapply search_indexed; eassumption|].
  rewrite slice_to_all.
  - apply (Permutation_in _ (Permutation_map fst (Permutation_sym Hperm))).
    rewrite Hkeys. apply set_of_list_in.
    eapply visited_in; try eassumption. now apply set_mem_in.
  - unfold len in *. rewrite (Permutation_length Hperm).
    rewrite <- (length_map fst scores), <- (length_map fst docs) in *.
    assert (length (map fst scores) <= length (map fst docs))%nat; [|lia].
    apply NoDup_incl_length.
    + rewrite Hkeys. apply set_of_list_nodup.
    + intros d Hd. rewrite Hkeys in Hd. apply -> set_of_list_in in Hd.
      eapply visited_ids; eassumption.
Qed.

(** X18.  From the store to the sparse hits.  When the store serves points
    with distinct ids and ends the scroll, and [sparse_top_k] is at least
    the number of points, the retriever that the constructor returns finds
    every point by its words: a query that shares a token with the search
    text of a point has that point among the hits of [_sparse_search]. *)
Theorem sparse_search_finds_indexed_points
    (set_iter : list string -> list string) (fuel : nat)
    (cfg : PipelineConfig) (store : HybridRetriever.VectorStore)
    (pages : list (list HybridRetriever.Point * string))
    (last : list HybridRetriever.Point) :
  is_set_order set_iter ->
  scroll_serves store None pages last ->
  (length pages < fuel)%nat ->
  NoDup (map HybridRetriever.point_id (concat (map fst pages) ++ last)) ->
  (len (concat (map fst pages) ++ last)
   <= sparse_top_k (retrieval cfg))%Z ->
  exists retriever printed,
    HybridRetriever.init set_iter fuel cfg (Ok tt) store
    = Some (Ok (retriever, printed))
    /\ forall point query token,
         In point (concat (map fst pages) ++ last) ->
         In token (BM25Index._tokenize query) ->
         In token
            (BM25Index._tokenize
               (HybridRetriever._create_search_text
                  (HybridRetriever.payload point))) ->
         In (HybridRetriever.point_id point)
            (map (@HybridRetriever.hit_id R)
               (HybridRetriever._sparse_search set_iter retriever query)).
Proof.
  intros Hiter Hserve Hfuel Hnd Hall.
  unfold HybridRetriever.init, HybridRetriever._build_bm25_index.
  cbn [HybridRetriever.qdrant HybridRetriever.bm25_index
       HybridRetriever.config].
  rewrite (@scroll_loop_success set_iter store last pages None
             (BM25Index.init BM25Index.default_k1 BM25Index.default_b)
             0%Z fuel ltac:(cbn; lia) Hserve Hfuel).
  eexists _, _. split; [reflexivity|].
  intros point query token Hpoint Htok Hmem.
  set (points := (concat (map fst pages) ++ last)%list) in *.
  assert (NoDup (map fst (points_docs points))) as Hnd'.
  { unfold points_docs. rewrite map_map. cbn [fst]. exact Hnd. }
  pose proof (@build_indexed set_iter BM25Index.default_k1
                BM25Index.default_b (points_docs points) Hiter Hnd')
    as Hidx.
  destruct (@search_built_complete set_iter BM25Index.default_k1
              BM25Index.default_b (points_docs points)
              (build set_iter BM25Index.default_k1 BM25Index.default_b
                 (points_docs points))
              query (sparse_top_k (retrieval cfg))
              (HybridRetriever.point_id point)
              (HybridRetriever._create_search_text
                 (HybridRetriever.payload point))
              token Hiter)
    as (results & Hrun & Hin); try assumption.
  - left. apply default_k1_pos.
  - apply default_b_range.
  - unfold len, points_docs in *. now rewrite length_map.
  - unfold points_docs. apply in_map_iff. exists point. now split.
  - unfold HybridRetriever._sparse_search.
    cbn [HybridRetriever.bm25_index HybridRetriever.config].
    unfold build in Hrun. rewrite Hrun. rewrite map_map.
    cbn [HybridRetriever.hit_id]. exact Hin.
Qed.

Lemma sparse_search_finds_indexed_points_witness :
  exists retriever printed,
    HybridRetriever.init insertion_order 2 DEFAULT_CONFIG (Ok tt)
      one_point_store
    = Some (Ok (retriever, printed))
    /\ forall point query token,
         In point (concat (map fst [([sample_point], "1")]) ++ []) ->
         In token (BM25Index._tokenize query) ->
         In token
            (BM25Index._tokenize
               (HybridRetriever._create_search_text
                  (HybridRetriever.payload point))) ->
         In (HybridRetriever.point_id point)
            (map (@HybridRetriever.hit_id R)
               (HybridRetriever._sparse_search insertion_order retriever
                  query)).
Proof.
  apply (@sparse_search_finds_indexed_points insertion_order 2
           DEFAULT_CONFIG one_point_store [([sample_point], "1")] []).
  - apply insertion_order_is_set_order.
  - split; [discriminate|]. split; [reflexivity|].
    exists None. split; [reflexivity|now left].
  - simpl. lia.
  - repeat constructor; simpl; intuition discriminate.
  - vm_compute. discriminate.
Defined.

(** ** How far a pass can move a candidate down *)

Section Demotion.

Context {C : Type}.
Variable self : LLMReranker C.
Variable query : string.

Lemma bubble_demotes_by_one (l : list C) (calls : list (Exchange C))
    (i : nat) (c : C) :
  nth_error l i = Some c ->
  exists j,
    (j <= i + 1)%nat
    /\ nth_error (fst (bubble self query l calls)) j = Some c.
Proof.
  revert i. induction l as [|x t IH]; intros i Hi.
  - destruct i; discriminate Hi.
  - cbn [bubble].
    destruct (bubble self query t calls) as [[|y t'] n] eqn:E;
      cbn [fst] in IH.
    + destruct i as [|i]; cbn [nth_error] in Hi.
      * exists O. split; [lia|exact Hi].
      * destruct (IH i Hi) as (j & _ & Hj). destruct j; discriminate Hj.
    + destruct (_compare_pair self n query x y) as [winner n'].
      destruct (String.eqb winner "B"); cbn [fst].
      * destruct i as [|i]; cbn [nth_error] in Hi.
        -- exists 1%nat. split; [lia|exact Hi].
        -- destruct (IH i Hi) as ([|j] & Hle & Hj); cbn [nth_error] in Hj.
           ++ exists O. split; [lia|exact Hj].
           ++ exists (S (S j)). split; [lia|exact Hj].
      * destruct i as [|i]; cbn [nth_error] in Hi.
        -- exists O. split; [lia|exact Hi].
        -- destruct (IH i Hi) as (j & Hle & Hj).
           exists (S j). split; [lia|exact Hj].
Qed.

Lemma bubble_passes_demote (p : nat) (l : list C)
    (calls : list (Exchange C)) (i : nat) (c : C) :
  nth_error l i = Some c ->
  exists j,
    (j <= i + p)%nat
    /\ nth_error (fst (bubble_passes self query p l calls)) j = Some c.
Proof.
  revert l calls i. induction p as [|p IH]; intros l calls i Hi;
    cbn [bubble_passes].
  - exists i. split; [lia|exact Hi].
  - destruct (bubble_demotes_by_one l calls i Hi) as (j & Hle & Hj).
    destruct (bubble self query l calls) as [l' n]. cbn [fst] in Hj.
    destruct (IH l' n j Hj) as (j' & Hle' & Hj').
    exists j'. split; [lia|exact Hj'].
Qed.

End Demotion.

(** X24.  How far [rerank] can move a candidate down.  Whatever the oracle
    answers, a back-to-first pass moves a candidate at most one position
    down, so a candidate that stands at position [i] among the retained
    candidates is found at a position of at most [i + num_passes] in the
    output: with the default three passes nobody loses more than three
    places. *)
Theorem rerank_demotes_by_at_most_num_passes (C : Type)
    (self : LLMReranker C) (requirements : UserRequirements)
    (candidates : list C) :
  exists out calls,
    rerank self requirements candidates = Ok (out, calls)
    /\ forall i c,
         nth_error (retained self candidates) i = Some c ->
         exists j,
           (j <= i + range_count (num_passes self))%nat
           /\ nth_error (map (@candidate C) out) j = Some c.
Proof.
  destruct (le_lt_dec (length candidates) 1) as [Hle|Hgt].
  - destruct (rerank_early self requirements candidates Hle)
      as (out & Hr & Hc).
    exists out, []. split; [exact Hr|]. intros i c Hi.
    exists i. split; [lia|]. rewrite Hc. revert Hi.
    unfold retained, len.
    destruct (Z.leb_spec (Z.of_nat (length candidates)) 1); [trivial|lia].
  - destruct (rerank_main self requirements candidates)
      as (out & ranked & calls & Hrun & Hr & Hc); [lia|].
    exists out, calls. split; [exact Hr|]. intros i c Hi.
    rewrite retained_main in Hi by lia. rewrite Hc.
    destruct (@bubble_passes_demote C self (raw_query requirements)
                (range_count (num_passes self))
                (slice_to candidates
                   (max_candidates (reranking (config self))))
                [] i c Hi) as (j & Hle & Hj).
    rewrite Hrun in Hj. exists j. split; [exact Hle|exact Hj].
Qed.

(** ** Length normalisation *)

Lemma term_value_shorter (k1 b avg idf : R) (tf len1 len2 : Z) :
  (0 < idf)%R -> (0 < k1)%R -> (0 < b <= 1)%R -> (0 < avg)%R ->
  (1 <= tf)%Z -> (0 <= len1)%Z -> (len1 < len2)%Z ->
  (term_value k1 b avg idf tf len2 < term_value k1 b avg idf tf len1)%R.
Proof.
  intros Hidf Hk1 Hb Havg Htf Hl1 Hl12.
  unfold term_value.
  apply IZR_le in Htf, Hl1. apply IZR_lt in Hl12.
  set (t := IZR tf) in *. set (l1 := IZR len1) in *.
  set (l2 := IZR len2) in *.
  assert (0 < / avg)%R as Hinv by now apply Rinv_0_lt_compat.
  assert (b * l1 / avg < b * l2 / avg)%R as Hq.
  { unfold Rdiv. apply Rmult_lt_compat_r; [exact Hinv|]. nra. }
  assert (0 <= b * l1 / avg)%R as Hq1.
  { unfold Rdiv. apply Rmult_le_pos; [nra|lra]. }
  set (q1 := (b * l1 / avg)%R) in *. set (q2 := (b * l2 / avg)%R) in *.
  assert (0 < t + k1 * (1 - b + q1))%R as HD1 by nra.
  assert (t + k1 * (1 - b + q1) < t + k1 * (1 - b + q2))%R as HD by nra.
  assert (0 < idf * (t * (k1 + 1)))%R as HN.
  { apply Rmult_lt_0_compat; [exact Hidf|]. nra. }
  unfold Rdiv. apply Rmult_lt_compat_l; [exact HN|].
  apply Rinv_lt_contravar; [|exact HD]. nra.
Qed.

Section LengthNormalisation.

Variable set_iter : list string -> list string.
Hypothesis set_iter_order : is_set_order set_iter.

Variables k1 b : R.
Hypothesis k1_pos : (0 < k1)%R.
Hypothesis b_pos : (0 < b <= 1)%R.

Variable docs : list (string * string).
Hypothesis docs_distinct : NoDup (map fst docs).

Variable index : BM25Index.t.
Hypothesis index_built : indexed k1 b docs index.

Variables d_short text_short d_long text_long : string.
Hypothesis short_indexed : In (d_short, text_short) docs.
Hypothesis long_indexed : In (d_long, text_long) docs.
Hypothesis shorter :
  (len (BM25Index._tokenize text_short)
   < len (BM25Index._tokenize text_long))%Z.

Lemma query_score_shorter (query_tokens : list string) :
  (forall u, In u query_tokens ->
             count (BM25Index._tokenize text_short) u
             = count (BM25Index._tokenize text_long) u) ->
  (query_score index query_tokens d_long
   <= query_score index query_tokens d_short)%R
  /\ (forall term,
        In term query_tokens ->
        In term (BM25Index._tokenize text_short) ->
        (query_score index query_tokens d_long
         < query_score index query_tokens d_short)%R).
Proof.
  assert (0 <= b <= 1)%R as b_range by lra.
  induction query_tokens as [|u rest IH]; intros Hsame.
  - simpl. split; [lra|]. intros term [].
  - cbn [query_score].
    rewrite (@visit_condition k1 b b_range docs docs_distinct index
               index_built u _ _ short_indexed).
    rewrite (@visit_condition k1 b b_range docs docs_distinct index
               index_built u _ _ long_indexed).
    rewrite !(@doc_value_indexed k1 b docs docs_distinct index index_built
                u _ _ _ short_indexed).
    rewrite !(@doc_value_indexed k1 b docs docs_distinct index index_built
                u _ _ _ long_indexed).
    destruct IH as [IHle IHlt].
    { intros v Hv. apply Hsame. now right. }
    pose proof (Hsame u (or_introl eq_refl)) as Hc.
    assert (set_mem u (BM25Index._tokenize text_long)
            = set_mem u (BM25Index._tokenize text_short)) as Hmem.
    { destruct (set_mem u (BM25Index._tokenize text_long)) eqn:E1,
               (set_mem u (BM25Index._tokenize text_short)) eqn:E2;
        try reflexivity.
      - apply count_pos in E1. apply count_zero in E2. lia.
      - apply count_zero in E1. apply count_pos in E2. lia. }
    rewrite Hmem, <- Hc.
    destruct (set_mem u (BM25Index._tokenize text_short)) eqn:Hu.
    + assert (dict_mem (BM25Index.inverted_index index) u = true) as Hk.
      { apply (indexed_known index_built). intros Hnil.
        assert (In d_short (docs_with u docs)) as H
          by (apply docs_with_spec; now exists text_short).
        rewrite Hnil in H. destruct H. }
      destruct (idf_indexed index_built u Hk) as [_ Hidf].
      pose proof (@indexed_avg_pos k1 b docs docs_distinct index index_built
                    u d_short text_short short_indexed Hu) as Havg.
      destruct (count_pos _ _ Hu) as [Htf Hlen].
      pose proof (@term_value_shorter k1 b
                    (BM25Index.avg_doc_length index)
                    (token_idf index u)
                    (count (BM25Index._tokenize text_short) u)
                    (len (BM25Index._tokenize text_short))
                    (len (BM25Index._tokenize text_long))
                    Hidf k1_pos b_pos Havg Htf ltac:(lia) shorter)
        as Hdec.
      split; [lra|]. intros term _ _. lra.
    + split; [lra|].
      intros term [<-|Hin] Hterm.
      * apply set_mem_in in Hterm. rewrite Hterm in Hu. discriminate Hu.
      * specialize (IHlt term Hin Hterm). lra.
Qed.

End LengthNormalisation.

(** X25.  BM25 length normalisation.  In an index built from documents with
    distinct ids, with [k1 > 0] and [0 < b <= 1], take two documents in which
    every query token occurs equally often, at least one of them occurring
    at all.  Then [search] gives the document with fewer tokens the
    strictly higher score.  Scores are real numbers here. *)
Theorem search_prefers_shorter_document
    (set_iter : list string -> list string) (k1 b : R)
    (docs : list (string * string)) (query : string)
    (d_short text_short d_long text_long term : string) :
  is_set_order set_iter ->
  (0 < k1)%R -> (0 < b <= 1)%R ->
  NoDup (map fst docs) ->
  In (d_short, text_short) docs -> In (d_long, text_long) docs ->
  (len (BM25Index._tokenize text_short)
   < len (BM25Index._tokenize text_long))%Z ->
  In term (BM25Index._tokenize query) ->
  In term (BM25Index._tokenize text_short) ->
  (forall u, In u (BM25Index._tokenize query) ->
             count (BM25Index._tokenize text_short) u
             = count (BM25Index._tokenize text_long) u) ->
  exists scores s_short s_long,
    (forall top_k,
        BM25Index.search set_iter (build set_iter k1 b docs) query top_k
        = Ok (slice_to (sorted_reverse snd Rltb scores) top_k))
    /\ In (d_short, s_short) (sorted_reverse snd Rltb scores)
    /\ In (d_long, s_long) (sorted_reverse snd Rltb scores)
    /\ (s_long < s_short)%R.
Proof.
  intros Hiter Hk1 Hb Hnd Hshort Hlong Hlen Hterm Hin Hsame.
  pose proof (@build_indexed set_iter k1 b docs Hiter Hnd) as Hidx.
  assert (0 <= k1)%R as Hk1' by lra.
  assert (0 <= b <= 1)%R as Hb' by lra.
  set (index := build set_iter k1 b docs) in *.
  set (scores := accumulate set_iter index (BM25Index._tokenize query) []).
  assert (Hsearch : forall top_k,
             BM25Index.search set_iter index query top_k
             = Ok (slice_to (sorted_reverse snd Rltb scores) top_k)).
  { intros top_k. eapply search_indexed; eassumption. }
  assert (Hkeys : map fst scores
                  = set_of_list
                      (visited set_iter index (BM25Index._tokenize query)))
    by apply accumulate_keys.
  assert (Hmem_short :
            set_mem term (BM25Index._tokenize text_short) = true)
    by now apply set_mem_in.
  assert (Hmem_long : set_mem term (BM25Index._tokenize text_long) = true).
  { destruct (set_mem term (BM25Index._tokenize text_long)) eqn:E;
      [reflexivity|].
    apply count_zero in E. destruct (count_pos _ _ Hmem_short) as [H _].
    rewrite (Hsame term Hterm) in H. lia. }
  assert (Hin_short : In d_short (map fst scores)).
  { rewrite Hkeys. apply set_of_list_in. eapply visited_in; eassumption. }
  assert (Hin_long : In d_long (map fst scores)).
  { rewrite Hkeys. apply set_of_list_in. eapply visited_in; eassumption. }
  assert (Hperm : Permutation (sorted_reverse snd Rltb scores) scores)
    by apply sorted_reverse_perm.
  exists scores,
    (dict_get_default scores d_short 0%R),
    (dict_get_default scores d_long 0%R).
  split; [exact Hsearch|].
  split.
  { apply (Permutation_in _ (Permutation_sym Hperm)).
    now apply scored_entry. }
  split.
  { apply (Permutation_in _ (Permutation_sym Hperm)).
    now apply scored_entry. }
  unfold scores.
  rewrite !(@accumulate_value set_iter Hiter k1 b docs Hnd index Hidx).
  cbn [dict_get_default dict_get].
  destruct (@query_score_shorter k1 b Hk1 Hb docs Hnd index Hidx
              d_short text_short d_long text_long
              Hshort Hlong Hlen (BM25Index._tokenize query) Hsame)
    as [_ Hlt].
  specialize (Hlt term Hterm Hin). lra.
Qed.

Lemma search_prefers_shorter_document_witness :
  exists scores s_short s_long,
    (forall top_k,
        BM25Index.search insertion_order
          (build insertion_order BM25Index.default_k1 BM25Index.default_b
             [("short", "managed database");
              ("long", "managed database for web applications")])
          "database" top_k
        = Ok (slice_to (sorted_reverse snd Rltb scores) top_k))
    /\ In ("short", s_short) (sorted_reverse snd Rltb scores)
    /\ In ("long", s_long) (sorted_reverse snd Rltb scores)
    /\ (s_long < s_short)%R.
Proof.
  apply (@search_prefers_shorter_document insertion_order
           BM25Index.default_k1 BM25Index.default_b
           [("short", "managed database");
            ("long", "managed database for web applications")]
           "database" "short" "managed database"
           "long" "managed database for web applications" "database"
           insertion_order_is_set_order default_k1_pos).
  - unfold BM25Index.default_b. lra.
  - repeat constructor; simpl; intuition discriminate.
  - simpl. auto.
  - simpl. auto.
  - vm_compute. reflexivity.
  - vm_compute. auto.
  - vm_compute. auto.
  - intros u Hu. vm_compute in Hu. destruct Hu as [<-|[]].
    vm_compute. reflexivity.
Defined.

(** ** Rank fusion respects agreement *)

Lemma rank_from_lower (start : Z) (ids : list string) (id : string) (r : Z) :
  rank_from start ids id = Some r -> (start <= r)%Z.
Proof.
  revert start. induction ids as [|x t IH]; intros start;
    cbn [rank_from]; [discriminate|].
  destruct (String.eqb x id).
  - intros H. injection H as <-. lia.
  - intros H. apply IH in H. lia.
Qed.

Lemma rank_from_in (start : Z) (ids : list string) (id : string) (r : Z) :
  rank_from start ids id = Some r -> In id ids.
Proof.
  revert start. induction ids as [|x t IH]; intros start;
    cbn [rank_from]; [discriminate|].
  destruct (String.eqb_spec x id) as [->|Hne].
  - intros _. now left.
  - intros H. right. eapply IH. exact H.
Qed.

Lemma contribution_nonneg (k : Z) (rank : option Z) :
  (0 <= k)%Z -> (forall r, rank = Some r -> (1 <= r)%Z) ->
  0 <= contribution k rank.
Proof.
  intros Hk Hr. destruct rank as [r|]; cbn [contribution]; [|Lqa.lra].
  specialize (Hr r eq_refl). unfold Qdiv. rewrite Qmult_1_l.
  apply Qinv_le_0_compat. unfold Qle. simpl. lia.
Qed.

Lemma reciprocal_lt (k ra rb : Z) :
  (0 <= k)%Z -> (1 <= ra)%Z -> (ra < rb)%Z ->
  1 / inject_Z (k + rb) < 1 / inject_Z (k + ra).
Proof.
  intros Hk Ha Hab. unfold Qdiv. rewrite !Qmult_1_l.
  assert (0 < inject_Z (k + ra)) as H1 by (unfold Qlt; simpl; lia).
  assert (0 < inject_Z (k + rb)) as H2 by (unfold Qlt; simpl; lia).
  assert (inject_Z (k + ra) < inject_Z (k + rb)) as H3
    by (rewrite <- Zlt_Qlt; lia).
  apply (proj1 (Qinv_lt_contravar _ _ H1 H2)). exact H3.
Qed.

Lemma contribution_not_below (k : Z) (ids : list string) (a b : string) :
  (0 <= k)%Z ->
  not_below ids a b ->
  contribution k (rank_of ids b) <= contribution k (rank_of ids a).
Proof.
  intros Hk [Hnone|(ra & Ha & Hb)].
  - rewrite Hnone. cbn [contribution]. apply contribution_nonneg;
      [exact Hk|].
    intros r Hr. unfold rank_of in Hr. now apply rank_from_lower in Hr.
  - rewrite Ha. pose proof (rank_from_lower _ _ _ Ha) as Hlo.
    destruct Hb as [->|(rb & -> & Hlt)]; cbn [contribution].
    + apply (@contribution_nonneg k (Some ra)); [exact Hk|].
      intros r H. injection H as <-. exact Hlo.
    + apply Qlt_le_weak. now apply reciprocal_lt.
Qed.

Lemma contribution_ranks_above (k : Z) (ids : list string) (a b : string) :
  (0 <= k)%Z ->
  ranks_above ids a b ->
  contribution k (rank_of ids b) < contribution k (rank_of ids a).
Proof.
  intros Hk (ra & Ha & Hb).
  rewrite Ha. pose proof (rank_from_lower _ _ _ Ha) as Hlo.
  destruct Hb as [->|(rb & -> & Hlt)]; cbn [contribution].
  - unfold Qdiv. rewrite Qmult_1_l. apply Qinv_lt_0_compat.
    unfold Qlt. simpl. lia.
  - now apply reciprocal_lt.
Qed.

Lemma strongly_sorted_nth (A : Type) (R : A -> A -> Prop) (l : list A)
    (i j : nat) (x y : A) :
  StronglySorted R l -> (i < j)%nat ->
  nth_error l i = Some x -> nth_error l j = Some y -> R x y.
Proof.
  intros Hs. revert i j. induction Hs as [|z l Hs IH Hz]; intros i j Hij Hi Hj.
  - destruct i; discriminate Hi.
  - destruct j as [|j]; [lia|]. cbn [nth_error] in Hj.
    destruct i as [|i]; cbn [nth_error] in Hi.
    + injection Hi as <-. rewrite Forall_forall in Hz. apply Hz.
      eapply nth_error_In. exact Hj.
    + eapply IH; [|exact Hi|exact Hj]. lia.
Qed.

(** X26.  Rank fusion respects agreement.  For [k >= 0] and result lists
    with distinct ids: when in each list [b] is absent or stands after [a],
    and in at least one list [a] is listed with [b] absent or after it, the
    fused score of [a] is strictly higher than that of [b] and [a] stands
    before [b] in the sorted fusion, of which the call returns the first
    [fusion_top_k] entries, and no more; so whenever [b] is returned, [a]
    is returned before it. *)
Theorem rrf_respects_agreement (S1 S2 : Type) (self : HybridRetriever.t)
    (dense_results : list (HybridRetriever.Hit S1))
    (sparse_results : list (HybridRetriever.Hit S2)) (k : Z)
    (a b : string) :
  (0 <= k)%Z ->
  NoDup (map (@HybridRetriever.hit_id S1) dense_results) ->
  NoDup (map (@HybridRetriever.hit_id S2) sparse_results) ->
  not_below (map (@HybridRetriever.hit_id S1) dense_results) a b ->
  not_below (map (@HybridRetriever.hit_id S2) sparse_results) a b ->
  ranks_above (map (@HybridRetriever.hit_id S1) dense_results) a b
  \/ ranks_above (map (@HybridRetriever.hit_id S2) sparse_results) a b ->
  exists fused out i sa,
    HybridRetriever._reciprocal_rank_fusion self dense_results
      sparse_results k
    = Ok out
    /\ out = slice_to fused
               (fusion_top_k (retrieval (HybridRetriever.config self)))
    /\ ((0 <= fusion_top_k (retrieval (HybridRetriever.config self)))%Z ->
        out = firstn
                (Z.to_nat
                   (fusion_top_k (retrieval (HybridRetriever.config self))))
                fused
        /\ (len out
            <= fusion_top_k (retrieval (HybridRetriever.config self)))%Z)
    /\ nth_error fused i = Some (a, sa)
    /\ (forall j sb,
          nth_error fused j = Some (b, sb) -> sb < sa /\ (i < j)%nat)
    /\ (forall j sb,
          nth_error out j = Some (b, sb) ->
          nth_error out i = Some (a, sa) /\ sb < sa /\ (i < j)%nat).
Proof.
  intros Hk Hd Hs Hnd Hns Hstrict.
  destruct (fuse_ranks_spec Hk [] (start := 1) ltac:(lia) Hd)
    as (fused1 & Hrun1 & Hval1 & Hkeys1 & Hnd1).
  destruct (fuse_ranks_spec Hk fused1 (start := 1) ltac:(lia) Hs)
    as (fused2 & Hrun2 & Hval2 & Hkeys2 & Hnd2).
  assert (Hnodup : NoDup (map fst fused2)) by (apply Hnd2, Hnd1; constructor).
  set (fused := sorted_reverse snd Qltb fused2).
  assert (Hperm : Permutation fused fused2) by apply sorted_reverse_perm.
  assert (Hscore : forall id s,
             In (id, s) fused ->
             s == contribution k
                    (rank_of (map (@HybridRetriever.hit_id S1) dense_results)
                       id)
                  + contribution k
                      (rank_of
                         (map (@HybridRetriever.hit_id S2) sparse_results)
                         id)).
  { intros id s Hin.
    apply (Permutation_in _ Hperm) in Hin.
    apply dict_in_get in Hin; [|exact Hnodup].
    pose proof (Hval2 id) as H2. pose proof (Hval1 id) as H1.
    unfold dict_get_default at 1 in H2. rewrite Hin in H2.
    rewrite H2, H1. unfold rank_of. cbn. ring. }
  assert (Hlisted : In a (map fst fused)).
  { apply (Permutation_in _ (Permutation_map fst (Permutation_sym Hperm))).
    apply Hkeys2.
    destruct Hstrict as [(ra & Ha & _)|(ra & Ha & _)].
    - left. apply Hkeys1. right. eapply rank_from_in. exact Ha.
    - right. eapply rank_from_in. exact Ha. }
  apply in_map_iff in Hlisted. destruct Hlisted as ([a' sa] & Heq & Hina).
  cbn [fst] in Heq. subst a'.
  destruct (In_nth_error _ _ Hina) as [i Hi].
  exists fused.
  exists (slice_to fused
            (fusion_top_k (retrieval (HybridRetriever.config self)))).
  exists i, sa. split.
  { unfold HybridRetriever._reciprocal_rank_fusion.
    rewrite Hrun1. cbn [bind]. rewrite Hrun2. reflexivity. }
  split; [reflexivity|].
  split.
  { intros Hlimit.
    destruct (proj1 (slice_to_cut fused
                       (fusion_top_k
                          (retrieval (HybridRetriever.config self))))
                Hlimit) as (Hcut & Hbound & _).
    split; assumption. }
  split; [exact Hi|].
  assert (forall j sb,
             nth_error fused j = Some (b, sb) -> sb < sa /\ (i < j)%nat)
    as Horder; [|split; [exact Horder|]].
  2:{ intros j sb Hj.
      destruct (Horder j sb (slice_to_nth _ _ _ Hj)) as [Hlt Hij].
      split; [|split; assumption].
      exact (slice_to_keeps_earlier _ _ Hi Hj Hij). }
  intros j sb Hj.
  assert (sb < sa) as Hlt.
  { rewrite (Hscore a sa Hina), (Hscore b sb (nth_error_In _ _ Hj)).
    pose proof (contribution_not_below Hk Hnd) as H1.
    pose proof (contribution_not_below Hk Hns) as H2.
    destruct Hstrict as [H|H].
    - pose proof (contribution_ranks_above Hk H). Lqa.lra.
    - pose proof (contribution_ranks_above Hk H). Lqa.lra. }
  split; [exact Hlt|].
  destruct (Nat.lt_trichotomy i j) as [Hij|[Hij|Hij]]; [exact Hij| |].
  - subst j. rewrite Hi in Hj. injection Hj as _ Heq.
    rewrite Heq in Hlt. exfalso. revert Hlt. apply Qlt_irrefl.
  - pose proof (@strongly_sorted_nth _ _ fused j i (b, sb) (a, sa)
                  (fused_sorted_descending fused2) Hij Hj Hi) as Hle.
    cbn [snd] in Hle. exfalso. Lqa.lra.
Qed.

Lemma rrf_respects_agreement_witness :
  exists fused out i sa,
    HybridRetriever._reciprocal_rank_fusion narrow_retriever
      [hit "A"; hit "B"; hit "C"] [hit "A"; hit "C"; hit "B"] 60
    = Ok out
    /\ out = slice_to fused
               (fusion_top_k
                  (retrieval (HybridRetriever.config narrow_retriever)))
    /\ ((0 <= fusion_top_k
                (retrieval (HybridRetriever.config narrow_retriever)))%Z ->
        out = firstn
                (Z.to_nat
                   (fusion_top_k
                      (retrieval (HybridRetriever.config narrow_retriever))))
                fused
        /\ (len out
            <= fusion_top_k
                 (retrieval (HybridRetriever.config narrow_retriever)))%Z)
    /\ nth_error fused i = Some ("A", sa)
    /\ (forall j sb,
          nth_error fused j = Some ("B", sb) -> sb < sa /\ (i < j)%nat)
    /\ (forall j sb,
          nth_error out j = Some ("B", sb) ->
          nth_error out i = Some ("A", sa) /\ sb < sa /\ (i < j)%nat).
Proof.
  apply (@rrf_respects_agreement unit unit narrow_retriever
           [hit "A"; hit "B"; hit "C"] [hit "A"; hit "C"; hit "B"] 60
           "A" "B").
  - lia.
  - apply nodup_abc.
  - repeat constructor; simpl; intuition discriminate.
  - right. exists 1%Z. split; [reflexivity|]. right. exists 2%Z.
    split; [reflexivity|lia].
  - right. exists 1%Z. split; [reflexivity|]. right. exists 3%Z.
    split; [reflexivity|lia].
  - left. exists 1%Z. split; [reflexivity|]. right. exists 2%Z.
    split; [reflexivity|lia].
Defined.

(** Under a limit of two, the fusion of these lists returns ["A"] and
    ["B"], in this order, and cuts ["C"] off. *)
Example fusion_agreement_cut_to_two :
  match HybridRetriever._reciprocal_rank_fusion narrow_retriever
          [hit "A"; hit "B"; hit "C"] [hit "A"; hit "C"; hit "B"] 60 with
  | Ok out => map fst out = ["A"; "B"]
  | Raise _ => False
  end.
Proof. vm_compute. reflexivity. Qed.

(** ** Scores add up over the words of a query *)

Lemma query_score_app (index : BM25Index.t) (t1 t2 : list string)
    (doc_id : string) :
  query_score index (t1 ++ t2) doc_id
  = (query_score index t1 doc_id + query_score index t2 doc_id)%R.
Proof.
  induction t1 as [|u t1 IH]; cbn [app query_score].
  - ring.
  - rewrite IH. ring.
Qed.

Lemma dict_get_default_perm (V : Type) (l l' : list (string * V))
    (k : string) (default : V) :
  NoDup (map fst l) -> Permutation l l' ->
  dict_get_default l k default = dict_get_default l' k default.
Proof.
  intros Hnd Hperm.
  assert (NoDup (map fst l')) as Hnd'.
  { eapply Permutation_NoDup; [|exact Hnd]. now apply Permutation_map. }
  unfold dict_get_default.
  destruct (dict_get l k) as [v|] eqn:E.
  - apply dict_get_some_in in E. apply (Permutation_in _ Hperm) in E.
    now rewrite (dict_in_get _ _ _ Hnd' E).
  - destruct (dict_get l' k) as [v'|] eqn:E'; [|reflexivity].
    apply dict_get_some_in in E'.
    apply (Permutation_in _ (Permutation_sym Hperm)) in E'.
    rewrite (dict_in_get _ _ _ Hnd E') in E. discriminate E.
Qed.

Section SearchScore.

Variable set_iter : list string -> list string.
Hypothesis set_iter_order : is_set_order set_iter.

Variables k1 b : R.
Hypothesis k1_nonneg : (0 <= k1)%R.
Hypothesis b_range : (0 <= b <= 1)%R.

Variable docs : list (string * string).
Hypothesis docs_distinct : NoDup (map fst docs).

Variable index : BM25Index.t.
Hypothesis index_built : indexed k1 b docs index.

Lemma search_score_indexed (query doc_id : string) :
  search_score set_iter index query doc_id
  = query_score index (BM25Index._tokenize query) doc_id.
Proof.
  unfold search_score.
  rewrite (@search_indexed set_iter set_iter_order k1 b k1_nonneg b_range
             docs docs_distinct index index_built).
  set (scores := accumulate set_iter index (BM25Index._tokenize query) []).
  assert (Hkeys : map fst scores
                  = set_of_list
                      (visited set_iter index (BM25Index._tokenize query)))
    by apply accumulate_keys.
  assert (Hnodup : NoDup (map fst scores))
    by (rewrite Hkeys; apply set_of_list_nodup).
  assert (Hperm : Permutation (sorted_reverse snd Rltb scores) scores)
    by apply sorted_reverse_perm.
  rewrite slice_to_all.
  - rewrite <- (@dict_get_default_perm R scores
                  (sorted_reverse snd Rltb scores) doc_id 0%R Hnodup
                  (Permutation_sym Hperm)).
    unfold scores.
    rewrite (@accumulate_value set_iter set_iter_order k1 b docs
               docs_distinct index index_built).
    cbn [dict_get_default dict_get]. ring.
  - rewrite (ix_N index_built). unfold len.
    rewrite (Permutation_length Hperm).
    rewrite <- (length_map fst scores), <- (length_map fst docs).
    assert (length (map fst scores) <= length (map fst docs))%nat; [|lia].
    apply NoDup_incl_length; [exact Hnodup|].
    intros d Hd. rewrite Hkeys in Hd. apply -> set_of_list_in in Hd.
    eapply visited_ids; eassumption.
Qed.

End SearchScore.

(** X27.  BM25 scores add up over the words of a query.  On an index built
    from documents with distinct ids ([k1 >= 0], [0 <= b <= 1]), the score
    that a search over the whole index gives a document for the query
    [q1 + " " + q2] is the sum of its scores for [q1] and for [q2]; so
    repeating a query doubles every score, and a word that occurs twice in
    a query counts twice.  No score is negative. *)
Theorem search_scores_add_up (set_iter : list string -> list string)
    (k1 b : R) (docs : list (string * string))
    (query1 query2 doc_id : string) :
  is_set_order set_iter ->
  (0 <= k1)%R -> (0 <= b <= 1)%R ->
  NoDup (map fst docs) ->
  search_score set_iter (build set_iter k1 b docs)
    (query1 ++ " " ++ query2) doc_id
  = (search_score set_iter (build set_iter k1 b docs) query1 doc_id
     + search_score set_iter (build set_iter k1 b docs) query2 doc_id)%R
  /\ search_score set_iter (build set_iter k1 b docs)
       (query1 ++ " " ++ query1) doc_id
     = (2 * search_score set_iter (build set_iter k1 b docs) query1 doc_id)%R
  /\ (0 <= search_score set_iter (build set_iter k1 b docs) query1 doc_id)%R.
Proof.
  intros Hiter Hk1 Hb Hnd.
  pose proof (@build_indexed set_iter k1 b docs Hiter Hnd) as Hidx.
  rewrite !(@search_score_indexed set_iter Hiter k1 b Hk1 Hb docs Hnd
              (build set_iter k1 b docs) Hidx).
  rewrite !tokenize_app_space, !query_score_app.
  split; [reflexivity|]. split; [ring|].
  destruct (in_dec string_dec doc_id (map fst docs)) as [Hin|Hout].
  - apply in_map_iff in Hin. destruct Hin as ([d text] & Heq & Hin).
    cbn [fst] in Heq. subst d.
    apply (@query_score_pos k1 b Hk1 Hb docs Hnd
             (build set_iter k1 b docs) Hidx
             (BM25Index._tokenize query1) doc_id text Hin).
  - assert (forall tokens,
               query_score (build set_iter k1 b docs) tokens doc_id = 0%R)
      as Hzero.
    { induction tokens as [|u rest IH]; cbn [query_score]; [reflexivity|].
      rewrite IH, (indexed_postings Hidx).
      assert (set_mem doc_id (docs_with u docs) = false) as ->.
      { destruct (set_mem doc_id (docs_with u docs)) eqn:E; [|reflexivity].
        apply set_mem_in in E. apply docs_with_ids in E. contradiction. }
      rewrite andb_false_r. ring. }
    rewrite Hzero. lra.
Qed.

Lemma search_scores_add_up_witness :
  search_score insertion_order sample_index
    ("managed" ++ " " ++ "database") "rds"
  = (search_score insertion_order sample_index "managed" "rds"
     + search_score insertion_order sample_index "database" "rds")%R
  /\ search_score insertion_order sample_index
       ("managed" ++ " " ++ "managed") "rds"
     = (2 * search_score insertion_order sample_index "managed" "rds")%R
  /\ (0 <= search_score insertion_order sample_index "managed" "rds")%R.
Proof.
  apply (@search_scores_add_up insertion_order BM25Index.default_k1
           BM25Index.default_b sample_docs "managed" "database" "rds"
           insertion_order_is_set_order).
  - left. apply default_k1_pos.
  - apply default_b_range.
  - apply sample_docs_distinct.
Defined.

(** ** The scorer *)

Section ScorerFacts.

Import Scorer ScorerSpec.

Lemma qdiv_ok (x y : Q) : ~ y == 0 -> qdiv x y = Ok (x / y).
Proof.
  intros H. unfold qdiv.
  destruct (Qeq_bool y 0) eqn:E; [|reflexivity].
  apply Qeq_bool_eq in E. contradiction.
Qed.

Lemma Qdiv_unit_interval (x y : Q) :
  0 < y -> 0 <= x -> x <= y -> 0 <= x / y /\ x / y <= 1.
Proof.
  intros Hy Hx Hxy. split.
  - apply Qle_shift_div_l; [exact Hy|]. Lqa.lra.
  - apply Qle_shift_div_r; [exact Hy|]. Lqa.lra.
Qed.

Lemma max2_bounds (x y : Q) : x <= max2 x y /\ y <= max2 x y.
Proof.
  unfold max2. destruct (Qltb x y) eqn:E.
  - apply Qltb_lt in E. split; Lqa.lra.
  - apply Qltb_ge in E. split; Lqa.lra.
Qed.

Lemma max2_cases (x y : Q) : max2 x y = x \/ max2 x y = y.
Proof.
  unfold max2. destruct (Qltb x y); auto.
Qed.

Lemma Qle_bool_false (x y : Q) : Qle_bool x y = false -> y < x.
Proof.
  intros H. apply Qnot_le_lt. intros Hle.
  apply Qle_bool_iff in Hle. congruence.
Qed.

Lemma budget_fit_defined (monthly_cost budget tolerance : Q) :
  ~ budget == 0 ->
  exists v, budget_fit monthly_cost budget tolerance = Ok v.
Proof.
  intros Hb. unfold budget_fit.
  destruct (Qle_bool monthly_cost budget) eqn:E1.
  - rewrite qdiv_ok by exact Hb. eexists. reflexivity.
  - destruct (Qle_bool monthly_cost (budget * tolerance)) eqn:E2.
    + rewrite qdiv_ok; [eexists; reflexivity|].
      intros Hz. apply Qle_bool_false in E1. apply Qle_bool_iff in E2.
      assert (tolerance == 1) as Ht.
      { destruct (Qmult_integral _ _ Hz) as [H|H]; [contradiction|].
        Lqa.lra. }
      rewrite Ht, Qmult_1_r in E2. Lqa.lra.
    + rewrite qdiv_ok by exact Hb. eexists. reflexivity.
Qed.

Lemma budget_fit_range (monthly_cost budget tolerance v : Q) :
  0 < budget -> 0 < monthly_cost ->
  budget_fit monthly_cost budget tolerance = Ok v ->
  (1 # 10) <= v /\ v <= 1.
Proof.
  intros Hb Hc. unfold budget_fit.
  assert (~ budget == 0) as Hb0 by Lqa.lra.
  destruct (Qle_bool monthly_cost budget) eqn:E1.
  - apply Qle_bool_iff in E1. rewrite qdiv_ok by exact Hb0. cbn [bind].
    intros H. injection H as <-.
    destruct (@Qdiv_unit_interval monthly_cost budget) as [H0 H1];
      try Lqa.lra.
  - apply Qle_bool_false in E1.
    destruct (Qle_bool monthly_cost (budget * tolerance)) eqn:E2.
    + apply Qle_bool_iff in E2.
      assert (0 < budget * (tolerance - 1)) as Hd by Lqa.lra.
      rewrite qdiv_ok by Lqa.lra. cbn [bind].
      intros H. injection H as <-.
      destruct (@Qdiv_unit_interval (monthly_cost - budget)
                  (budget * (tolerance - 1))) as [H0 H1]; try Lqa.lra.
    + apply Qle_bool_false in E2. rewrite qdiv_ok by exact Hb0. cbn [bind].
      intros H. injection H as <-.
      destruct (max2_bounds (1 # 10)
                  ((3 # 10) - (monthly_cost / budget - tolerance) * (1 # 10)))
        as [Hlo _].
      split; [exact Hlo|].
      destruct (max2_cases (1 # 10)
                  ((3 # 10) - (monthly_cost / budget - tolerance) * (1 # 10)))
        as [-> | ->]; [Lqa.lra|].
      assert (tolerance < monthly_cost / budget) as Hr.
      { apply Qlt_shift_div_l; [exact Hb|]. Lqa.lra. }
      Lqa.lra.
Qed.

Lemma monthly_estimate_pos (price : Q) (unit : string) :
  0 < price -> 0 < monthly_estimate price unit.
Proof.
  intros H. unfold monthly_estimate.
  repeat match goal with
         | |- context [if ?c then _ else _] => destruct c
         end; Lqa.lra.
Qed.

Lemma cost_score_cases (self : Scorer.t) (requirements : Requirements)
    (candidate : RetrievedCandidate.t) :
  match effective_budget requirements with
  | None => _compute_cost_score self requirements candidate = Ok (5 # 10)
  | Some budget =>
      ~ budget == 0
      /\ match RetrievedCandidate.price_per_unit candidate with
         | Some price =>
             if Qeq_bool price 0
             then _compute_cost_score self requirements candidate
                  = Ok (3 # 10)
             else _compute_cost_score self requirements candidate
                  = budget_fit
                      (monthly_estimate price
                         (string_or
                            (RetrievedCandidate.price_unit candidate) ""))
                      budget (budget_tolerance (scoring self))
         | None =>
             _compute_cost_score self requirements candidate = Ok (3 # 10)
         end
  end.
Proof.
  unfold effective_budget, _compute_cost_score, number_or.
  destruct (budget_monthly_usd requirements) as [m|];
    destruct (budget_hourly_usd requirements) as [h|];
    cbn [is_true_number option_map];
    try destruct (Qeq_bool m 0) eqn:Em;
    try destruct (Qeq_bool h 0) eqn:Eh;
    cbn [negb andb]; try rewrite Em; try rewrite Eh; try reflexivity.
  all: (split;
        [first [now apply Qeq_bool_neq
               |apply Qeq_bool_neq in Eh; intros Hz; apply Eh; Lqa.lra]|]).
  all: destruct (RetrievedCandidate.price_per_unit candidate) as [p|];
    [|reflexivity].
  all: destruct (Qeq_bool p 0); reflexivity.
Qed.

Lemma cost_score_facts (self : Scorer.t) (requirements : Requirements)
    (candidate : RetrievedCandidate.t) :
  (exists v, _compute_cost_score self requirements candidate = Ok v)
  /\ (is_true_number (budget_monthly_usd requirements) = false ->
      is_true_number (budget_hourly_usd requirements) = false ->
      _compute_cost_score self requirements candidate = Ok (5 # 10))
  /\ ((is_true_number (budget_monthly_usd requirements) = true
       \/ is_true_number (budget_hourly_usd requirements) = true) ->
      is_true_number (RetrievedCandidate.price_per_unit candidate) = false ->
      _compute_cost_score self requirements candidate = Ok (3 # 10))
  /\ ((forall q, budget_monthly_usd requirements = Some q -> 0 <= q) ->
      (forall q, budget_hourly_usd requirements = Some q -> 0 <= q) ->
      (forall p,
          RetrievedCandidate.price_per_unit candidate = Some p -> 0 <= p) ->
      forall v,
        _compute_cost_score self requirements candidate = Ok v ->
        (1 # 10) <= v /\ v <= 1).
Proof.
  pose proof (cost_score_cases self requirements candidate) as Hcases.
  assert (forall budget,
             effective_budget requirements = Some budget ->
             (forall q, budget_monthly_usd requirements = Some q -> 0 <= q) ->
             (forall q, budget_hourly_usd requirements = Some q -> 0 <= q) ->
             0 <= budget) as Hnonneg.
  { unfold effective_budget. intros budget Hb Hm Hh.
    destruct (is_true_number (budget_monthly_usd requirements));
      [now apply Hm|].
    destruct (is_true_number (budget_hourly_usd requirements));
      [|discriminate Hb].
    destruct (budget_hourly_usd requirements) as [h|]; [|discriminate Hb].
    cbn [option_map] in Hb. injection Hb as <-.
    specialize (Hh h eq_refl). Lqa.lra. }
  assert (effective_budget requirements = None
          <-> is_true_number (budget_monthly_usd requirements) = false
              /\ is_true_number (budget_hourly_usd requirements) = false)
    as Hnone.
  { unfold effective_budget.
    destruct (budget_monthly_usd requirements) as [m|];
      destruct (budget_hourly_usd requirements) as [h|];
      cbn [is_true_number option_map];
      try destruct (Qeq_bool m 0); try destruct (Qeq_bool h 0);
      cbn [negb]; intuition discriminate. }
  destruct (effective_budget requirements) as [budget|] eqn:Eb.
  - destruct Hcases as [Hb0 Hprice].
    assert (~ (is_true_number (budget_monthly_usd requirements) = false
               /\ is_true_number (budget_hourly_usd requirements) = false))
      as Hsome by (intros H; apply Hnone in H; discriminate H).
    destruct (RetrievedCandidate.price_per_unit candidate) as [p|] eqn:Ep.
    + cbn [is_true_number].
      destruct (Qeq_bool p 0) eqn:E0; cbn [negb].
      * rewrite Hprice. split; [eexists; reflexivity|].
        split; [intros H1 H2; now contradiction Hsome|].
        split; [reflexivity|].
        intros _ _ _ v Hv. injection Hv as <-. split; Lqa.lra.
      * rewrite Hprice.
        destruct (@budget_fit_defined
                    (monthly_estimate p
                       (string_or
                          (RetrievedCandidate.price_unit candidate) ""))
                    budget (budget_tolerance (scoring self)) Hb0)
          as [v0 Hv0].
        split; [exists v0; exact Hv0|].
        split; [intros H1 H2; now contradiction Hsome|].
        split; [intros _ H; discriminate H|].
        intros Hm Hh Hp v Hv.
        apply Qeq_bool_neq in E0. specialize (Hp p eq_refl).
        specialize (Hnonneg budget eq_refl Hm Hh).
        eapply budget_fit_range; [| |exact Hv].
        -- Lqa.lra.
        -- apply monthly_estimate_pos. Lqa.lra.
    + rewrite Hprice. split; [eexists; reflexivity|].
      split; [intros H1 H2; now contradiction Hsome|].
      split; [reflexivity|].
      intros _ _ _ v Hv. injection Hv as <-. split; Lqa.lra.
  - rewrite Hcases. split; [eexists; reflexivity|].
    split; [reflexivity|].
    destruct (proj1 Hnone eq_refl) as [H1 H2].
    split; [intros [H|H]; congruence|].
    intros _ _ _ v Hv. injection Hv as <-. split; Lqa.lra.
Qed.

(** X19.  [_compute_cost_score] raises nothing, whatever the inputs: every
    divisor is shown to differ from zero.  It is 0.5 when neither budget is
    given (or both are zero), and 0.3 when a budget is given but the
    candidate has no price (or a price of zero).  When budgets and price are
    not negative the score lies between 0.1 and 1. *)
Theorem cost_score_range (self : Scorer.t) (requirements : Requirements)
    (candidate : RetrievedCandidate.t) :
  (exists v, _compute_cost_score self requirements candidate = Ok v)
  /\ (is_true_number (budget_monthly_usd requirements) = false ->
      is_true_number (budget_hourly_usd requirements) = false ->
      _compute_cost_score self requirements candidate = Ok (5 # 10))
  /\ ((is_true_number (budget_monthly_usd requirements) = true
       \/ is_true_number (budget_hourly_usd requirements) = true) ->
      is_true_number (RetrievedCandidate.price_per_unit candidate) = false ->
      _compute_cost_score self requirements candidate = Ok (3 # 10))
  /\ ((forall q, budget_monthly_usd requirements = Some q -> 0 <= q) ->
      (forall q, budget_hourly_usd requirements = Some q -> 0 <= q) ->
      (forall p,
          RetrievedCandidate.price_per_unit candidate = Some p -> 0 <= p) ->
      forall v,
        _compute_cost_score self requirements candidate = Ok v ->
        (1 # 10) <= v /\ v <= 1).
Proof.
  destruct (cost_score_facts self requirements candidate)
    as (H1 & H2 & H3 & H4).
  split; [exact H1|]. split; [exact H2|]. split; [exact H3|exact H4].
Qed.

(** X20.  The budget fit at the end of [_compute_cost_score], for a positive
    budget and a positive monthly estimate.  A candidate within budget
    scores above 0.7, and exactly 1 when its estimate equals the budget; a
    candidate over budget scores below 0.5 and not below 0.1.  So every
    candidate within budget beats every candidate over budget, and the score
    drops by more than half when the estimate passes the budget. *)
Theorem budget_fit_prefers_within_budget
    (monthly_cost budget tolerance v : Q) :
  0 < budget -> 0 < monthly_cost ->
  budget_fit monthly_cost budget tolerance = Ok v ->
  (monthly_cost <= budget -> (7 # 10) < v /\ v <= 1)
  /\ (monthly_cost == budget -> v == 1)
  /\ (budget < monthly_cost -> (1 # 10) <= v /\ v < (5 # 10)).
Proof.
  intros Hb Hc. unfold budget_fit.
  assert (~ budget == 0) as Hb0 by Lqa.lra.
  destruct (Qle_bool monthly_cost budget) eqn:E1.
  - apply Qle_bool_iff in E1. rewrite qdiv_ok by exact Hb0. cbn [bind].
    intros H. injection H as <-.
    assert (0 < monthly_cost / budget) as Hpos.
    { apply Qlt_shift_div_l; [exact Hb|]. Lqa.lra. }
    assert (monthly_cost / budget <= 1) as Hle.
    { apply Qle_shift_div_r; [exact Hb|]. Lqa.lra. }
    split; [intros _; split; Lqa.lra|].
    split; [|intros H; Lqa.lra].
    intros Heq. rewrite Heq.
    setoid_replace (budget / budget) with 1 by (field; exact Hb0).
    reflexivity.
  - apply Qle_bool_false in E1.
    destruct (Qle_bool monthly_cost (budget * tolerance)) eqn:E2.
    + apply Qle_bool_iff in E2.
      assert (0 < budget * (tolerance - 1)) as Hd by Lqa.lra.
      rewrite qdiv_ok by Lqa.lra. cbn [bind].
      intros H. injection H as <-.
      assert (0 < (monthly_cost - budget) / (budget * (tolerance - 1)))
        as Hpos.
      { apply Qlt_shift_div_l; [exact Hd|]. Lqa.lra. }
      assert ((monthly_cost - budget) / (budget * (tolerance - 1)) <= 1)
        as Hle.
      { apply Qle_shift_div_r; [exact Hd|]. Lqa.lra. }
      split; [intros H; Lqa.lra|]. split; [intros H; Lqa.lra|].
      intros _. split; Lqa.lra.
    + apply Qle_bool_false in E2. rewrite qdiv_ok by exact Hb0. cbn [bind].
      intros H. injection H as <-.
      split; [intros H; Lqa.lra|]. split; [intros H; Lqa.lra|].
      intros _.
      destruct (max2_bounds (1 # 10)
                  ((3 # 10) - (monthly_cost / budget - tolerance) * (1 # 10)))
        as [Hlo _].
      split; [exact Hlo|].
      destruct (max2_cases (1 # 10)
                  ((3 # 10) - (monthly_cost / budget - tolerance) * (1 # 10)))
        as [-> | ->]; [Lqa.lra|].
      assert (tolerance < monthly_cost / budget) as Hr.
      { apply Qlt_shift_div_l; [exact Hb|]. Lqa.lra. }
      Lqa.lra.
Qed.

Lemma budget_fit_prefers_within_budget_witness :
  (730 # 100 <= 100 -> (7 # 10) < (7 # 10) + (730 # 100) / 100 * (3 # 10)
                       /\ (7 # 10) + (730 # 100) / 100 * (3 # 10) <= 1)
  /\ (730 # 100 == 100 -> (7 # 10) + (730 # 100) / 100 * (3 # 10) == 1)
  /\ (100 < 730 # 100 ->
      (1 # 10) <= (7 # 10) + (730 # 100) / 100 * (3 # 10)
      /\ (7 # 10) + (730 # 100) / 100 * (3 # 10) < (5 # 10)).
Proof.
  apply (@budget_fit_prefers_within_budget (730 # 100) 100 (12 # 10)
           ((7 # 10) + (730 # 100) / 100 * (3 # 10))).
  - reflexivity.
  - reflexivity.
  - reflexivity.
Defined.

(** ** Capacity and feature match *)

Lemma capacity_part_facts (required available : option Q) :
  exists scores,
    capacity_part required available = Ok scores
    /\ (length scores <= 1)%nat
    /\ ((forall q, required = Some q -> 0 <= q) ->
        (forall q, available = Some q -> 0 <= q) ->
        Forall (fun s => 0 < s /\ s <= 1) scores).
Proof.
  unfold capacity_part.
  destruct required as [r|]; [|exists []; repeat split; auto].
  destruct available as [a|]; [|exists []; repeat split; auto].
  destruct (Qeq_bool r 0) eqn:Er; cbn [negb andb];
    [exists []; repeat split; auto|].
  destruct (Qeq_bool a 0) eqn:Ea; cbn [negb andb];
    [exists []; repeat split; auto|].
  apply Qeq_bool_neq in Er, Ea.
  destruct (Qle_bool r a) eqn:E.
  - apply Qle_bool_iff in E. rewrite qdiv_ok by exact Ea. cbn [bind].
    eexists. split; [reflexivity|]. split; [simpl; lia|].
    intros Hr Ha. specialize (Hr r eq_refl). specialize (Ha a eq_refl).
    constructor; [|constructor].
    assert (0 < r / a) by (apply Qlt_shift_div_l; Lqa.lra).
    assert (r / a <= 1) by (apply Qle_shift_div_r; Lqa.lra).
    split; Lqa.lra.
  - apply Qle_bool_false in E. rewrite qdiv_ok by exact Er. cbn [bind].
    eexists. split; [reflexivity|]. split; [simpl; lia|].
    intros Hr Ha. specialize (Hr r eq_refl). specialize (Ha a eq_refl).
    constructor; [|constructor].
    assert (0 < a / r) by (apply Qlt_shift_div_l; Lqa.lra).
    assert (a / r <= 1) by (apply Qle_shift_div_r; Lqa.lra).
    split; Lqa.lra.
Qed.

Lemma capacity_score_facts (requirements : Requirements)
    (candidate : RetrievedCandidate.t) :
  exists v,
    _compute_capacity_score requirements candidate = Ok v
    /\ ((forall q, min_vcpu requirements = Some q -> 0 <= q) ->
        (forall q, min_memory_gb requirements = Some q -> 0 <= q) ->
        (forall q, RetrievedCandidate.vcpu candidate = Some q -> 0 <= q) ->
        (forall q,
            RetrievedCandidate.memory_gb candidate = Some q -> 0 <= q) ->
        0 < v /\ v <= 1).
Proof.
  unfold _compute_capacity_score.
  destruct (capacity_part_facts (min_vcpu requirements)
              (RetrievedCandidate.vcpu candidate))
    as (l1 & -> & Hlen1 & Hr1).
  destruct (capacity_part_facts (min_memory_gb requirements)
              (RetrievedCandidate.memory_gb candidate))
    as (l2 & -> & Hlen2 & Hr2).
  cbn [bind]. cbv zeta. unfold sum_list, len.
  destruct l1 as [|s1 [|? ?]]; [| |simpl in Hlen1; lia];
    (destruct l2 as [|s2 [|? ?]]; [| |simpl in Hlen2; lia]);
    cbn [app fold_left length].
  - eexists. split; [reflexivity|]. intros _ _ _ _. split; Lqa.lra.
  - rewrite qdiv_ok by (intros H; discriminate H).
    eexists. split; [reflexivity|]. intros _ Hm _ Hc.
    specialize (Hr2 Hm Hc). inversion Hr2 as [|? ? [H0 H1] _]; subst.
    setoid_replace ((0 + s2) / inject_Z (Z.of_nat 1)) with s2
      by (simpl; field).
    split; assumption.
  - rewrite qdiv_ok by (intros H; discriminate H).
    eexists. split; [reflexivity|]. intros Hv _ Hc _.
    specialize (Hr1 Hv Hc). inversion Hr1 as [|? ? [H0 H1] _]; subst.
    setoid_replace ((0 + s1) / inject_Z (Z.of_nat 1)) with s1
      by (simpl; field).
    split; assumption.
  - rewrite qdiv_ok by (intros H; discriminate H).
    eexists. split; [reflexivity|]. intros Hv Hm Hc Hd.
    specialize (Hr1 Hv Hc). specialize (Hr2 Hm Hd).
    inversion Hr1 as [|? ? [H0 H1] _]; subst.
    inversion Hr2 as [|? ? [H2 H3] _]; subst.
    setoid_replace ((0 + s1 + s2) / inject_Z (Z.of_nat 2))
      with ((s1 + s2) * (1 # 2)) by (simpl; field).
    split; Lqa.lra.
Qed.

Lemma count_requirement_range (required matched : bool) (counters : Z * Z) :
  (0 <= fst counters <= snd counters)%Z ->
  (0 <= fst (count_requirement required matched counters)
   <= snd (count_requirement required matched counters))%Z
  /\ (snd counters <= snd (count_requirement required matched counters))%Z
  /\ (required = false ->
      count_requirement required matched counters = counters).
Proof.
  destruct counters as [m c]. cbn [fst snd]. intros H.
  unfold count_requirement.
  destruct required, matched; cbn [fst snd]; repeat split; try lia;
    try discriminate.
Qed.

Lemma feature_match_facts (requirements : Requirements)
    (candidate : RetrievedCandidate.t) :
  exists v,
    _compute_feature_match_score requirements candidate = Ok v
    /\ 0 <= v /\ v <= 1
    /\ (is_true_string (database_engine requirements) = false ->
        requires_high_availability requirements = false ->
        requires_auto_scaling requirements = false ->
        requires_encryption requirements = false ->
        v = (5 # 10)).
Proof.
  unfold _compute_feature_match_score. cbv zeta.
  set (c0 := (0%Z, 0%Z)).
  assert (0 <= fst c0 <= snd c0)%Z as H0 by (cbn; lia).
  set (r1 := is_true_string (database_engine requirements)).
  set (m1 := is_true_string (RetrievedCandidate.database_engine candidate)
             && _).
  destruct (count_requirement_range r1 m1 c0 H0) as (H1 & _ & E1).
  set (c1 := count_requirement r1 m1 c0) in *.
  destruct (count_requirement_range
              (requires_high_availability requirements)
              (RetrievedCandidate.supports_multi_az candidate) c1 H1)
    as (H2 & _ & E2).
  set (c2 := count_requirement _ _ c1) in *.
  destruct (count_requirement_range
              (requires_auto_scaling requirements)
              (RetrievedCandidate.supports_auto_scaling candidate) c2 H2)
    as (H3 & _ & E3).
  set (c3 := count_requirement _ _ c2) in *.
  destruct (count_requirement_range
              (requires_encryption requirements)
              (RetrievedCandidate.supports_encryption candidate) c3 H3)
    as (H4 & _ & E4).
  set (c4 := count_requirement _ _ c3) in *.
  assert (r1 = false ->
          requires_high_availability requirements = false ->
          requires_auto_scaling requirements = false ->
          requires_encryption requirements = false -> c4 = c0) as Hnone.
  { intros F1 F2 F3 F4.
    rewrite (E4 F4), (E3 F3), (E2 F2), (E1 F1). reflexivity. }
  destruct c4 as [matches count]. cbn [fst snd] in H4.
  destruct (Z.ltb_spec 0 count) as [Hpos|Hzero].
  - rewrite qdiv_ok.
    2:{ intros H. unfold Qeq in H. simpl in H. lia. }
    eexists. split; [reflexivity|].
    assert (0 < inject_Z count) as Hc by (unfold Qlt; simpl; lia).
    assert (0 <= inject_Z matches) as Hm by (unfold Qle; simpl; lia).
    assert (inject_Z matches <= inject_Z count) as Hmc
      by (rewrite <- Zle_Qle; lia).
    split; [apply Qle_shift_div_l; [exact Hc|]; Lqa.lra|].
    split; [apply Qle_shift_div_r; [exact Hc|]; Lqa.lra|].
    intros F1 F2 F3 F4. specialize (Hnone F1 F2 F3 F4).
    unfold c0 in Hnone. injection Hnone as -> ->. lia.
  - eexists. split; [reflexivity|]. split; [Lqa.lra|].
    split; [Lqa.lra|]. reflexivity.
Qed.

(** X21.  [_compute_capacity_score] and [_compute_feature_match_score]
    raise nothing.  The capacity score is 0.5 when no capacity requirement
    applies (for vCPU and for memory, the requirement or the candidate's
    value is missing or zero), and lies in (0, 1] when the amounts are not
    negative.  The feature match score lies in [0, 1], and is 0.5 when
    nothing is required. *)
Theorem capacity_and_feature_scores (requirements : Requirements)
    (candidate : RetrievedCandidate.t) :
  (exists v,
      _compute_capacity_score requirements candidate = Ok v
      /\ ((forall q, min_vcpu requirements = Some q -> 0 <= q) ->
          (forall q, min_memory_gb requirements = Some q -> 0 <= q) ->
          (forall q, RetrievedCandidate.vcpu candidate = Some q -> 0 <= q) ->
          (forall q,
              RetrievedCandidate.memory_gb candidate = Some q -> 0 <= q) ->
          0 < v /\ v <= 1))
  /\ ((is_true_number (min_vcpu requirements)
       && is_true_number (RetrievedCandidate.vcpu candidate) = false) ->
      (is_true_number (min_memory_gb requirements)
       && is_true_number (RetrievedCandidate.memory_gb candidate) = false) ->
      _compute_capacity_score requirements candidate = Ok (5 # 10))
  /\ (exists v,
        _compute_feature_match_score requirements candidate = Ok v
        /\ 0 <= v /\ v <= 1
        /\ (is_true_string (database_engine requirements) = false ->
            requires_high_availability requirements = false ->
            requires_auto_scaling requirements = false ->
            requires_encryption requirements = false ->
            v = (5 # 10))).
Proof.
  split; [apply capacity_score_facts|].
  split; [|apply feature_match_facts].
  intros Hv Hm. unfold _compute_capacity_score, capacity_part.
  assert (forall r a,
             is_true_number r && is_true_number a = false ->
             match r, a with
             | Some required, Some available =>
                 if negb (Qeq_bool required 0) && negb (Qeq_bool available 0)
                 then
                   if Qle_bool required available
                   then ratio <- qdiv required available ;;
                        Ok [(7 # 10) + ratio * (3 # 10)]
                   else ratio <- qdiv available required ;;
                        Ok [ratio * (6 # 10)]
                 else Ok []
             | _, _ => Ok []
             end = Ok []) as Hskip.
  { intros [r|] [a|] H; try reflexivity. cbn [is_true_number] in H.
    now rewrite H. }
  rewrite (Hskip _ _ Hv), (Hskip _ _ Hm). reflexivity.
Qed.

(** ** Provider diversity *)

Lemma take_best_fold (l : list Scored) (seen : list string)
    (d r : list Scored) :
  fold_left take_best l (seen, d, r)
  = (fold_left set_add (map provider_of (firsts seen l)) seen,
     (d ++ firsts seen l)%list, (r ++ others seen l)%list).
Proof.
  revert seen d r. induction l as [|c rest IH]; intros seen d r.
  - cbn. now rewrite !app_nil_r.
  - cbn [fold_left take_best firsts others].
    destruct (set_mem (provider_of c) seen) eqn:E; cbn [negb].
    + rewrite IH. now rewrite <- app_assoc.
    + rewrite IH. cbn [map fold_left]. now rewrite <- app_assoc.
Qed.

Lemma boost_tops_firsts (l : list Scored) (top : list string)
    (rest : list Scored) :
  boost_tops top (firsts top l ++ rest)
  = (map boost (firsts top l)
     ++ boost_tops (fold_left set_add (map provider_of (firsts top l)) top)
          rest)%list.
Proof.
  revert top. induction l as [|c t IH]; intros top; cbn [firsts].
  - reflexivity.
  - destruct (set_mem (provider_of c) top) eqn:E.
    + apply IH.
    + cbn [app boost_tops map fold_left]. rewrite E. cbn [negb].
      now rewrite IH.
Qed.

Lemma fold_set_add_in (l s : list string) (x : string) :
  In x (fold_left set_add l s) <-> In x s \/ In x l.
Proof.
  revert s. induction l as [|y l IH]; intros s; cbn [fold_left].
  - simpl. tauto.
  - rewrite IH, set_add_in. simpl. intuition auto.
Qed.

Lemma others_seen (l : list Scored) (seen : list string) (c : Scored) :
  In c (others seen l) ->
  In (provider_of c)
     (fold_left set_add (map provider_of (firsts seen l)) seen).
Proof.
  revert seen. induction l as [|x t IH]; intros seen; cbn [others firsts].
  - intros [].
  - destruct (set_mem (provider_of x) seen) eqn:E.
    + intros [<-|Hin].
      * apply fold_set_add_in. left. now apply set_mem_in.
      * now apply IH.
    + intros Hin. cbn [map fold_left]. now apply IH.
Qed.

Lemma boost_tops_known (top : list string) (l : list Scored) :
  (forall c, In c l -> In (provider_of c) top) ->
  boost_tops top l = l.
Proof.
  induction l as [|c t IH]; intros H; cbn [boost_tops]; [reflexivity|].
  assert (set_mem (provider_of c) top = true) as ->
    by (apply set_mem_in, H; now left).
  cbn [negb]. rewrite IH; [reflexivity|].
  intros x Hx. apply H. now right.
Qed.

Lemma boost_firsts_perm (l : list Scored) (seen : list string) :
  Permutation (map boost (firsts seen l) ++ others seen l)
              (boost_firsts seen l).
Proof.
  revert seen. induction l as [|c t IH]; intros seen;
    cbn [firsts others boost_firsts].
  - constructor.
  - destruct (set_mem (provider_of c) seen).
    + apply Permutation_sym. eapply Permutation_trans.
      * apply perm_skip, Permutation_sym, IH.
      * apply Permutation_middle.
    + cbn [map app]. apply perm_skip, IH.
Qed.

Lemma apply_diversity_boost_long (l : list Scored) :
  (2 < len l)%Z ->
  _apply_diversity_boost l
  = sorted_reverse final_score Qltb
      (map boost (firsts [] l) ++ others [] l).
Proof.
  intros Hlen. unfold _apply_diversity_boost.
  destruct (Z.leb_spec (len l) 2) as [H|_]; [lia|].
  rewrite take_best_fold. cbn [app]. f_equal.
  rewrite boost_tops_firsts. f_equal.
  apply boost_tops_known. intros c Hc. now apply others_seen.
Qed.

Lemma Qltb_sorted_descending (l : list Scored) :
  StronglySorted (fun x y => final_score y <= final_score x)
    (sorted_reverse final_score Qltb l).
Proof.
  eapply StronglySorted_impl;
    [|apply (sorted_reverse_sorted final_score Qltb Qltb_asym
               Qltb_negtrans)].
  intros x y H. now apply Qltb_ge.
Qed.

(** X22.  [_apply_diversity_boost].  A list of at most two candidates is
    returned as it is.  A longer list comes back as a permutation in which
    exactly the first candidate of each provider (in the given order, the
    best of the provider when the list is sorted) has its final score
    multiplied by 1.05, sorted again in descending order of final score. *)
Theorem diversity_boost_contract (scored_candidates : list Scored) :
  ((len scored_candidates <= 2)%Z ->
   _apply_diversity_boost scored_candidates = scored_candidates)
  /\ ((2 < len scored_candidates)%Z ->
      Permutation (_apply_diversity_boost scored_candidates)
                  (boost_firsts [] scored_candidates)
      /\ StronglySorted (fun x y => final_score y <= final_score x)
           (_apply_diversity_boost scored_candidates)).
Proof.
  split.
  - intros H. unfold _apply_diversity_boost.
    destruct (Z.leb_spec (len scored_candidates) 2) as [_|H']; [|lia].
    reflexivity.
  - intros H. rewrite apply_diversity_boost_long by exact H. split.
    + eapply Permutation_trans; [apply sorted_reverse_perm|].
      apply boost_firsts_perm.
    + apply Qltb_sorted_descending.
Qed.

(** ** Scoring and ranking *)




Lemma default_scoring_normalized : weights_normalized default_scoring.
Proof.
  unfold weights_normalized, default_scoring. cbn. repeat split;
    try (intros H; discriminate H); reflexivity.
Qed.





End ScorerFacts.
